(** * ring-zk: a shallow embedding of the commitment scheme and its Sigma protocols

    The crate is generic over the coefficient type [I] and delegates the
    ring [Z_q[X]/(X^N+1)] to the external crate [poly_ring_xnp1].  Coefficients
    are modelled as [Z] (the crate's tests instantiate [I] with [i32]/[i64]);
    the ring of polynomials is a parameter ([RingLib]) whose algebraic
    contract is a separate hypothesis ([RingLaws]).

    Rust panics, and loops that have not exited, are made explicit by the
    result type [res]. *)

From Stdlib Require Import String ZArith List Lia Ring Bool Permutation.
Import ListNotations.

(** ** Outcomes of running Rust code *)

Inductive res (A : Type) : Type :=
| Ok : A -> res A
| Panic : string -> res A
| Diverge : res A.  (** a [loop] that has not exited within the fuel *)
Arguments Ok {A} _.
Arguments Panic {A} _.
Arguments Diverge {A}.

Definition bind {A B : Type} (m : res A) (f : A -> res B) : res B :=
  match m with
  | Ok a => f a
  | Panic s => Panic s
  | Diverge => Diverge
  end.

Notation "x <- m ;; k" := (bind m (fun x => k))
  (at level 61, m at next level, right associativity).

(** [assert!(cond)] / [assert_eq!] *)
Definition assert (cond : bool) (msg : string) : res unit :=
  if cond then Ok tt else Panic msg.

Fixpoint mapM {A B : Type} (f : A -> res B) (l : list A) : res (list B) :=
  match l with
  | [] => Ok []
  | x :: l' => y <- f x ;; ys <- mapM f l' ;; Ok (y :: ys)
  end.

Fixpoint foldM {A B : Type} (f : B -> A -> res B) (l : list A) (acc : B) : res B :=
  match l with
  | [] => Ok acc
  | x :: l' => acc' <- f acc x ;; foldM f l' acc'
  end.

(** ** The random number generator

    The RNG state is a tape of raw words; each draw of the [rand] crate
    consumes one word (an exhausted tape yields [0]).  Every outcome of a
    draw is reachable from some tape, so "for every RNG state" is "for every
    tape". *)

Definition Rng := list Z.

Definition next_word (rng : Rng) : Z * Rng :=
  match rng with
  | [] => (0%Z, [])
  | w :: rest => (w, rest)
  end.

(** [rng.random_bool(0.5)] *)
Definition random_bool_half (rng : Rng) : bool * Rng :=
  let (w, rng') := next_word rng in (Z.even w, rng').

(** an index drawn uniformly in [0, ub) *)
Definition gen_index (rng : Rng) (ub : nat) : nat * Rng :=
  let (w, rng') := next_word rng in (Z.to_nat (w mod Z.of_nat ub), rng').

(** [rng.random_range(lo..=hi)]: panics on an empty range *)
Definition random_range_incl (rng : Rng) (lo hi : Z) : res (Z * Rng) :=
  if (hi <? lo)%Z then Panic "cannot sample empty range"
  else let (w, rng') := next_word rng in Ok ((lo + w mod (hi - lo + 1))%Z, rng').

(** One draw of [Normal::new(mean, std_dev)] converted by [I::from_f64]: the
    Gaussian has full support, so the drawn integer is the tape word. *)
Definition sample_normal (rng : Rng) (mean std_dev : Z) : Z * Rng :=
  next_word rng.

(** [n] successive draws of a fallible sampler. *)
Fixpoint repeat_draw {A : Type} (cnt : nat) (gen : Rng -> res (A * Rng)) (rng : Rng)
  : res (list A * Rng) :=
  match cnt with
  | O => Ok ([], rng)
  | S cnt' =>
      p <- gen rng ;;
      let (a, rng1) := p in
      q <- repeat_draw cnt' gen rng1 ;;
      let (rest, rng2) := q in
      Ok (a :: rest, rng2)
  end.

(** [n] successive draws of an infallible sampler. *)
Fixpoint draw_n {A : Type} (cnt : nat) (gen : Rng -> A * Rng) (rng : Rng) : list A * Rng :=
  match cnt with
  | O => ([], rng)
  | S cnt' =>
      let (a, rng1) := gen rng in
      let (rest, rng2) := draw_n cnt' gen rng1 in
      (a :: rest, rng2)
  end.

(** ** Polynomial coefficient vectors and norms (src/polynomial.rs)

    A coefficient vector is [p.iter()] of a [Polynomial<I, N>] read through
    [to_i128]. *)

Module Norms.

(** [norm_1]: sum of the absolute values *)
Definition norm_1 (cs : list Z) : Z :=
  fold_left (fun a c => (a + Z.abs c)%Z) cs 0%Z.

(** [norm_2]: integer square root of the sum of squares *)
Definition norm_2 (cs : list Z) : Z :=
  Z.sqrt (fold_left (fun a c => (a + c * c)%Z) cs 0%Z).

(** [norm_infinity]: [.max().unwrap()] over the absolute values *)
Definition norm_infinity (cs : list Z) : res Z :=
  match map Z.abs cs with
  | [] => Panic "called `Option::unwrap()` on a `None` value"
  | h :: t => Ok (fold_left Z.max t h)
  end.

End Norms.

(** ** The challenge space (src/challenge_space.rs) *)

Module Challenge.

(** [slice::swap] (both indices are in range where it is used) *)
Fixpoint list_set (l : list Z) (i : nat) (v : Z) : list Z :=
  match l, i with
  | [], _ => []
  | _ :: t, O => v :: t
  | h :: t, S i' => h :: list_set t i' v
  end.

Definition swap (l : list Z) (i j : nat) : list Z :=
  let a := nth i l 0%Z in
  let c := nth j l 0%Z in
  list_set (list_set l i c) j a.

(** [SliceRandom::shuffle] of the rand crate: slices of length at most one
    are left alone; otherwise a Fisher-Yates pass over [i = 0 .. len-1]
    swaps position [i] with an index drawn in [0, i]. *)
Fixpoint shuffle_from (i cnt : nat) (l : list Z) (rng : Rng) : list Z * Rng :=
  match cnt with
  | O => (l, rng)
  | S cnt' =>
      let (j, rng1) := gen_index rng (S i) in
      shuffle_from (S i) cnt' (swap l i j) rng1
  end.

Definition shuffle (l : list Z) (rng : Rng) : list Z * Rng :=
  if (length l <=? 1)%nat then (l, rng) else shuffle_from 0 (length l) l rng.

(** [coeffs.iter_mut().take(kappa).for_each(..)]: each of the first
    [kappa] slots becomes [1] or [0 - 1] by a fair coin. *)
Fixpoint fill_signs (cs : list Z) (kappa : nat) (rng : Rng) : list Z * Rng :=
  match cs, kappa with
  | [], _ => ([], rng)
  | c :: cs', O => (c :: cs', rng)
  | _ :: cs', S kappa' =>
      let zero := 0%Z in
      let bound := 1%Z in
      let (bit, rng1) := random_bool_half rng in
      let c' := if bit then bound else (zero - bound)%Z in
      let (rest, rng2) := fill_signs cs' kappa' rng1 in
      (c' :: rest, rng2)
  end.

(** [random_polynomial_from_challenge_set]: the coefficient vector handed to
    [Polynomial::new]; [N] is the const generic. *)
Definition random_polynomial_from_challenge_set (N : nat) (rng : Rng) (kappa : nat)
  : list Z * Rng :=
  let coeffs := repeat 0%Z N in
  let (coeffs1, rng1) := fill_signs coeffs kappa rng in
  shuffle coeffs1 rng1.

(** [PartialEq] on polynomials and [c1 - c2] (coefficient-wise) *)
Definition poly_eqb (c1 c2 : list Z) : bool := if list_eq_dec Z.eq_dec c1 c2 then true else false.
Definition poly_sub (c1 c2 : list Z) : list Z := map (fun '(a, c) => (a - c)%Z) (combine c1 c2).

Fixpoint difference_loop (fuel : nat) (N : nat) (c1 : list Z) (rng : Rng) (kappa : nat)
  : res (list Z * Rng) :=
  match fuel with
  | O => Diverge
  | S fuel' =>
      let (c2, rng1) := random_polynomial_from_challenge_set N rng kappa in
      if negb (poly_eqb c1 c2) then Ok (poly_sub c1 c2, rng1)
      else difference_loop fuel' N c1 rng1 kappa
  end.

(** [random_polynomial_from_challenge_set_difference]; [fuel] bounds the
    iterations of its [loop]. *)
Definition random_polynomial_from_challenge_set_difference
  (fuel : nat) (N : nat) (rng : Rng) (kappa : nat) : res (list Z * Rng) :=
  let (c1, rng1) := random_polynomial_from_challenge_set N rng kappa in
  difference_loop fuel N c1 rng1 kappa.

End Challenge.

(** ** Parameters (src/params.rs) *)

Record Params := mkParams {
  q : Z;
  b : Z;
  n : nat;
  k : nat;
  l : nat;
  kappa : nat
}.

(** [Params::default()] with the coefficients read as integers *)
Definition default_params : Params :=
  {| q := 3515337053 / 2; b := 1; n := 1; k := 3; l := 1; kappa := 36 |}.

(** [usize] arithmetic: overflow panics (debug build, as the tests run). *)
Definition usize_max : Z := (2 ^ 64 - 1)%Z.

Definition usize_mul (x y : Z) : res Z :=
  if (x * y <=? usize_max)%Z then Ok (x * y)%Z
  else Panic "attempt to multiply with overflow".

Definition usize_sub (x y : nat) : res nat :=
  if (y <=? x)%nat then Ok (x - y)%nat else Panic "attempt to subtract with overflow".

(** [b.to_usize().unwrap()] *)
Definition to_usize (x : Z) : res Z :=
  if ((0 <=? x) && (x <=? usize_max))%Z then Ok x
  else Panic "called `Option::unwrap()` on a `None` value".

(** [Params::standard_deviation]:
    [b.to_usize().unwrap() * (11 * kappa) * (k * deg_n).sqrt()] *)
Definition standard_deviation (p : Params) (deg_n : nat) : res Z :=
  bu <- to_usize (b p) ;;
  t1 <- usize_mul 11 (Z.of_nat (kappa p)) ;;
  t2 <- usize_mul bu t1 ;;
  t3 <- usize_mul (Z.of_nat (k p)) (Z.of_nat deg_n) ;;
  usize_mul t2 (Z.sqrt t3).

(** the bounds [4 * sigma * N.sqrt()] and [2 * sigma * N.sqrt()] *)
Definition commit_bound (p : Params) (N : nat) : res Z :=
  sigma <- standard_deviation p N ;;
  t <- usize_mul 4 sigma ;;
  usize_mul t (Z.sqrt (Z.of_nat N)).

Definition verify_bound (p : Params) (N : nat) : res Z :=
  sigma <- standard_deviation p N ;;
  t <- usize_mul 2 sigma ;;
  usize_mul t (Z.sqrt (Z.of_nat N)).

(** ** The ring [R_q = Z_q[X]/(X^N+1)] of [poly_ring_xnp1]

    The external crate supplies the polynomial type, its arithmetic and its
    equality; [coeffs] is [p.iter()] read through [to_i128] and
    [from_coeffs] is [Polynomial::new]. *)

Record RingLib := {
  poly : Type;
  pzero : poly;
  pone : poly;
  padd : poly -> poly -> poly;
  psub : poly -> poly -> poly;
  pmul : poly -> poly -> poly;
  pneg : poly -> poly;
  peqb : poly -> poly -> bool;
  coeffs : poly -> list Z;
  from_coeffs : list Z -> poly;
  degN : nat
}.

(** The contract of the ring library: a commutative ring whose [PartialEq]
    is equality. *)
Definition RingLaws (L : RingLib) : Prop :=
  ring_theory (pzero L) (pone L) (padd L) (pmul L) (psub L) (pneg L) (@eq (poly L))
  /\ (forall a c, peqb L a c = true <-> a = c).

(** [Vec] equality from an element equality ([#[derive(PartialEq)]]) *)
Fixpoint list_eqb {A : Type} (eqb : A -> A -> bool) (l1 l2 : list A) : bool :=
  match l1, l2 with
  | [], [] => true
  | a :: t1, c :: t2 => eqb a c && list_eqb eqb t1 t2
  | _, _ => false
  end.

(** ** Matrices of polynomials (src/mat.rs) *)

Section MatOps.
Context {L : RingLib}.
Local Abbreviation R := (poly L).

(** [Mat { polynomials: Vec<Vec<Polynomial>> }], stored by rows *)
Definition Mat := list (list R).

Definition dim (a : Mat) : nat * nat :=
  (length a, match a with [] => O | row :: _ => length row end).

(** [self.polynomials[i][j]] *)
Definition get (a : Mat) (i j : nat) : res R :=
  match nth_error a i with
  | Some row =>
      match nth_error row j with
      | Some p => Ok p
      | None => Panic "index out of bounds"
      end
  | None => Panic "index out of bounds"
  end.

Definition from_element (m1 n1 : nat) (e : R) : Mat := repeat (repeat e n1) m1.

Definition from_vec (v : list R) : Mat := map (fun p => [p]) v.

Definition dot (a o : Mat) : res Mat :=
  let (m1, n1) := dim a in
  let (n2, p2) := dim o in
  _ <- assert (Nat.eqb n1 n2) "assertion `left == right` failed" ;;
  mapM (fun i =>
    mapM (fun j =>
      foldM (fun acc kk =>
          x1 <- get a i kk ;;
          x2 <- get o kk j ;;
          Ok (padd L acc (pmul L x1 x2)))
        (seq 0 n1) (pzero L))
      (seq 0 p2))
    (seq 0 m1).

Definition add (a o : Mat) : res Mat :=
  let (m1, n1) := dim a in
  let (m2, n2) := dim o in
  _ <- assert (Nat.eqb m1 m2) "assertion `left == right` failed" ;;
  _ <- assert (Nat.eqb n1 n2) "assertion `left == right` failed" ;;
  mapM (fun i =>
    mapM (fun j => x1 <- get a i j ;; x2 <- get o i j ;; Ok (padd L x1 x2))
      (seq 0 n1))
    (seq 0 m1).

Definition extend_rows (a o : Mat) : res Mat :=
  let (_, n1) := dim a in
  let (_, n2) := dim o in
  _ <- assert (Nat.eqb n1 n2) "assertion `left == right` failed" ;;
  Ok (a ++ o).

Definition extend_cols (a o : Mat) : res Mat :=
  let (m1, _) := dim a in
  let (m2, _) := dim o in
  _ <- assert (Nat.eqb m1 m2) "assertion `left == right` failed" ;;
  Ok (map (fun '(r1, r2) => r1 ++ r2) (combine a o)).

(** Modelled from the spec: [Mat::diag], [Mat::new_with],
    [Mat::componentwise_mul], [Mat::sub], [Mat::split_rows] and
    [Mat::one_d_mat_to_vec], which src/mat.rs does not contain (spec 4.1):
    [diag] puts [e] on the diagonal and zero elsewhere; [new_with] calls the
    generator for each cell, row by row; [componentwise_mul] multiplies each
    entry by the scalar; [sub] is entrywise and fails on a shape mismatch;
    [split_rows k] partitions the rows at [k]; [one_d_mat_to_vec] flattens
    an [m x 1] matrix. *)
Definition diag (m1 n1 : nat) (e : R) : Mat :=
  map (fun i => map (fun j => if Nat.eqb i j then e else pzero L) (seq 0 n1)) (seq 0 m1).

Definition new_with (m1 n1 : nat) (gen : Rng -> res (R * Rng)) (rng : Rng)
  : res (Mat * Rng) :=
  repeat_draw m1 (repeat_draw n1 gen) rng.

Definition componentwise_mul (a : Mat) (s : R) : Mat :=
  map (map (fun p => pmul L p s)) a.

Definition sub (a o : Mat) : res Mat :=
  let (m1, n1) := dim a in
  let (m2, n2) := dim o in
  _ <- assert (Nat.eqb m1 m2) "assertion `left == right` failed" ;;
  _ <- assert (Nat.eqb n1 n2) "assertion `left == right` failed" ;;
  mapM (fun i =>
    mapM (fun j => x1 <- get a i j ;; x2 <- get o i j ;; Ok (psub L x1 x2))
      (seq 0 n1))
    (seq 0 m1).

Definition split_rows (a : Mat) (at_ : nat) : res (Mat * Mat) :=
  _ <- assert (Nat.leb at_ (length a)) "`at` split index out of bounds" ;;
  Ok (firstn at_ a, skipn at_ a).

Definition one_d_mat_to_vec (a : Mat) : res (list R) :=
  mapM (fun row => match row with
                   | [] => Panic "index out of bounds"
                   | p :: _ => Ok p
                   end) a.

(** [PartialEq] on [Mat] *)
Definition mat_eqb (a o : Mat) : bool := list_eqb (list_eqb (peqb L)) a o.

(** [iter.reduce(|acc, x| acc.add(&x)).unwrap()] over lazily mapped items *)
Definition reduce_add {A : Type} (f : A -> res Mat) (items : list A) : res Mat :=
  match items with
  | [] => Panic "called `Option::unwrap()` on a `None` value"
  | h :: t => m0 <- f h ;; foldM (fun acc a => m <- f a ;; add acc m) t m0
  end.

(** ** Samplers of src/polynomial.rs producing ring elements *)

(** [random_polynomial_within]: [N] coefficients uniform in [[-bound, bound]] *)
Definition random_polynomial_within (rng : Rng) (bound : Z) : res (R * Rng) :=
  let lower := (0 - bound)%Z in
  pr <- repeat_draw (degN L) (fun r => random_range_incl r lower bound) rng ;;
  let (cs, rng1) := pr in
  Ok (from_coeffs L cs, rng1).

(** what [random_polynomial_within] returns: [Polynomial::new] of [N]
    coefficients in [[-bound, bound]] (a predicate for the statements) *)
Definition within_poly (bound : Z) (e : R) : Prop :=
  exists cs, e = from_coeffs L cs /\ length cs = degN L /\ Forall (fun c => - bound <= c <= bound)%Z cs.

(** [random_polynomial_in_normal_distribution]: [N] Gaussian draws *)
Definition random_polynomial_in_normal_distribution (rng : Rng) (mean std_dev : Z)
  : R * Rng :=
  let (cs, rng1) := draw_n (degN L) (fun r => sample_normal r mean std_dev) rng in
  (from_coeffs L cs, rng1).

(** ** Constraints of src/params.rs *)

Definition entries_within (a : Mat) (bound : Z) : bool :=
  forallb (forallb (fun e => Z.leb (Norms.norm_2 (coeffs L e)) bound)) a.

Definition check_commit_constraint (p : Params) (a : Mat) : res bool :=
  bound <- commit_bound p (degN L) ;;
  Ok (entries_within a bound).

Definition check_verify_constraint (p : Params) (a : Mat) : res bool :=
  bound <- verify_bound p (degN L) ;;
  Ok (entries_within a bound).

(** the closure [|| random_polynomial_in_normal_distribution(rng, 0, sigma)]
    of the provers, which computes [standard_deviation(N)] at each call *)
Definition normal_gen (p : Params) (rng : Rng) : res (R * Rng) :=
  sigma <- standard_deviation p (degN L) ;;
  Ok (random_polynomial_in_normal_distribution rng 0 sigma).

End MatOps.

(** ** The commitment scheme (src/commit.rs) *)

Module Commit.
Section CommitScheme.
Context {L : RingLib}.
Local Abbreviation R := (poly L).

Record CommitmentKey := { a1 : @Mat L; a2 : @Mat L }.

Record Opening := { x : list R; r : @Mat L; f : option R }.

Record Commitment := { c : @Mat L }.

(** [CommitmentKey::new] *)
Definition new (rng : Rng) (p : Params) : res (CommitmentKey * Rng) :=
  (* a1 = [I_n a1'] *)
  let tmp := diag (n p) (n p) (pone L) in
  kn <- usize_sub (k p) (n p) ;;
  pr1 <- new_with (n p) kn (fun r0 => random_polynomial_within r0 (q p)) rng ;;
  let (a1_prime, rng1) := pr1 in
  ck_a1 <- extend_cols tmp a1_prime ;;
  (* a2 = [0_lxn I_l a2'] *)
  let tmp2 := from_element (l p) (n p) (pzero L) in
  let i_l := diag (l p) (l p) (pone L) in
  kn' <- usize_sub (k p) (n p) ;;
  knl <- usize_sub kn' (l p) ;;
  pr2 <- new_with (l p) knl (fun r0 => random_polynomial_within r0 (q p)) rng1 ;;
  let (a2_prime, rng2) := pr2 in
  tmp3 <- extend_cols tmp2 i_l ;;
  ck_a2 <- extend_cols tmp3 a2_prime ;;
  Ok ({| a1 := ck_a1; a2 := ck_a2 |}, rng2).

(** the [loop] drawing [r] until [check_commit_constraint] holds *)
Fixpoint sample_r (fuel : nat) (p : Params) (rng : Rng) : res (@Mat L * Rng) :=
  match fuel with
  | O => Diverge
  | S fuel' =>
      pr <- new_with (k p) 1 (fun r0 => random_polynomial_within r0 (b p)) rng ;;
      let (tmp, rng1) := pr in
      ok <- check_commit_constraint p tmp ;;
      if ok then Ok (tmp, rng1) else sample_r fuel' p rng1
  end.

Definition commit_len_msg : string := "assertion `left == right` failed: l == x.len()".

(** [CommitmentKey::commit] *)
Definition commit (ck : CommitmentKey) (fuel : nat) (rng : Rng) (xv : list R) (p : Params)
  : res (Opening * Commitment * Rng) :=
  _ <- assert (Nat.eqb (l p) (length xv)) commit_len_msg ;;
  let x_mat := from_vec xv in
  pr <- sample_r fuel p rng ;;
  let (rv, rng1) := pr in
  a <- extend_rows (a1 ck) (a2 ck) ;;
  z <- extend_rows (from_element (n p) 1 (pzero L)) x_mat ;;
  ar <- dot a rv ;;
  cv <- add ar z ;;
  Ok ({| x := xv; r := rv; f := None |}, {| c := cv |}, rng1).

(** [Commitment::verify] *)
Definition verify (com : Commitment) (opening : Opening) (ck : CommitmentKey) (p : Params)
  : res bool :=
  ok <- check_commit_constraint p (r opening) ;;
  if negb ok then Ok false else
  a <- extend_rows (a1 ck) (a2 ck) ;;
  z <- extend_rows (from_element (n p) 1 (pzero L)) (from_vec (x opening)) ;;
  match f opening with
  | Some fp =>
      let lhs := componentwise_mul (c com) fp in
      ar <- dot a (r opening) ;;
      rhs <- add ar (componentwise_mul z fp) ;;
      Ok (mat_eqb lhs rhs)
  | None =>
      ar <- dot a (r opening) ;;
      lhs <- add ar z ;;
      Ok (mat_eqb lhs (c com))
  end.

(** [Commitment::c1_c2] *)
Definition c1_c2 (com : Commitment) (p : Params) : res (@Mat L * @Mat L) :=
  split_rows (c com) (n p).

(** the sampler of the challenge [d] used by all three verifiers *)
Definition challenge_poly (rng : Rng) (p : Params) : R * Rng :=
  let (cs, rng1) := Challenge.random_polynomial_from_challenge_set (degN L) rng (kappa p) in
  (from_coeffs L cs, rng1).

End CommitScheme.
End Commit.

(** ** Proof of Opening (src/prove/open.rs) *)

Module Open.
Import Commit.
Section OpenProof.
Context {L : RingLib}.
Local Abbreviation R := (poly L).

Record OpenProofResponseContext := { rc_opening : @Opening L; rc_y : @Mat L }.
Record OpenProofCommitment := { com_c : @Commitment L; com_t : list R }.
Record OpenProofVerificationContext := { vc_c1 : @Mat L; vc_t : list R; vc_d : R }.
Record OpenProofChallenge := { ch_d : R }.
Record OpenProofResponse := { resp_z : @Mat L }.

(** [OpenProofProver::commit] *)
Definition commit (ck : @CommitmentKey L) (p : Params) (fuel : nat) (rng : Rng) (xv : list R)
  : res (OpenProofResponseContext * OpenProofCommitment * Rng) :=
  r1 <- Commit.commit ck fuel rng xv p ;;
  let '(opening, cm, rng1) := r1 in
  r2 <- new_with (k p) 1 (normal_gen p) rng1 ;;
  let (yv, rng2) := r2 in
  a1y <- dot (a1 ck) yv ;;
  tv <- one_d_mat_to_vec a1y ;;
  Ok ({| rc_opening := opening; rc_y := yv |}, {| com_c := cm; com_t := tv |}, rng2).

(** [OpenProofProver::create_response] *)
Definition create_response (ctx : OpenProofResponseContext) (ch : OpenProofChallenge)
  : res OpenProofResponse :=
  zv <- add (rc_y ctx) (componentwise_mul (r (rc_opening ctx)) (ch_d ch)) ;;
  Ok {| resp_z := zv |}.

(** [OpenProofVerifier::generate_challenge] *)
Definition generate_challenge (p : Params) (rng : Rng) (com : OpenProofCommitment)
  : res (OpenProofVerificationContext * OpenProofChallenge * Rng) :=
  let (d, rng1) := challenge_poly rng p in
  cc <- c1_c2 (com_c com) p ;;
  let (c1, _) := cc in
  Ok ({| vc_c1 := c1; vc_t := com_t com; vc_d := d |}, {| ch_d := d |}, rng1).

(** [OpenProofVerifier::verify] *)
Definition verify (ck : @CommitmentKey L) (p : Params) (resp : OpenProofResponse)
  (ctx : OpenProofVerificationContext) : res bool :=
  ok <- check_verify_constraint p (resp_z resp) ;;
  if negb ok then Ok false else
  lhs <- dot (a1 ck) (resp_z resp) ;;
  rhs <- add (from_vec (vc_t ctx)) (componentwise_mul (vc_c1 ctx) (vc_d ctx)) ;;
  Ok (mat_eqb lhs rhs).

(** One honest run of the three-message protocol: the response and the
    verdict. *)
Definition run (ck : @CommitmentKey L) (p : Params) (fuel : nat) (rng : Rng) (xv : list R)
  : res (OpenProofResponse * bool) :=
  s1 <- commit ck p fuel rng xv ;;
  let '(rctx, com, rng1) := s1 in
  s2 <- generate_challenge p rng1 com ;;
  let '(vctx, ch, _) := s2 in
  resp <- create_response rctx ch ;;
  ok <- verify ck p resp vctx ;;
  Ok (resp, ok).

End OpenProof.
End Open.

(** ** Proof of Linear Relation (src/prove/linear.rs) *)

Module Linear.
Import Commit.
Section LinearProof.
Context {L : RingLib}.
Local Abbreviation R := (poly L).

Record LinearProofResponseContext :=
  { rc_opening : @Opening L; rc_opening_p : @Opening L; rc_y : @Mat L; rc_yp : @Mat L }.
Record LinearProofCommitment :=
  { com_c : @Commitment L; com_cp : @Commitment L; com_g : R;
    com_t : list R; com_tp : list R; com_u : @Mat L }.
Record LinearProofVerificationContext :=
  { vc_c1 : @Mat L; vc_c2 : @Mat L; vc_c1p : @Mat L; vc_c2p : @Mat L; vc_g : R;
    vc_t : list R; vc_tp : list R; vc_u : @Mat L; vc_d : R }.
Record LinearProofChallenge := { ch_d : R }.
Record LinearProofResponse := { resp_z : @Mat L; resp_zp : @Mat L }.

(** [LinearProofProver::commit] *)
Definition commit (ck : @CommitmentKey L) (p : Params) (fuel : nat) (rng : Rng)
  (g : R) (xv : list R)
  : res (LinearProofResponseContext * LinearProofCommitment * Rng) :=
  let gx := map (fun xi => pmul L xi g) xv in
  r1 <- Commit.commit ck fuel rng gx p ;;
  let '(opening_p, cp, rng1) := r1 in
  r2 <- Commit.commit ck fuel rng1 xv p ;;
  let '(opening, cm, rng2) := r2 in
  r3 <- new_with (k p) 1 (normal_gen p) rng2 ;;
  let (yv, rng3) := r3 in
  r4 <- new_with (k p) 1 (normal_gen p) rng3 ;;
  let (ypv, rng4) := r4 in
  a1y <- dot (a1 ck) yv ;;
  tv <- one_d_mat_to_vec a1y ;;
  a1yp <- dot (a1 ck) ypv ;;
  tpv <- one_d_mat_to_vec a1yp ;;
  a2y <- dot (a2 ck) yv ;;
  a2yp <- dot (a2 ck) ypv ;;
  uv <- sub (componentwise_mul a2y g) a2yp ;;
  Ok ({| rc_opening := opening; rc_opening_p := opening_p; rc_y := yv; rc_yp := ypv |},
      {| com_c := cm; com_cp := cp; com_g := g; com_t := tv; com_tp := tpv; com_u := uv |},
      rng4).

(** [LinearProofProver::create_response] *)
Definition create_response (ctx : LinearProofResponseContext) (ch : LinearProofChallenge)
  : res LinearProofResponse :=
  zv <- add (rc_y ctx) (componentwise_mul (r (rc_opening ctx)) (ch_d ch)) ;;
  zpv <- add (rc_yp ctx) (componentwise_mul (r (rc_opening_p ctx)) (ch_d ch)) ;;
  Ok {| resp_z := zv; resp_zp := zpv |}.

(** [LinearProofVerifier::generate_challenge] *)
Definition generate_challenge (p : Params) (rng : Rng) (com : LinearProofCommitment)
  : res (LinearProofVerificationContext * LinearProofChallenge * Rng) :=
  let (d, rng1) := challenge_poly rng p in
  cc <- c1_c2 (com_c com) p ;;
  let (c1, c2) := cc in
  ccp <- c1_c2 (com_cp com) p ;;
  let (c1p, c2p) := ccp in
  Ok ({| vc_c1 := c1; vc_c2 := c2; vc_c1p := c1p; vc_c2p := c2p; vc_g := com_g com;
         vc_t := com_t com; vc_tp := com_tp com; vc_u := com_u com; vc_d := d |},
      {| ch_d := d |}, rng1).

(** [LinearProofVerifier::verify] *)
Definition verify (ck : @CommitmentKey L) (p : Params) (resp : LinearProofResponse)
  (ctx : LinearProofVerificationContext) : res bool :=
  ok <- check_verify_constraint p (resp_z resp) ;;
  if negb ok then Ok false else
  okp <- check_verify_constraint p (resp_zp resp) ;;
  if negb okp then Ok false else
  (* A1 * z = t + c1 * d *)
  lhs1 <- dot (a1 ck) (resp_z resp) ;;
  rhs1 <- add (from_vec (vc_t ctx)) (componentwise_mul (vc_c1 ctx) (vc_d ctx)) ;;
  if negb (mat_eqb lhs1 rhs1) then Ok false else
  (* A1 * zp = tp + c1p * d *)
  lhs2 <- dot (a1 ck) (resp_zp resp) ;;
  rhs2 <- add (from_vec (vc_tp ctx)) (componentwise_mul (vc_c1p ctx) (vc_d ctx)) ;;
  if negb (mat_eqb lhs2 rhs2) then Ok false else
  (* g * A2 * z - A2 * zp = (g * c2 - c2p) * d + u *)
  a2z <- dot (a2 ck) (resp_z resp) ;;
  a2zp <- dot (a2 ck) (resp_zp resp) ;;
  lhs3 <- sub (componentwise_mul a2z (vc_g ctx)) a2zp ;;
  s <- sub (componentwise_mul (vc_c2 ctx) (vc_g ctx)) (vc_c2p ctx) ;;
  rhs3 <- add (componentwise_mul s (vc_d ctx)) (vc_u ctx) ;;
  Ok (mat_eqb lhs3 rhs3).

Definition run (ck : @CommitmentKey L) (p : Params) (fuel : nat) (rng : Rng)
  (g : R) (xv : list R) : res (LinearProofResponse * bool) :=
  s1 <- commit ck p fuel rng g xv ;;
  let '(rctx, com, rng1) := s1 in
  s2 <- generate_challenge p rng1 com ;;
  let '(vctx, ch, _) := s2 in
  resp <- create_response rctx ch ;;
  ok <- verify ck p resp vctx ;;
  Ok (resp, ok).

End LinearProof.
End Linear.

(** ** Proof of Sum (src/prove/sum.rs) *)

Module Sum.
Import Commit.
Section SumProof.
Context {L : RingLib}.
Local Abbreviation R := (poly L).

Record SumProofResponseContext :=
  { rc_openings : list (@Opening L); rc_opening_p : @Opening L;
    rc_yp : @Mat L; rc_ys : list (@Mat L) }.
Record SumProofCommitment :=
  { com_cp : @Commitment L; com_cs : list (@Commitment L); com_gs : list R;
    com_tp : list R; com_ts : list (list R); com_u : @Mat L }.
Record SumProofVerificationContext :=
  { vc_c1p : @Mat L; vc_c2p : @Mat L; vc_cs : list (@Mat L * @Mat L); vc_gs : list R;
    vc_ts : list (list R); vc_tp : list R; vc_u : @Mat L; vc_d : R }.
Record SumProofChallenge := { ch_d : R }.
Record SumProofResponse := { resp_zp : @Mat L; resp_zs : list (@Mat L) }.

Definition sum_assert_msg : string :=
  "assertion failed: !gs.is_empty() && gs.len() == xs.len()".

(** [xs.into_iter().map(|x| self.ck.commit(rng, x, ..)).unzip()] *)
Fixpoint commit_all (ck : @CommitmentKey L) (p : Params) (fuel : nat) (rng : Rng)
  (xs : list (list R)) : res (list (@Opening L) * list (@Commitment L) * Rng) :=
  match xs with
  | [] => Ok ([], [], rng)
  | xv :: xs' =>
      r1 <- Commit.commit ck fuel rng xv p ;;
      let '(o, cm, rng1) := r1 in
      r2 <- commit_all ck p fuel rng1 xs' ;;
      let '(os, cms, rng2) := r2 in
      Ok (o :: os, cm :: cms, rng2)
  end.

(** [SumProofProver::commit] *)
Definition commit (ck : @CommitmentKey L) (p : Params) (fuel : nat) (rng : Rng)
  (gs : list R) (xs : list (list R))
  : res (SumProofResponseContext * SumProofCommitment * Rng) :=
  _ <- assert (negb (Nat.eqb (length gs) 0) && Nat.eqb (length gs) (length xs)) sum_assert_msg ;;
  (* xp = g_0 * x_0 + g_1 * x_1 + ... *)
  xpm <- reduce_add (fun '(xm, g) => Ok (componentwise_mul xm g))
           (combine (map from_vec xs) gs) ;;
  xp <- one_d_mat_to_vec xpm ;;
  r1 <- Commit.commit ck fuel rng xp p ;;
  let '(opening_p, cp, rng1) := r1 in
  r2 <- commit_all ck p fuel rng1 xs ;;
  let '(openings, cs, rng2) := r2 in
  r3 <- repeat_draw (length gs) (new_with (k p) 1 (normal_gen p)) rng2 ;;
  let (ys, rng3) := r3 in
  r4 <- new_with (k p) 1 (normal_gen p) rng3 ;;
  let (ypv, rng4) := r4 in
  ts <- mapM (fun yv => a1y <- dot (a1 ck) yv ;; one_d_mat_to_vec a1y) ys ;;
  a1yp <- dot (a1 ck) ypv ;;
  tpv <- one_d_mat_to_vec a1yp ;;
  (* u = g_0 * A2 * y_0 + g_1 * A2 * y_1 + ... - A2 * yp *)
  su <- reduce_add (fun '(g, yv) => a2y <- dot (a2 ck) yv ;; Ok (componentwise_mul a2y g))
          (combine gs ys) ;;
  a2yp <- dot (a2 ck) ypv ;;
  uv <- sub su a2yp ;;
  Ok ({| rc_openings := openings; rc_opening_p := opening_p; rc_yp := ypv; rc_ys := ys |},
      {| com_cp := cp; com_cs := cs; com_gs := gs; com_tp := tpv; com_ts := ts; com_u := uv |},
      rng4).

(** [SumProofProver::create_response] *)
Definition create_response (ctx : SumProofResponseContext) (ch : SumProofChallenge)
  : res SumProofResponse :=
  zs <- mapM (fun '(yv, o) => add yv (componentwise_mul (r o) (ch_d ch)))
          (combine (rc_ys ctx) (rc_openings ctx)) ;;
  zpv <- add (rc_yp ctx) (componentwise_mul (r (rc_opening_p ctx)) (ch_d ch)) ;;
  Ok {| resp_zp := zpv; resp_zs := zs |}.

(** [SumProofVerifier::generate_challenge] *)
Definition generate_challenge (p : Params) (rng : Rng) (com : SumProofCommitment)
  : res (SumProofVerificationContext * SumProofChallenge * Rng) :=
  let (d, rng1) := challenge_poly rng p in
  cs <- mapM (fun cm => c1_c2 cm p) (com_cs com) ;;
  ccp <- c1_c2 (com_cp com) p ;;
  let (c1p, c2p) := ccp in
  Ok ({| vc_c1p := c1p; vc_c2p := c2p; vc_cs := cs; vc_gs := com_gs com;
         vc_ts := com_ts com; vc_tp := com_tp com; vc_u := com_u com; vc_d := d |},
      {| ch_d := d |}, rng1).

(** [.iter().all(..)] with a check that may panic *)
Fixpoint allM {A : Type} (f : A -> res bool) (items : list A) : res bool :=
  match items with
  | [] => Ok true
  | a :: t => ok <- f a ;; if ok then allM f t else Ok false
  end.

(** [SumProofVerifier::verify] *)
Definition verify (ck : @CommitmentKey L) (p : Params) (resp : SumProofResponse)
  (ctx : SumProofVerificationContext) : res bool :=
  okzs <- allM (check_verify_constraint p) (resp_zs resp) ;;
  if negb okzs then Ok false else
  okzp <- check_verify_constraint p (resp_zp resp) ;;
  if negb okzp then Ok false else
  (* check lengths *)
  if negb (Nat.eqb (length (resp_zs resp)) (length (vc_ts ctx)))
     && negb (Nat.eqb (length (resp_zs resp)) (length (vc_cs ctx)))
  then Ok false else
  (* A1 * z = t + c1 * d for each z_i *)
  lhs1 <- mapM (fun zv => dot (a1 ck) zv) (resp_zs resp) ;;
  rhs1 <- mapM (fun '((c1, _), tv) => add (from_vec tv) (componentwise_mul c1 (vc_d ctx)))
            (combine (vc_cs ctx) (vc_ts ctx)) ;;
  if negb (list_eqb mat_eqb lhs1 rhs1) then Ok false else
  (* A1 * zp = tp + c1p * d *)
  lhs2 <- dot (a1 ck) (resp_zp resp) ;;
  rhs2 <- add (from_vec (vc_tp ctx)) (componentwise_mul (vc_c1p ctx) (vc_d ctx)) ;;
  if negb (mat_eqb lhs2 rhs2) then Ok false else
  (* g_0 * A2 * z_0 + ... - A2 * zp = (g_0 * c2_0 + ... - c2p) * d + u *)
  s1 <- reduce_add (fun '(zv, g) => a2z <- dot (a2 ck) zv ;; Ok (componentwise_mul a2z g))
          (combine (resp_zs resp) (vc_gs ctx)) ;;
  a2zp <- dot (a2 ck) (resp_zp resp) ;;
  lhs3 <- sub s1 a2zp ;;
  s2 <- reduce_add (fun '((_, c2), g) => Ok (componentwise_mul c2 g))
          (combine (vc_cs ctx) (vc_gs ctx)) ;;
  s3 <- sub s2 (vc_c2p ctx) ;;
  rhs3 <- add (componentwise_mul s3 (vc_d ctx)) (vc_u ctx) ;;
  Ok (mat_eqb lhs3 rhs3).

Definition run (ck : @CommitmentKey L) (p : Params) (fuel : nat) (rng : Rng)
  (gs : list R) (xs : list (list R)) : res (SumProofResponse * bool) :=
  s1 <- commit ck p fuel rng gs xs ;;
  let '(rctx, com, rng1) := s1 in
  s2 <- generate_challenge p rng1 com ;;
  let '(vctx, ch, _) := s2 in
  resp <- create_response rctx ch ;;
  ok <- verify ck p resp vctx ;;
  Ok (resp, ok).

End SumProof.
End Sum.

(** ** The public helpers of src/params.rs *)

Module ParamsApi.
Section Api.
Context {L : RingLib}.

Definition prepare_value_msg : string := "assertion failed: value.len() == self.l".

(** [Params::prepare_value]: [value] of length [l], each integer vector
    wrapped by [Polynomial::from_coeffs] *)
Definition prepare_value (p : Params) (value : list (list Z)) : res (list (poly L)) :=
  _ <- assert (Nat.eqb (length value) (l p)) prepare_value_msg ;;
  Ok (map (from_coeffs L) value).

(** [Params::generate_commitment_key] *)
Definition generate_commitment_key (p : Params) (rng : Rng)
  : res (@Commit.CommitmentKey L * Rng) :=
  Commit.new rng p.

End Api.
End ParamsApi.

(** ** Concrete instances of the ring library

    [Zx N]: [Polynomial<i64, N>], coefficient vectors of length [N] with
    schoolbook multiplication reduced by [X^N = -1]. *)

Module Concrete.

Definition zsum (l : list Z) : Z := fold_left Z.add l 0%Z.

(** [Polynomial::new]: coefficients of degree [>= N] wrap around with a sign
    flip ([X^N = -1]); the result has exactly [N] coefficients. *)
Definition reduce_xnp1 (N : nat) (cs : list Z) : list Z :=
  map (fun j =>
         zsum (map (fun i =>
                      if Nat.eqb (Nat.modulo i N) j then
                        if Nat.even (Nat.div i N) then nth i cs 0%Z else (- nth i cs 0)%Z
                      else 0%Z)
                   (seq 0 (length cs))))
      (seq 0 N).

Definition zip_with (f : Z -> Z -> Z) (p1 p2 : list Z) : list Z :=
  map (fun '(a, c) => f a c) (combine p1 p2).

(** full product of degree [< 2N - 1], then reduction *)
Definition poly_mul (N : nat) (p1 p2 : list Z) : list Z :=
  reduce_xnp1 N
    (map (fun s =>
            zsum (map (fun i => (nth i p1 0 * nth (s - i) p2 0)%Z) (seq 0 (S s))))
         (seq 0 (2 * N - 1))).

Definition Zx (N : nat) : RingLib := {|
  poly := list Z;
  pzero := repeat 0%Z N;
  pone := reduce_xnp1 N [1%Z];
  padd := zip_with Z.add;
  psub := zip_with Z.sub;
  pmul := poly_mul N;
  pneg := map Z.opp;
  peqb := list_eqb Z.eqb;
  coeffs := fun p => p;
  from_coeffs := reduce_xnp1 N;
  degN := N
|}.

(** [N = 1]: [Z[X]/(X + 1)] is [Z] itself; its ring laws are those of [Z]. *)
Definition Z1 : RingLib := {|
  poly := Z;
  pzero := 0%Z;
  pone := 1%Z;
  padd := Z.add;
  psub := Z.sub;
  pmul := Z.mul;
  pneg := Z.opp;
  peqb := Z.eqb;
  coeffs := fun z => [z];
  from_coeffs := fun cs => zsum (map (fun i => if Nat.even i then nth i cs 0%Z else (- nth i cs 0)%Z)
                                      (seq 0 (length cs)));
  degN := 1
|}.

End Concrete.

(** ** Concrete inputs

    The ring [Z[X]/(X^4+1)] with [Params::default()], a commitment key drawn
    by [CommitmentKey::new] from a fixed tape, and the messages the crate's
    tests use in shape. *)

Module Inputs.
Import Concrete.

Definition L4 : RingLib := Zx 4.

Definition ck_tape : Rng := map Z.of_nat (seq 100 12).

Definition ck4 : @Commit.CommitmentKey L4 :=
  match Commit.new ck_tape default_params with
  | Ok (ck, _) => ck
  | _ => {| Commit.a1 := []; Commit.a2 := [] |}
  end.

(** the same key drawn over the scalar ring [Z1] ([N = 1]) *)
Definition ck1 : @Commit.CommitmentKey Z1 :=
  match Commit.new ck_tape default_params with
  | Ok (ck, _) => ck
  | _ => {| Commit.a1 := []; Commit.a2 := [] |}
  end.

Definition run_tape : Rng := map Z.of_nat (seq 0 40).

Definition zero4 : list Z := [0; 0; 0; 0]%Z.

Definition x4 : list (list Z) := [[1; 2; 3; 4]%Z].

Definition gs4 : list (list Z) := [[5; 6; 0; 0]; [7; 8; 0; 0]]%Z.

Definition xs4 : list (list (list Z)) := [[[1; 2; 3; 4]]; [[5; 6; 7; 8]]]%Z.

(** the tape of an honest Open run whose first Gaussian draw for [y] is
    [5000] (after the twelve words drawn for [r]); with [sigma = 1188] at
    [N = 4] this is a draw of about 4.2 sigma, which a normal sampler yields *)
Definition big_y_tape : Rng := map Z.of_nat (seq 0 12) ++ [5000%Z] ++ map Z.of_nat (seq 0 30).

(** the verifier's state after an honest Sum run: the prover's response and
    the verification context *)
Definition sum_stage : option (@Sum.SumProofResponse L4 * @Sum.SumProofVerificationContext L4) :=
  match Sum.commit ck4 default_params 3 run_tape gs4 xs4 with
  | Ok (rctx, com, rng1) =>
      match Sum.generate_challenge default_params rng1 com with
      | Ok (vctx, ch, _) =>
          match Sum.create_response rctx ch with
          | Ok resp => Some (resp, vctx)
          | _ => None
          end
      | _ => None
      end
  | _ => None
  end.

(** the same context with one more [t] appended to [ts] *)
Definition extra_t (ctx : @Sum.SumProofVerificationContext L4) (t : list (list Z))
  : @Sum.SumProofVerificationContext L4 :=
  {| Sum.vc_c1p := Sum.vc_c1p ctx; Sum.vc_c2p := Sum.vc_c2p ctx; Sum.vc_cs := Sum.vc_cs ctx;
     Sum.vc_gs := Sum.vc_gs ctx; Sum.vc_ts := Sum.vc_ts ctx ++ [t];
     Sum.vc_tp := Sum.vc_tp ctx; Sum.vc_u := Sum.vc_u ctx; Sum.vc_d := Sum.vc_d ctx |}.

(** the lengths [|zs|], [|cs|], [|ts|] and the verdict when the verifier of
    that run is handed the context with one more [t] *)
Definition sum_extra_t_outcome : option (nat * nat * nat * res bool) :=
  match sum_stage with
  | Some (resp, vctx) =>
      let ctx' := extra_t vctx [zero4] in
      Some (length (Sum.resp_zs resp), length (Sum.vc_cs ctx'), length (Sum.vc_ts ctx'),
            Sum.verify ck4 default_params resp ctx')
  | None => None
  end.

(** a Sum response with no [z_i] and a context with no [c_i], [t_i], [g_i] *)
Definition empty_sum_resp : @Sum.SumProofResponse L4 :=
  {| Sum.resp_zp := @from_element L4 3 1 zero4; Sum.resp_zs := [] |}.

Definition empty_sum_ctx : @Sum.SumProofVerificationContext L4 :=
  @Sum.Build_SumProofVerificationContext L4
    (* c1p *) [[zero4]] (* c2p *) [[zero4]] (* cs *) [] (* gs *) []
    (* ts *) [] (* tp *) [zero4] (* u *) [[zero4]] (* d *) zero4.

(** small matrices over [Z1] and parameter sets off the default: [k < n + l],
    [n = 0], and a negative [b] *)
Definition m12 : @Mat Concrete.Z1 := [[1; 2]]%Z.
Definition m34 : @Mat Concrete.Z1 := [[3; 4]]%Z.
Definition c34 : @Mat Concrete.Z1 := [[3]; [4]]%Z.
Definition c56 : @Mat Concrete.Z1 := [[5]; [6]]%Z.
Definition m7 : @Mat Concrete.Z1 := [[7]]%Z.
Definition v34 : list (poly Concrete.Z1) := [3; 4]%Z.
Definition c12 : @Mat Concrete.Z1 := [[1]; [2]]%Z.
Definition r010 : @Mat Concrete.Z1 := [[0]; [1]; [0]]%Z.
Definition p_short_k : Params := {| q := 5; b := 1; n := 1; k := 1; l := 1; kappa := 1 |}.
Definition p_no_n : Params := {| q := 5; b := 1; n := 0; k := 2; l := 1; kappa := 1 |}.
Definition p_neg_b : Params := {| q := 5; b := -1; n := 1; k := 3; l := 1; kappa := 1 |}.

End Inputs.

(** ** Matrices as functions of their indices

    [mk m n f] is the [m x n] matrix with entries [f i j]; the proofs of
    completeness read every matrix the protocols build in this form. *)

Section Shapes.
Context {L : RingLib}.

Definition mk (m n : nat) (f : nat -> nat -> poly L) : @Mat L :=
  map (fun i => map (fun j => f i j) (seq 0 n)) (seq 0 m).

Definition entry (a : @Mat L) (i j : nat) : poly L := nth j (nth i a []) (pzero L).

Definition shaped (m n : nat) (a : @Mat L) : Prop :=
  length a = m /\ Forall (fun row => length row = n) a.

(** [sum_{i in [s, s+m)} h i], folded from the right *)
Definition isum_from (s m : nat) (h : nat -> poly L) : poly L :=
  fold_right (fun i acc => padd L (h i) acc) (pzero L) (seq s m).

Definition isum (m : nat) (h : nat -> poly L) : poly L := isum_from 0 m h.

(** the accumulation of [Mat::dot]: [((0 + h 0) + h 1) + ...] *)
Definition lsum (m : nat) (h : nat -> poly L) : poly L :=
  fold_left (fun acc kk => padd L acc (h kk)) (seq 0 m) (pzero L).

End Shapes.

(** * Proofs *)

(** ** The challenge sampler *)

Module ChallengeFacts.
Import Challenge Norms.

Definition pm1 (c : Z) : Prop := c = 1%Z \/ c = (-1)%Z.

Lemma list_set_length (l0 : list Z) (i : nat) (v : Z) :
  length (list_set l0 i v) = length l0.
Proof.
  revert i; induction l0 as [|h t IH]; intros [|i]; simpl; auto.
Qed.

Lemma swap_length (l0 : list Z) (i j : nat) : length (swap l0 i j) = length l0.
Proof. unfold swap. rewrite !list_set_length. reflexivity. Qed.

(** moving the [j]-th element to the front *)
Lemma perm_to_front (h : Z) (t : list Z) (j : nat) :
  (j < length t)%nat -> Permutation (h :: t) (nth j t 0%Z :: list_set t j h).
Proof.
  revert j; induction t as [|t0 t' IH]; intros j Hj; simpl in Hj; [lia|].
  destruct j as [|j]; simpl.
  - apply perm_swap.
  - assert (Hj' : (j < length t')%nat) by lia.
    eapply perm_trans; [apply perm_swap|].
    eapply perm_trans; [apply perm_skip, (IH j Hj')|].
    apply perm_swap.
Qed.

Lemma list_set_nth_same (l0 : list Z) (i : nat) : list_set l0 i (nth i l0 0%Z) = l0.
Proof.
  revert i; induction l0 as [|h t IH]; intros [|i]; simpl; f_equal; auto.
Qed.

Lemma swap_perm (l0 : list Z) (i j : nat) :
  (i < length l0)%nat -> (j < length l0)%nat -> Permutation l0 (swap l0 i j).
Proof.
  revert i j; induction l0 as [|h t IH]; intros i j Hi Hj; simpl in *; [lia|].
  unfold swap; destruct i as [|i], j as [|j]; simpl.
  - apply Permutation_refl.
  - apply perm_to_front; lia.
  - apply perm_to_front; lia.
  - apply perm_skip. apply (IH i j); lia.
Qed.

Lemma gen_index_lt (rng : Rng) (ub : nat) :
  (0 < ub)%nat -> (fst (gen_index rng ub) < ub)%nat.
Proof.
  intros Hub; unfold gen_index; destruct (next_word rng) as [w rng']; simpl.
  pose proof (Z.mod_pos_bound w (Z.of_nat ub)) as Hm.
  assert (0 < Z.of_nat ub)%Z by lia. specialize (Hm H). lia.
Qed.

Lemma shuffle_from_perm (cnt i : nat) (l0 : list Z) (rng : Rng) :
  (i + cnt <= length l0)%nat -> Permutation l0 (fst (shuffle_from i cnt l0 rng)).
Proof.
  revert i l0 rng; induction cnt as [|cnt IH]; intros i l0 rng Hle; simpl.
  - apply Permutation_refl.
  - pose proof (gen_index_lt rng (S i) ltac:(lia)) as Hj.
    destruct (gen_index rng (S i)) as [j rng1] eqn:E; simpl in Hj.
    apply perm_trans with (swap l0 i j); [apply swap_perm; lia|].
    apply IH. rewrite swap_length. lia.
Qed.

Lemma shuffle_perm (l0 : list Z) (rng : Rng) : Permutation l0 (fst (shuffle l0 rng)).
Proof.
  unfold shuffle. destruct (length l0 <=? 1)%nat.
  - apply Permutation_refl.
  - apply shuffle_from_perm. lia.
Qed.

(** the first [min kappa N] slots get a sign, the others stay [0] *)
Lemma fill_signs_repeat (N kappa0 : nat) (rng : Rng) :
  exists signs,
    fst (fill_signs (repeat 0%Z N) kappa0 rng) = signs ++ repeat 0%Z (N - kappa0)
    /\ length signs = Nat.min kappa0 N /\ Forall pm1 signs.
Proof.
  revert kappa0 rng; induction N as [|N IH]; intros kappa0 rng.
  - exists []. destruct kappa0; simpl; auto.
  - destruct kappa0 as [|kappa0]; simpl.
    + exists []. simpl. auto.
    + destruct (random_bool_half rng) as [bit rng1].
      destruct (IH kappa0 rng1) as [signs [E [Hl Hf]]].
      destruct (fill_signs (repeat 0%Z N) kappa0 rng1) as [rest rng2] eqn:Ef.
      simpl in E. subst rest.
      exists ((if bit then 1 else 0 - 1)%Z :: signs). simpl. repeat split; auto.
      constructor; auto. destruct bit; unfold pm1; simpl; auto.
Qed.

Lemma challenge_perm (N kappa0 : nat) (rng : Rng) :
  exists signs,
    Permutation (signs ++ repeat 0%Z (N - kappa0))
      (fst (random_polynomial_from_challenge_set N rng kappa0))
    /\ length signs = Nat.min kappa0 N /\ Forall pm1 signs.
Proof.
  unfold random_polynomial_from_challenge_set.
  destruct (fill_signs_repeat N kappa0 rng) as [signs [E [Hl Hf]]].
  destruct (fill_signs (repeat 0%Z N) kappa0 rng) as [cs rng1] eqn:Ef. simpl in E.
  exists signs. split; [|auto]. subst cs. apply shuffle_perm.
Qed.

Lemma perm_filter_length (f0 : Z -> bool) (l1 l2 : list Z) :
  Permutation l1 l2 -> length (filter f0 l1) = length (filter f0 l2).
Proof.
  induction 1; simpl; auto.
  - destruct (f0 x); simpl; auto.
  - destruct (f0 x), (f0 y); simpl; auto.
  - congruence.
Qed.

Lemma fold_add_acc (g : Z -> Z) (l0 : list Z) (acc : Z) :
  fold_left (fun a c => (a + g c)%Z) l0 acc
  = (acc + fold_left (fun a c => (a + g c)%Z) l0 0)%Z.
Proof.
  revert acc; induction l0 as [|h t IH]; intros acc; simpl.
  - lia.
  - rewrite (IH (acc + g h)%Z), (IH (g h)). lia.
Qed.

Lemma norm_1_acc (l0 : list Z) (acc : Z) :
  fold_left (fun a c => (a + Z.abs c)%Z) l0 acc = (acc + norm_1 l0)%Z.
Proof. apply (fold_add_acc Z.abs). Qed.

Lemma norm_1_cons (h : Z) (t : list Z) : norm_1 (h :: t) = (Z.abs h + norm_1 t)%Z.
Proof. unfold norm_1 at 1; simpl. rewrite norm_1_acc. lia. Qed.

Lemma norm_1_app (l1 l2 : list Z) : norm_1 (l1 ++ l2) = (norm_1 l1 + norm_1 l2)%Z.
Proof.
  induction l1 as [|h t IH]; simpl.
  - reflexivity.
  - rewrite !norm_1_cons, IH. lia.
Qed.

Lemma norm_1_perm (l1 l2 : list Z) : Permutation l1 l2 -> norm_1 l1 = norm_1 l2.
Proof.
  induction 1; rewrite ?norm_1_cons; try lia.
Qed.

Lemma norm_1_repeat0 (m : nat) : norm_1 (repeat 0%Z m) = 0%Z.
Proof. induction m; simpl; [reflexivity|]. rewrite norm_1_cons. simpl. lia. Qed.

Lemma norm_1_signs (signs : list Z) :
  Forall pm1 signs -> norm_1 signs = Z.of_nat (length signs).
Proof.
  induction 1 as [|h t Hh Ht IH]; [reflexivity|].
  rewrite norm_1_cons, IH, length_cons, Nat2Z.inj_succ. destruct Hh as [-> | ->]; lia.
Qed.

Lemma fold_max_le (t : list Z) (h : Z) :
  (h <= 1)%Z -> Forall (fun c => c <= 1)%Z t -> (fold_left Z.max t h <= 1)%Z.
Proof.
  revert h; induction t as [|a t IH]; intros h Hh Ht; simpl; auto.
  inversion Ht; subst. apply IH; auto. lia.
Qed.

Lemma fold_max_ge (t : list Z) (h : Z) : (h <= fold_left Z.max t h)%Z.
Proof.
  revert h; induction t as [|a t IH]; intros h; simpl; [lia|].
  specialize (IH (Z.max h a)). lia.
Qed.

Lemma fold_max_in (t : list Z) (h c : Z) : In c t -> (c <= fold_left Z.max t h)%Z.
Proof.
  revert h; induction t as [|a t IH]; intros h Hin; simpl in *; [contradiction|].
  destruct Hin as [->|Hin].
  - pose proof (fold_max_ge t (Z.max h c)). lia.
  - auto.
Qed.

(** [norm_infinity] of a non-empty vector with entries in [[-1, 1]] one of
    which is [+-1] *)
Lemma norm_infinity_one (cs : list Z) :
  Forall (fun c => -1 <= c <= 1)%Z cs -> (exists c, In c cs /\ pm1 c) ->
  norm_infinity cs = Ok 1%Z.
Proof.
  intros Hall [c0 [Hin Hc0]]. unfold norm_infinity.
  destruct cs as [|h t]; [contradiction|]. simpl. f_equal.
  apply Forall_cons_iff in Hall as [Hh Ht].
  apply Z.le_antisymm.
  - apply fold_max_le; [lia|].
    rewrite Forall_forall in *. intros a Ha. apply in_map_iff in Ha as [a' [<- Ha']].
    specialize (Ht a' Ha'). lia.
  - destruct Hin as [->|Hin].
    + pose proof (fold_max_ge (map Z.abs t) (Z.abs c0)). destruct Hc0; subst; simpl in *; lia.
    + pose proof (fold_max_in (map Z.abs t) (Z.abs h) (Z.abs c0) (in_map _ _ _ Hin)).
      destruct Hc0; subst; simpl in *; lia.
Qed.

Lemma challenge_entries (N kappa0 : nat) (rng : Rng) :
  Forall (fun c => -1 <= c <= 1)%Z (fst (random_polynomial_from_challenge_set N rng kappa0))
  /\ length (fst (random_polynomial_from_challenge_set N rng kappa0)) = N.
Proof.
  destruct (challenge_perm N kappa0 rng) as [signs [HP [Hl Hf]]].
  split.
  - eapply Permutation_Forall; [exact HP|].
    apply Forall_app; split.
    + eapply Forall_impl; [|exact Hf]. intros a [-> | ->]; lia.
    + apply Forall_forall. intros a Ha. apply repeat_spec in Ha. lia.
  - rewrite <- (Permutation_length HP), length_app, repeat_length. lia.
Qed.

End ChallengeFacts.

Module ChallengeCounts.
Import Challenge Norms ChallengeFacts.

Lemma filter_signs (signs : list Z) :
  Forall pm1 signs ->
  length (filter (fun c => Z.abs c =? 1)%Z signs) = length signs
  /\ filter (fun c => c =? 0)%Z signs = [].
Proof.
  induction 1 as [|h t Hh Ht [IH1 IH2]]; simpl; auto.
  destruct Hh as [-> | ->]; simpl; auto.
Qed.

Lemma filter_zeros (m : nat) :
  filter (fun c => Z.abs c =? 1)%Z (repeat 0%Z m) = []
  /\ length (filter (fun c => c =? 0)%Z (repeat 0%Z m)) = m.
Proof. induction m as [|m [IH1 IH2]]; simpl; auto. Qed.

End ChallengeCounts.

(** ** Arithmetic of [standard_deviation] *)

Lemma usize_mul_ok (x y s : Z) :
  usize_mul x y = Ok s <-> (x * y <= usize_max /\ s = x * y)%Z.
Proof.
  unfold usize_mul. destruct (Z.leb_spec (x * y) usize_max) as [H|H]; split.
  - intros E; inversion E; auto.
  - intros [_ ->]; reflexivity.
  - discriminate.
  - lia.
Qed.

Lemma to_usize_ok (x s : Z) : to_usize x = Ok s <-> (0 <= x <= usize_max /\ s = x)%Z.
Proof.
  unfold to_usize. destruct (Z.leb_spec 0 x), (Z.leb_spec x usize_max); simpl; split;
    try discriminate; try lia.
  - intros E; inversion E; lia.
  - intros [_ ->]; reflexivity.
Qed.

Lemma bind_ok {A B : Type} (m : res A) (g : A -> res B) (v : B) :
  bind m g = Ok v <-> exists a, m = Ok a /\ g a = Ok v.
Proof.
  destruct m as [a|s|]; simpl; split.
  - intros H; exists a; auto.
  - intros [a' [E H]]; inversion E; subst; auto.
  - discriminate.
  - intros [a' [E _]]; discriminate.
  - discriminate.
  - intros [a' [E _]]; discriminate.
Qed.

Module DifferenceFacts.
Import Challenge ChallengeFacts.

Lemma poly_sub_cons (a c : Z) (t1 t2 : list Z) :
  poly_sub (a :: t1) (c :: t2) = ((a - c)%Z :: poly_sub t1 t2).
Proof. reflexivity. Qed.

Lemma poly_sub_range (c1 c2 : list Z) :
  Forall (fun c => -1 <= c <= 1)%Z c1 -> Forall (fun c => -1 <= c <= 1)%Z c2 ->
  Forall (fun c => -2 <= c <= 2)%Z (poly_sub c1 c2).
Proof.
  intros H1; revert c2; induction H1 as [|a t1 Ha Ht1 IH]; intros c2 H2.
  - constructor.
  - destruct H2 as [|c t2 Hc Ht2]; [constructor|].
    rewrite poly_sub_cons. constructor; [lia|auto].
Qed.

Lemma poly_sub_nonzero (c1 c2 : list Z) :
  length c1 = length c2 -> c1 <> c2 ->
  existsb (fun c => negb (c =? 0)%Z) (poly_sub c1 c2) = true.
Proof.
  revert c2; induction c1 as [|a t1 IH]; intros c2 Hl Hne.
  - destruct c2; [contradiction|discriminate].
  - destruct c2 as [|c t2]; [discriminate|].
    rewrite poly_sub_cons. simpl.
    destruct (Z.eqb_spec (a - c) 0) as [E|E]; simpl.
    + apply IH; [simpl in Hl; lia|]. intros ->. apply Hne. f_equal. lia.
    + reflexivity.
Qed.

Lemma poly_eqb_false (c1 c2 : list Z) : poly_eqb c1 c2 = false -> c1 <> c2.
Proof. unfold poly_eqb. destruct (list_eq_dec Z.eq_dec c1 c2); congruence. Qed.

Lemma difference_loop_ok (fuel N kappa0 : nat) (c1 : list Z) (rng rng' : Rng) (d : list Z) :
  difference_loop fuel N c1 rng kappa0 = Ok (d, rng') ->
  exists rng0, let c2 := fst (random_polynomial_from_challenge_set N rng0 kappa0) in
    c1 <> c2 /\ d = poly_sub c1 c2.
Proof.
  revert rng; induction fuel as [|fuel IH]; intros rng E; simpl in E; [discriminate|].
  destruct (random_polynomial_from_challenge_set N rng kappa0) as [c2 rng1] eqn:Ec.
  destruct (poly_eqb c1 c2) eqn:Eq; simpl in E.
  - exact (IH rng1 E).
  - inversion E; subst. exists rng. rewrite Ec. simpl.
    split; [apply poly_eqb_false; exact Eq|reflexivity].
Qed.

End DifferenceFacts.

(** ** Running the monad *)

(** [inv_bind H] splits [H : bind m k = Ok v] on the outcome of [m]: the
    failing outcomes are refuted and the value of [m] is named. *)
Ltac inv_bind H :=
  match type of H with
  | bind ?m _ = Ok _ =>
      let E := fresh "E" in
      revert H; case_eq m;
      [ intros ? E H; cbn [bind] in H
      | intros ? E H; cbn [bind] in H; discriminate H
      | intros E H; cbn [bind] in H; discriminate H ]
  end.

Lemma list_eqb_refl {A : Type} (eqb : A -> A -> bool) (l0 : list A) :
  (forall a, eqb a a = true) -> list_eqb eqb l0 l0 = true.
Proof. intros Hr. induction l0 as [|a t IH]; simpl; [reflexivity|]. rewrite Hr, IH. reflexivity. Qed.

Lemma forallb_false {A : Type} (f0 : A -> bool) (l0 : list A) (a : A) :
  In a l0 -> f0 a = false -> forallb f0 l0 = false.
Proof.
  intros Hin Hf. destruct (forallb f0 l0) eqn:E; [|reflexivity].
  rewrite forallb_forall in E. rewrite (E a Hin) in Hf. discriminate.
Qed.

(** ** The commitment scheme *)

Module CommitFacts.
Import Commit.
Section Facts.
Context {L : RingLib}.

Lemma mat_eqb_refl (a : @Mat L) : (forall e, peqb L e e = true) -> mat_eqb a a = true.
Proof. intros Hr. apply list_eqb_refl. intros row. apply list_eqb_refl. exact Hr. Qed.

(** the loop of [commit] exits only with an [r] meeting [CommitConstraint] *)
Lemma sample_r_ok (fuel : nat) (p : Params) (rng rng1 : Rng) (rv : @Mat L) :
  sample_r fuel p rng = Ok (rv, rng1) -> check_commit_constraint p rv = Ok true.
Proof.
  revert rng; induction fuel as [|fuel IH]; intros rng H; simpl in H; [discriminate|].
  inv_bind H. destruct p0 as [tmp rng2].
  inv_bind H. destruct b0.
  - inversion H; subst. exact E0.
  - exact (IH _ H).
Qed.

(** an entry of [a] whose [norm_2] exceeds the bound makes the constraint fail *)
Lemma verify_constraint_false (p : Params) (a : @Mat L) (bound : Z) :
  verify_bound p (degN L) = Ok bound ->
  (exists row, In row a /\ exists e, In e row /\ bound < Norms.norm_2 (coeffs L e))%Z ->
  check_verify_constraint p a = Ok false.
Proof.
  intros Hb [row [Hrow [e [He Hlt]]]].
  unfold check_verify_constraint. rewrite Hb. cbn [bind]. f_equal.
  unfold entries_within. apply (forallb_false _ _ row Hrow).
  apply (forallb_false _ _ e He). apply Z.leb_gt. exact Hlt.
Qed.

Lemma verify_constraint_ok (p : Params) (a : @Mat L) (bound : Z) :
  verify_bound p (degN L) = Ok bound ->
  check_verify_constraint p a = Ok (entries_within a bound).
Proof. intros Hb. unfold check_verify_constraint. rewrite Hb. reflexivity. Qed.

Lemma allM_false (p : Params) (zs : list (@Mat L)) (z : @Mat L) (bound : Z) :
  verify_bound p (degN L) = Ok bound -> In z zs ->
  check_verify_constraint p z = Ok false ->
  Sum.allM (check_verify_constraint p) zs = Ok false.
Proof.
  intros Hb. induction zs as [|z0 t IH]; intros Hin Hz; [contradiction|].
  simpl. destruct Hin as [->|Hin].
  - rewrite Hz. reflexivity.
  - rewrite (verify_constraint_ok p z0 bound Hb). cbn [bind].
    destruct (entries_within z0 bound); [exact (IH Hin Hz)|reflexivity].
Qed.

End Facts.
End CommitFacts.

(** ** Which panics a computation can raise *)

Module Outcomes.

(** [res_ok P D r]: [r] returns, or panics with a message satisfying [P], or
    (only if [D]) has not exited. *)
Definition res_ok {A : Type} (P : string -> Prop) (D : Prop) (r : res A) : Prop :=
  match r with
  | Ok _ => True
  | Panic s => P s
  | Diverge => D
  end.

(** the messages of the matrix, sampling and [usize] code *)
Definition lib_msgs (P : string -> Prop) : Prop :=
  P "index out of bounds"%string /\ P "assertion `left == right` failed"%string
  /\ P "attempt to multiply with overflow"%string /\ P "attempt to subtract with overflow"%string
  /\ P "called `Option::unwrap()` on a `None` value"%string /\ P "cannot sample empty range"%string.

Definition not_len_msg (s : string) : Prop := s <> Commit.commit_len_msg.

Lemma lib_msgs_any : lib_msgs (fun _ => True).
Proof. repeat split. Qed.

Lemma lib_msgs_not_len : lib_msgs not_len_msg.
Proof. unfold lib_msgs, not_len_msg, Commit.commit_len_msg. repeat split; discriminate. Qed.

Section Rules.
Variable P : string -> Prop.
Variable D : Prop.
Hypothesis HP : lib_msgs P.

Lemma res_ok_bind {A B : Type} (m : res A) (g : A -> res B) :
  res_ok P D m -> (forall a, m = Ok a -> res_ok P D (g a)) -> res_ok P D (bind m g).
Proof. destruct m; simpl; auto. Qed.

Lemma res_ok_mapM {A B : Type} (g : A -> res B) (l0 : list A) :
  (forall a, In a l0 -> res_ok P D (g a)) -> res_ok P D (mapM g l0).
Proof.
  induction l0 as [|a t IH]; intros H; simpl; [exact I|].
  apply res_ok_bind; [apply H; left; reflexivity|]. intros b _.
  apply res_ok_bind; [apply IH; intros; apply H; right; assumption|]. intros; exact I.
Qed.

Lemma res_ok_foldM {A B : Type} (g : B -> A -> res B) (l0 : list A) (acc : B) :
  (forall b a, In a l0 -> res_ok P D (g b a)) -> res_ok P D (foldM g l0 acc).
Proof.
  revert acc; induction l0 as [|a t IH]; intros acc H; simpl; [exact I|].
  apply res_ok_bind; [apply H; left; reflexivity|]. intros b _.
  apply IH. intros; apply H; right; assumption.
Qed.

Lemma res_ok_repeat_draw {A : Type} (cnt : nat) (gen : Rng -> res (A * Rng)) (rng : Rng) :
  (forall r, res_ok P D (gen r)) -> res_ok P D (repeat_draw cnt gen rng).
Proof.
  revert rng; induction cnt as [|cnt IH]; intros rng H; simpl; [exact I|].
  apply res_ok_bind; [apply H|]. intros [a rng1] _.
  apply res_ok_bind; [apply IH, H|]. intros [rest rng2] _. exact I.
Qed.

Lemma res_ok_assert (c : bool) : res_ok P D (assert c "assertion `left == right` failed"%string).
Proof. destruct c; simpl; [exact I|apply HP]. Qed.

Lemma res_ok_usize_mul (a c : Z) : res_ok P D (usize_mul a c).
Proof. unfold usize_mul. destruct (_ <=? _)%Z; simpl; [exact I|apply HP]. Qed.

Lemma res_ok_usize_sub (a c : nat) : res_ok P D (usize_sub a c).
Proof. unfold usize_sub. destruct (_ <=? _)%nat; simpl; [exact I|apply HP]. Qed.

Lemma res_ok_standard_deviation (p : Params) (N : nat) : res_ok P D (standard_deviation p N).
Proof.
  unfold standard_deviation, to_usize.
  apply res_ok_bind; [destruct (_ && _); simpl; [exact I|apply HP]|]. intros bu _.
  repeat (apply res_ok_bind; [apply res_ok_usize_mul|]; intros ? _).
  apply res_ok_usize_mul.
Qed.

Lemma res_ok_commit_bound (p : Params) (N : nat) : res_ok P D (commit_bound p N).
Proof.
  unfold commit_bound. apply res_ok_bind; [apply res_ok_standard_deviation|]. intros ? _.
  apply res_ok_bind; [apply res_ok_usize_mul|]. intros ? _. apply res_ok_usize_mul.
Qed.

Section Ring.
Context {L : RingLib}.

Lemma res_ok_get (a : @Mat L) (i j : nat) : res_ok P D (get a i j).
Proof.
  unfold get. destruct (nth_error a i) as [row|]; [destruct (nth_error row j)|]; simpl;
    try exact I; apply HP.
Qed.

Lemma res_ok_dot (a o : @Mat L) : res_ok P D (dot a o).
Proof.
  unfold dot. destruct (dim a) as [m1 n1], (dim o) as [n2 p2].
  apply res_ok_bind; [apply res_ok_assert|]. intros _ _.
  apply res_ok_mapM. intros i _. apply res_ok_mapM. intros j _.
  apply res_ok_foldM. intros acc kk _.
  apply res_ok_bind; [apply res_ok_get|]. intros ? _.
  apply res_ok_bind; [apply res_ok_get|]. intros ? _. exact I.
Qed.

Lemma res_ok_add (a o : @Mat L) : res_ok P D (add a o).
Proof.
  unfold add. destruct (dim a) as [m1 n1], (dim o) as [m2 n2].
  apply res_ok_bind; [apply res_ok_assert|]. intros _ _.
  apply res_ok_bind; [apply res_ok_assert|]. intros _ _.
  apply res_ok_mapM. intros i _. apply res_ok_mapM. intros j _.
  apply res_ok_bind; [apply res_ok_get|]. intros ? _.
  apply res_ok_bind; [apply res_ok_get|]. intros ? _. exact I.
Qed.

Lemma res_ok_sub (a o : @Mat L) : res_ok P D (sub a o).
Proof.
  unfold sub. destruct (dim a) as [m1 n1], (dim o) as [m2 n2].
  apply res_ok_bind; [apply res_ok_assert|]. intros _ _.
  apply res_ok_bind; [apply res_ok_assert|]. intros _ _.
  apply res_ok_mapM. intros i _. apply res_ok_mapM. intros j _.
  apply res_ok_bind; [apply res_ok_get|]. intros ? _.
  apply res_ok_bind; [apply res_ok_get|]. intros ? _. exact I.
Qed.

Lemma res_ok_extend_rows (a o : @Mat L) : res_ok P D (extend_rows a o).
Proof.
  unfold extend_rows. destruct (dim a) as [m1 n1], (dim o) as [m2 n2].
  apply res_ok_bind; [apply res_ok_assert|]. intros _ _. exact I.
Qed.

Lemma res_ok_one_d (a : @Mat L) : res_ok P D (one_d_mat_to_vec a).
Proof.
  unfold one_d_mat_to_vec. apply res_ok_mapM. intros row _.
  destruct row; simpl; [apply HP|exact I].
Qed.

Lemma res_ok_reduce_add {A : Type} (g : A -> res (@Mat L)) (items : list A) :
  P "called `Option::unwrap()` on a `None` value"%string ->
  (forall a, res_ok P D (g a)) -> res_ok P D (reduce_add g items).
Proof.
  intros Hnone Hg. unfold reduce_add. destruct items as [|h t]; [exact Hnone|].
  apply res_ok_bind; [apply Hg|]. intros m0 _.
  apply res_ok_foldM. intros acc a _.
  apply res_ok_bind; [apply Hg|]. intros ? _. apply res_ok_add.
Qed.

Lemma res_ok_normal_gen (p : Params) (rng : Rng) : res_ok P D (@normal_gen L p rng).
Proof.
  unfold normal_gen. apply res_ok_bind; [apply res_ok_standard_deviation|]. intros ? _. exact I.
Qed.

Lemma res_ok_within (rng : Rng) (bound : Z) :
  res_ok P D (@random_polynomial_within L rng bound).
Proof.
  unfold random_polynomial_within.
  apply res_ok_bind.
  - apply res_ok_repeat_draw. intros r. unfold random_range_incl.
    destruct (_ <? _)%Z; simpl; [apply HP|]. destruct (next_word r); exact I.
  - intros [cs rng1] _. exact I.
Qed.

Lemma res_ok_new_with (m1 n1 : nat) (gen : Rng -> res (poly L * Rng)) (rng : Rng) :
  (forall r, res_ok P D (gen r)) -> res_ok P D (new_with m1 n1 gen rng).
Proof.
  intros Hg. unfold new_with. apply res_ok_repeat_draw. intros r.
  apply res_ok_repeat_draw. exact Hg.
Qed.

Lemma res_ok_sample_r (fuel : nat) (p : Params) (rng : Rng) :
  D -> res_ok P D (@Commit.sample_r L fuel p rng).
Proof.
  intros HD. revert rng; induction fuel as [|fuel IH]; intros rng; simpl; [exact HD|].
  apply res_ok_bind.
  - apply res_ok_new_with. intros r. apply res_ok_within.
  - intros [tmp rng1] _. apply res_ok_bind.
    + unfold check_commit_constraint. apply res_ok_bind; [apply res_ok_commit_bound|].
      intros ? _. exact I.
    + intros ok _. destruct ok; [exact I|apply IH].
Qed.

(** [CommitmentKey::commit] on a message of length [l]: no panic other than
    those of the libraries *)
Lemma res_ok_commit (ck : @Commit.CommitmentKey L) (fuel : nat) (rng : Rng)
  (xv : list (poly L)) (p : Params) :
  D -> length xv = l p -> res_ok P D (Commit.commit ck fuel rng xv p).
Proof.
  intros HD Hl. unfold Commit.commit.
  rewrite Hl, Nat.eqb_refl. cbn [assert bind].
  apply res_ok_bind; [apply res_ok_sample_r, HD|]. intros [rv rng1] _.
  apply res_ok_bind; [apply res_ok_extend_rows|]. intros ? _.
  apply res_ok_bind; [apply res_ok_extend_rows|]. intros ? _.
  apply res_ok_bind; [apply res_ok_dot|]. intros ? _.
  apply res_ok_bind; [apply res_ok_add|]. intros ? _. exact I.
Qed.

End Ring.
End Rules.

End Outcomes.

(** ** Lengths through the matrix code *)

Module LengthFacts.
Import Outcomes.
Section Lengths.
Context {L : RingLib}.

Lemma assert_ok (c : bool) (msg : string) (u : unit) : assert c msg = Ok u -> c = true.
Proof. destruct c; simpl; [reflexivity|discriminate]. Qed.

Lemma mapM_length {A B : Type} (g : A -> res B) (l0 : list A) (r0 : list B) :
  mapM g l0 = Ok r0 -> length r0 = length l0.
Proof.
  revert r0; induction l0 as [|a t IH]; intros r0 H; simpl in H.
  - inversion H; reflexivity.
  - inv_bind H. inv_bind H. inversion H; subst. simpl. f_equal. apply IH. assumption.
Qed.

Lemma add_length (a o c : @Mat L) :
  add a o = Ok c -> length a = length o /\ length c = length a.
Proof.
  unfold add. intros H.
  destruct (dim a) as [m1 n1] eqn:Ea, (dim o) as [m2 n2] eqn:Eo.
  inv_bind H. apply assert_ok, Nat.eqb_eq in E.
  inv_bind H. apply mapM_length in H. rewrite length_seq in H.
  unfold dim in Ea, Eo. injection Ea as -> _. injection Eo as -> _.
  split; [exact E | exact H].
Qed.

Lemma cmul_length (a : @Mat L) (g : poly L) : length (componentwise_mul a g) = length a.
Proof. apply length_map. Qed.

Lemma from_vec_length (v : list (poly L)) : length (@from_vec L v) = length v.
Proof. apply length_map. Qed.

Lemma one_d_length (a : @Mat L) (v : list (poly L)) :
  one_d_mat_to_vec a = Ok v -> length v = length a.
Proof. apply mapM_length. Qed.

Lemma foldM_add_length (t : list (@Mat L * poly L)) (acc r0 : @Mat L) :
  foldM (fun acc0 a => m <- (let '(xm, g) := a in Ok (componentwise_mul xm g)) ;; add acc0 m)
    t acc = Ok r0 ->
  length r0 = length acc /\ Forall (fun it => length (fst it) = length acc) t.
Proof.
  revert acc; induction t as [|[xm g] t IH]; intros acc H; simpl in H.
  - inversion H; subst. split; [reflexivity|constructor].
  - inv_bind H. destruct (add_length _ _ _ E) as [H1 H2].
    destruct (IH _ H) as [H3 H4]. rewrite cmul_length in H1.
    split; [congruence|]. constructor; [simpl; congruence|].
    eapply Forall_impl; [|exact H4]. intros a Ha. congruence.
Qed.

(** all the matrices summed by [reduce_add] have the row count of the sum *)
Lemma reduce_add_length (items : list (@Mat L * poly L)) (r0 : @Mat L) :
  reduce_add (fun '(xm, g) => Ok (componentwise_mul xm g)) items = Ok r0 ->
  Forall (fun it => length (fst it) = length r0) items.
Proof.
  unfold reduce_add. destruct items as [|[xm g] t]; [discriminate|]. intros H.
  cbn beta iota in H. cbn [bind] in H.
  destruct (foldM_add_length _ _ _ H) as [H1 H2].
  rewrite cmul_length in H1.
  constructor; [simpl; lia|]. eapply Forall_impl; [|exact H2]. intros a Ha.
  rewrite cmul_length in Ha. lia.
Qed.

Lemma in_combine_from_vec (xs : list (list (poly L))) (gs : list (poly L)) (x : list (poly L)) :
  In x xs -> length gs = length xs ->
  exists g, In (@from_vec L x, g) (combine (map from_vec xs) gs).
Proof.
  revert gs; induction xs as [|x0 xs IH]; intros gs Hin Hl; [contradiction|].
  destruct gs as [|g0 gs]; [discriminate|]. simpl in Hin |- *.
  destruct Hin as [->|Hin].
  - exists g0. left. reflexivity.
  - destruct (IH gs Hin ltac:(simpl in Hl; lia)) as [g Hg]. exists g. right. exact Hg.
Qed.

Lemma commit_bad_length (ck : @Commit.CommitmentKey L) (fuel : nat) (rng : Rng)
  (xv : list (poly L)) (p : Params) :
  length xv <> l p -> Commit.commit ck fuel rng xv p = Panic Commit.commit_len_msg.
Proof.
  intros H. unfold Commit.commit.
  destruct (Nat.eqb_spec (l p) (length xv)); [lia|]. reflexivity.
Qed.

Lemma res_ok_not_len {A : Type} (r : res A) :
  res_ok not_len_msg True r -> r <> Panic Commit.commit_len_msg.
Proof. intros H E. subst r. apply H. reflexivity. Qed.

Lemma res_ok_no_diverge {A : Type} (r : res A) :
  res_ok (fun _ => True) False r -> r <> Diverge.
Proof. intros H E. subst r. exact H. Qed.

End Lengths.
End LengthFacts.

(** ** The provers and the length of the message *)

Module ProverLengths.
Import Outcomes LengthFacts.
Section Provers.
Context {L : RingLib}.

Local Ltac not_len := unfold not_len_msg, Commit.commit_len_msg; discriminate.

Lemma res_ok_sampled_y (p : Params) (rng : Rng) :
  res_ok not_len_msg True (@new_with L (k p) 1 (normal_gen p) rng).
Proof.
  apply (res_ok_new_with not_len_msg True). intros r.
  apply (res_ok_normal_gen _ _ lib_msgs_not_len).
Qed.

Lemma res_ok_a_y (a yv : @Mat L) :
  res_ok not_len_msg True (a1y <- dot a yv ;; one_d_mat_to_vec a1y).
Proof.
  apply res_ok_bind; [apply (res_ok_dot _ _ lib_msgs_not_len)|]. intros ? _.
  apply (res_ok_one_d _ _ lib_msgs_not_len).
Qed.

Lemma open_commit_ok (ck : @Commit.CommitmentKey L) (p : Params) (fuel : nat) (rng : Rng)
  (xv : list (poly L)) :
  length xv = l p -> res_ok not_len_msg True (Open.commit ck p fuel rng xv).
Proof.
  intros Hl. unfold Open.commit.
  apply res_ok_bind; [apply (res_ok_commit _ _ lib_msgs_not_len); [exact I|exact Hl]|].
  intros [[op cm] rng1] _.
  apply res_ok_bind; [apply res_ok_sampled_y|]. intros [yv rng2] _.
  apply res_ok_bind; [apply (res_ok_dot _ _ lib_msgs_not_len)|]. intros ? _.
  apply res_ok_bind; [apply (res_ok_one_d _ _ lib_msgs_not_len)|]. intros ? _. exact I.
Qed.

Lemma linear_commit_ok (ck : @Commit.CommitmentKey L) (p : Params) (fuel : nat) (rng : Rng)
  (g : poly L) (xv : list (poly L)) :
  length xv = l p -> res_ok not_len_msg True (Linear.commit ck p fuel rng g xv).
Proof.
  intros Hl. unfold Linear.commit.
  apply res_ok_bind.
  { apply (res_ok_commit _ _ lib_msgs_not_len); [exact I|rewrite length_map; exact Hl]. }
  intros [[op cp] rng1] _.
  apply res_ok_bind; [apply (res_ok_commit _ _ lib_msgs_not_len); [exact I|exact Hl]|].
  intros [[op' cm] rng2] _.
  apply res_ok_bind; [apply res_ok_sampled_y|]. intros [yv rng3] _.
  apply res_ok_bind; [apply res_ok_sampled_y|]. intros [ypv rng4] _.
  repeat (apply res_ok_bind; [first [apply (res_ok_dot _ _ lib_msgs_not_len)
                                    |apply (res_ok_one_d _ _ lib_msgs_not_len)
                                    |apply (res_ok_sub _ _ lib_msgs_not_len)]|]; intros ? _).
  exact I.
Qed.

Lemma commit_all_ok (ck : @Commit.CommitmentKey L) (p : Params) (fuel : nat) (rng : Rng)
  (xs : list (list (poly L))) :
  Forall (fun x => length x = l p) xs -> res_ok not_len_msg True (Sum.commit_all ck p fuel rng xs).
Proof.
  intros H. revert rng; induction H as [|x xs Hx Hxs IH]; intros rng; simpl; [exact I|].
  apply res_ok_bind; [apply (res_ok_commit _ _ lib_msgs_not_len); [exact I|exact Hx]|].
  intros [[o cm] rng1] _.
  apply res_ok_bind; [apply IH|]. intros [[os cms] rng2] _. exact I.
Qed.

Lemma sum_commit_ok (ck : @Commit.CommitmentKey L) (p : Params) (fuel : nat) (rng : Rng)
  (gs : list (poly L)) (xs : list (list (poly L))) :
  Forall (fun x => length x = l p) xs -> res_ok not_len_msg True (Sum.commit ck p fuel rng gs xs).
Proof.
  intros Hxs. unfold Sum.commit.
  apply res_ok_bind.
  { destruct (_ && _); simpl; [exact I|]. unfold Sum.sum_assert_msg. not_len. }
  intros u Hu. apply assert_ok, andb_true_iff in Hu as [Hne Heq].
  apply Nat.eqb_eq in Heq. apply negb_true_iff, Nat.eqb_neq in Hne.
  apply res_ok_bind.
  { apply (res_ok_reduce_add _ _ lib_msgs_not_len); [not_len|]. intros [xm g]. exact I. }
  intros xpm Hxpm.
  apply res_ok_bind; [apply (res_ok_one_d _ _ lib_msgs_not_len)|]. intros xp Hxp.
  apply res_ok_bind.
  { apply (res_ok_commit _ _ lib_msgs_not_len); [exact I|].
    rewrite (one_d_length _ _ Hxp).
    apply reduce_add_length in Hxpm.
    destruct xs as [|x0 xs']; [destruct gs; simpl in *; lia|].
    destruct gs as [|g0 gs']; [simpl in Hne; lia|].
    inversion Hxpm as [|it its Hit _]; subst. simpl in Hit.
    rewrite from_vec_length in Hit. inversion Hxs; subst. congruence. }
  intros [[opp cp] rng1] _.
  apply res_ok_bind; [apply commit_all_ok, Hxs|]. intros [[os cs] rng2] _.
  apply res_ok_bind.
  { apply (res_ok_repeat_draw _ _). intros r. apply res_ok_sampled_y. }
  intros [ys rng3] _.
  apply res_ok_bind; [apply res_ok_sampled_y|]. intros [ypv rng4] _.
  apply res_ok_bind; [apply res_ok_mapM; intros yv _; apply res_ok_a_y|]. intros ? _.
  apply res_ok_bind; [apply (res_ok_dot _ _ lib_msgs_not_len)|]. intros ? _.
  apply res_ok_bind; [apply (res_ok_one_d _ _ lib_msgs_not_len)|]. intros ? _.
  apply res_ok_bind.
  { apply (res_ok_reduce_add _ _ lib_msgs_not_len); [not_len|]. intros [g yv].
    apply res_ok_bind; [apply (res_ok_dot _ _ lib_msgs_not_len)|]. intros ? _. exact I. }
  intros ? _.
  apply res_ok_bind; [apply (res_ok_dot _ _ lib_msgs_not_len)|]. intros ? _.
  apply res_ok_bind; [apply (res_ok_sub _ _ lib_msgs_not_len)|]. intros ? _. exact I.
Qed.

(** a message of the wrong length among [xs]: [SumProofProver::commit] panics *)
Lemma sum_commit_bad (ck : @Commit.CommitmentKey L) (p : Params) (fuel : nat) (rng : Rng)
  (gs : list (poly L)) (xs : list (list (poly L))) (x : list (poly L)) :
  In x xs -> length x <> l p -> exists msg, Sum.commit ck p fuel rng gs xs = Panic msg.
Proof.
  intros Hin Hx. unfold Sum.commit.
  destruct (negb (length gs =? 0) && (length gs =? length xs)) eqn:Ha; cbn [assert bind];
    [|eexists; reflexivity].
  apply andb_true_iff in Ha as [_ Heq]. apply Nat.eqb_eq in Heq.
  destruct (reduce_add (fun '(xm, g) => Ok (componentwise_mul xm g))
              (combine (map from_vec xs) gs)) as [xpm|s|] eqn:E1; cbn [bind];
    [| eexists; reflexivity |].
  - destruct (one_d_mat_to_vec xpm) as [xp|s|] eqn:E2; cbn [bind]; [| eexists; reflexivity |].
    + rewrite commit_bad_length; [eexists; reflexivity|].
      rewrite (one_d_length _ _ E2).
      destruct (in_combine_from_vec xs gs x Hin Heq) as [g Hg].
      apply reduce_add_length in E1. rewrite Forall_forall in E1.
      specialize (E1 _ Hg). simpl in E1. rewrite from_vec_length in E1. congruence.
    + exfalso. apply (res_ok_no_diverge (one_d_mat_to_vec xpm)); [|exact E2].
      apply (res_ok_one_d _ _ lib_msgs_any).
  - exfalso.
    apply (res_ok_no_diverge (reduce_add (fun '(xm, g) => Ok (componentwise_mul xm g))
                                (combine (map from_vec xs) gs))); [|exact E1].
    apply (res_ok_reduce_add _ _ lib_msgs_any); [exact I|]. intros [xm g]. exact I.
Qed.

End Provers.
End ProverLengths.

(** ** Matrices in index form *)

Module MatForm.
Section Pure.
Context {L : RingLib}.
Local Abbreviation R := (poly L).

Lemma nth_error_seq0 (m i : nat) : (i < m)%nat -> nth_error (seq 0 m) i = Some i.
Proof. intros Hi. rewrite nth_error_seq. destruct (Nat.ltb_spec i m); [reflexivity|lia]. Qed.

Lemma nth_map_seq {A : Type} (g : nat -> A) (m i : nat) (d : A) :
  (i < m)%nat -> nth i (map g (seq 0 m)) d = g i.
Proof.
  intros Hi. rewrite (nth_indep _ d (g 0%nat)) by (rewrite length_map, length_seq; exact Hi).
  rewrite map_nth, seq_nth by exact Hi. reflexivity.
Qed.

Lemma list_as_map {A : Type} (l0 : list A) (d : A) :
  l0 = map (fun i => nth i l0 d) (seq 0 (length l0)).
Proof.
  apply nth_ext with (d := d) (d' := d).
  - rewrite length_map, length_seq. reflexivity.
  - intros i Hi. rewrite nth_map_seq by exact Hi. reflexivity.
Qed.

Lemma seq_shift_add (s m : nat) : seq s m = map (fun i => s + i)%nat (seq 0 m).
Proof.
  revert s; induction m as [|m IH]; intros s; [reflexivity|].
  cbn [seq map]. f_equal; [lia|]. rewrite (IH (S s)), (IH 1%nat), map_map.
  apply map_ext. intros i. lia.
Qed.

Lemma map_const_seq {A : Type} (a : A) (s m : nat) : map (fun _ => a) (seq s m) = repeat a m.
Proof. revert s; induction m as [|m IH]; intros s; [reflexivity|]. cbn. f_equal. apply IH. Qed.

Lemma mapM_pure {A B : Type} (F : A -> res B) (G : A -> B) (l0 : list A) :
  (forall a, In a l0 -> F a = Ok (G a)) -> mapM F l0 = Ok (map G l0).
Proof.
  induction l0 as [|a t IH]; intros HF; cbn [mapM map]; [reflexivity|].
  rewrite HF by (left; reflexivity). cbn [bind].
  rewrite IH by (intros; apply HF; right; assumption). reflexivity.
Qed.

Lemma mapM_map {A B C : Type} (F : B -> res C) (h : A -> B) (l0 : list A) :
  mapM F (map h l0) = mapM (fun a => F (h a)) l0.
Proof. induction l0 as [|a t IH]; cbn [mapM map]; [reflexivity|]. rewrite IH. reflexivity. Qed.

Lemma foldM_pure {A B : Type} (F : B -> A -> res B) (St : B -> A -> B) (l0 : list A) (acc : B) :
  (forall acc0 a, In a l0 -> F acc0 a = Ok (St acc0 a)) ->
  foldM F l0 acc = Ok (fold_left St l0 acc).
Proof.
  revert acc; induction l0 as [|a t IH]; intros acc HF; cbn [foldM fold_left]; [reflexivity|].
  rewrite HF by (left; reflexivity). cbn [bind].
  apply IH. intros; apply HF; right; assumption.
Qed.

Lemma mk_shaped (m n0 : nat) (g : nat -> nat -> R) : shaped m n0 (mk m n0 g).
Proof.
  unfold shaped, mk. split; [rewrite length_map, length_seq; reflexivity|].
  apply Forall_forall. intros row Hin. apply in_map_iff in Hin as [i [<- _]].
  rewrite length_map, length_seq. reflexivity.
Qed.

Lemma shaped_mk (m n0 : nat) (a : @Mat L) : shaped m n0 a -> a = mk m n0 (entry a).
Proof.
  intros [Hl Hf]. unfold mk, entry.
  transitivity (map (fun i => nth i a []) (seq 0 m)).
  { rewrite <- Hl. apply list_as_map. }
  apply map_ext_in. intros i Hi. apply in_seq in Hi.
  assert (Hr : length (nth i a []) = n0).
  { rewrite Forall_forall in Hf. apply Hf, nth_In. lia. }
  rewrite <- Hr. apply list_as_map.
Qed.

Lemma entry_mk (m n0 : nat) (g : nat -> nat -> R) (i j : nat) :
  (i < m)%nat -> (j < n0)%nat -> entry (mk m n0 g) i j = g i j.
Proof.
  intros Hi Hj. unfold entry, mk.
  rewrite nth_map_seq by exact Hi. apply nth_map_seq. exact Hj.
Qed.

Lemma mk_ext (m n0 : nat) (g1 g2 : nat -> nat -> R) :
  (forall i j, (i < m)%nat -> (j < n0)%nat -> g1 i j = g2 i j) -> mk m n0 g1 = mk m n0 g2.
Proof.
  intros Hg. unfold mk. apply map_ext_in. intros i Hi. apply map_ext_in. intros j Hj.
  apply in_seq in Hi, Hj. apply Hg; lia.
Qed.

Lemma dim_mk (m n0 : nat) (g : nat -> nat -> R) : (1 <= m)%nat -> dim (mk m n0 g) = (m, n0).
Proof.
  intros Hm. destruct m as [|m]; [lia|].
  unfold dim, mk. cbn [seq map length]. rewrite length_map, length_seq, length_map, length_seq.
  reflexivity.
Qed.

Lemma get_mk (m n0 : nat) (g : nat -> nat -> R) (i j : nat) :
  (i < m)%nat -> (j < n0)%nat -> get (mk m n0 g) i j = Ok (g i j).
Proof.
  intros Hi Hj. unfold get, mk.
  rewrite nth_error_map, nth_error_seq0 by exact Hi. cbn [option_map].
  rewrite nth_error_map, nth_error_seq0 by exact Hj. reflexivity.
Qed.

Lemma dot_mk (m n0 q0 : nat) (f g : nat -> nat -> R) :
  (1 <= m)%nat -> (1 <= n0)%nat ->
  dot (mk m n0 f) (mk n0 q0 g)
  = Ok (mk m q0 (fun i j => lsum n0 (fun kk => pmul L (f i kk) (g kk j)))).
Proof.
  intros Hm Hn. unfold dot. rewrite !dim_mk by assumption. cbn beta iota zeta.
  rewrite Nat.eqb_refl. cbn [assert bind]. unfold mk at 3.
  apply mapM_pure. intros i Hi. apply in_seq in Hi.
  apply mapM_pure. intros j Hj. apply in_seq in Hj.
  unfold lsum. apply foldM_pure. intros acc kk Hk. apply in_seq in Hk.
  rewrite get_mk by lia. cbn [bind]. rewrite get_mk by lia. reflexivity.
Qed.

Lemma add_mk (m n0 : nat) (f g : nat -> nat -> R) : (1 <= m)%nat ->
  add (mk m n0 f) (mk m n0 g) = Ok (mk m n0 (fun i j => padd L (f i j) (g i j))).
Proof.
  intros Hm. unfold add. rewrite !dim_mk by assumption. cbn beta iota zeta.
  rewrite !Nat.eqb_refl. cbn [assert bind]. unfold mk at 3.
  apply mapM_pure. intros i Hi. apply in_seq in Hi.
  apply mapM_pure. intros j Hj. apply in_seq in Hj.
  rewrite !get_mk by lia. reflexivity.
Qed.

Lemma sub_mk (m n0 : nat) (f g : nat -> nat -> R) : (1 <= m)%nat ->
  sub (mk m n0 f) (mk m n0 g) = Ok (mk m n0 (fun i j => psub L (f i j) (g i j))).
Proof.
  intros Hm. unfold sub. rewrite !dim_mk by assumption. cbn beta iota zeta.
  rewrite !Nat.eqb_refl. cbn [assert bind]. unfold mk at 3.
  apply mapM_pure. intros i Hi. apply in_seq in Hi.
  apply mapM_pure. intros j Hj. apply in_seq in Hj.
  rewrite !get_mk by lia. reflexivity.
Qed.

Lemma cmul_mk (m n0 : nat) (f : nat -> nat -> R) (s : R) :
  componentwise_mul (mk m n0 f) s = mk m n0 (fun i j => pmul L (f i j) s).
Proof.
  unfold componentwise_mul, mk. rewrite map_map. apply map_ext. intros i.
  rewrite map_map. reflexivity.
Qed.


Lemma extend_rows_mk (m1 m2 n0 : nat) (f g : nat -> nat -> R) :
  (1 <= m1)%nat -> (1 <= m2)%nat ->
  extend_rows (mk m1 n0 f) (mk m2 n0 g)
  = Ok (mk (m1 + m2) n0 (fun i j => if (i <? m1)%nat then f i j else g (i - m1)%nat j)).
Proof.
  intros H1 H2. unfold extend_rows. rewrite !dim_mk by assumption. cbn beta iota zeta.
  rewrite Nat.eqb_refl. cbn [assert bind]. f_equal. unfold mk.
  rewrite seq_app, map_app, Nat.add_0_l. f_equal.
  - apply map_ext_in. intros i Hi. apply in_seq in Hi. apply map_ext. intros j.
    destruct (Nat.ltb_spec i m1); [reflexivity|lia].
  - rewrite (seq_shift_add m1 m2), map_map. apply map_ext. intros i. apply map_ext. intros j.
    destruct (Nat.ltb_spec (m1 + i) m1); [lia|]. f_equal. lia.
Qed.

Lemma extend_cols_shaped (m n1 n2 : nat) (a o c : @Mat L) :
  shaped m n1 a -> shaped m n2 o -> extend_cols a o = Ok c -> shaped m (n1 + n2) c.
Proof.
  intros [Ha Fa] [Ho Fo] H. unfold extend_cols, dim in H. rewrite Ha, Ho in H.
  cbn beta iota zeta in H. rewrite Nat.eqb_refl in H. cbn [assert bind] in H.
  injection H as <-. split.
  - rewrite length_map, length_combine, Ha, Ho. lia.
  - apply Forall_forall. intros row Hin. apply in_map_iff in Hin as [[r1 r2] [<- Hin]].
    rewrite length_app. rewrite Forall_forall in Fa, Fo.
    rewrite (Fa r1 (in_combine_l _ _ _ _ Hin)), (Fo r2 (in_combine_r _ _ _ _ Hin)). reflexivity.
Qed.

Lemma split_rows_mk (a0 d n0 : nat) (f : nat -> nat -> R) :
  split_rows (mk (a0 + d) n0 f) a0 = Ok (mk a0 n0 f, mk d n0 (fun i j => f (a0 + i)%nat j)).
Proof.
  unfold split_rows.
  replace (Nat.leb a0 (length (mk (a0 + d) n0 f))) with true
    by (symmetry; apply Nat.leb_le; unfold mk; rewrite length_map, length_seq; lia).
  cbn [assert bind]. unfold mk. rewrite seq_app, map_app, Nat.add_0_l. f_equal. f_equal.
  - rewrite firstn_app, length_map, length_seq, Nat.sub_diag, firstn_0, app_nil_r.
    apply firstn_all2. rewrite length_map, length_seq. lia.
  - rewrite skipn_app, length_map, length_seq, Nat.sub_diag, skipn_0.
    rewrite skipn_all2 by (rewrite length_map, length_seq; lia).
    rewrite app_nil_l, (seq_shift_add a0 d), map_map. reflexivity.
Qed.

Lemma from_vec_mk (v : list R) : from_vec v = mk (length v) 1 (fun i _ => nth i v (pzero L)).
Proof.
  unfold from_vec, mk.
  transitivity (map (fun p => [p]) (map (fun i => nth i v (pzero L)) (seq 0 (length v)))).
  { f_equal. apply list_as_map. }
  rewrite map_map. reflexivity.
Qed.

Lemma from_vec_map_seq (m : nat) (g : nat -> R) :
  from_vec (map g (seq 0 m)) = mk m 1 (fun i _ => g i).
Proof. unfold from_vec, mk. rewrite map_map. reflexivity. Qed.

Lemma from_element_mk (m n0 : nat) (e : R) : from_element m n0 e = mk m n0 (fun _ _ => e).
Proof. unfold from_element, mk. rewrite map_const_seq. f_equal. symmetry. apply map_const_seq. Qed.

Lemma diag_shaped (m n0 : nat) (e : R) : shaped m n0 (diag m n0 e).
Proof. exact (mk_shaped m n0 (fun i j => if Nat.eqb i j then e else pzero L)). Qed.

Lemma from_element_shaped (m n0 : nat) (e : R) : shaped m n0 (from_element m n0 e).
Proof. rewrite from_element_mk. apply mk_shaped. Qed.

Lemma one_d_mk (m : nat) (f : nat -> nat -> R) :
  one_d_mat_to_vec (mk m 1 f) = Ok (map (fun i => f i 0%nat) (seq 0 m)).
Proof. unfold one_d_mat_to_vec, mk. rewrite mapM_map. apply mapM_pure. reflexivity. Qed.

Lemma repeat_draw_spec {A : Type} (Q : A -> Prop) (cnt : nat) (gen : Rng -> res (A * Rng))
  (rng rng' : Rng) (xs : list A) :
  (forall r0 a r1, gen r0 = Ok (a, r1) -> Q a) ->
  repeat_draw cnt gen rng = Ok (xs, rng') -> length xs = cnt /\ Forall Q xs.
Proof.
  intros HQ. revert rng xs; induction cnt as [|cnt IH]; intros rng xs H; cbn [repeat_draw] in H.
  - injection H as <- _. split; [reflexivity|constructor].
  - destruct (gen rng) as [[a rng1]|s|] eqn:E; cbn [bind] in H; try discriminate H.
    destruct (repeat_draw cnt gen rng1) as [[rest rng2]|s|] eqn:E2; cbn [bind] in H;
      try discriminate H.
    injection H as <- ->. destruct (IH _ _ E2) as [Hl Hf].
    split; [cbn; f_equal; exact Hl|]. constructor; [exact (HQ _ _ _ E)|exact Hf].
Qed.

Lemma new_with_shaped (m n0 : nat) (gen : Rng -> res (R * Rng)) (rng rng' : Rng) (a : @Mat L) :
  new_with m n0 gen rng = Ok (a, rng') -> shaped m n0 a.
Proof.
  unfold new_with. intros H. apply (repeat_draw_spec (fun row => length row = n0)) in H.
  - exact H.
  - intros r0 row r1 Hr. apply (repeat_draw_spec (fun _ => True)) in Hr; [apply Hr|].
    intros; exact I.
Qed.

Lemma sample_r_shaped (fuel : nat) (p : Params) (rng rng1 : Rng) (rv : @Mat L) :
  Commit.sample_r fuel p rng = Ok (rv, rng1) -> shaped (k p) 1 rv.
Proof.
  revert rng; induction fuel as [|fuel IH]; intros rng H; cbn [Commit.sample_r] in H;
    [discriminate|].
  destruct (new_with (k p) 1 _ rng) as [[tmp rng2]|s|] eqn:E; cbn [bind] in H;
    try discriminate H.
  destruct (check_commit_constraint p tmp) as [ok|s|]; cbn [bind] in H; try discriminate H.
  destruct ok.
  - injection H as <- _. exact (new_with_shaped _ _ _ _ _ _ E).
  - exact (IH _ H).
Qed.

Lemma usize_sub_ok (x y z : nat) : usize_sub x y = Ok z -> (y <= x)%nat /\ z = (x - y)%nat.
Proof.
  unfold usize_sub. destruct (Nat.leb_spec y x) as [Hle|Hgt]; intros H; [|discriminate].
  injection H as <-. split; [assumption|reflexivity].
Qed.

(** the shapes of a key drawn by [CommitmentKey::new] *)
Lemma new_shaped (rng rng' : Rng) (p : Params) (ck : @Commit.CommitmentKey L) :
  Commit.new rng p = Ok (ck, rng') ->
  (n p + l p <= k p)%nat /\
  shaped (n p) (k p) (Commit.a1 ck) /\ shaped (l p) (k p) (Commit.a2 ck).
Proof.
  intros H. unfold Commit.new in H.
  destruct (usize_sub (k p) (n p)) as [kn| |] eqn:E1; cbn [bind] in H; try discriminate H.
  destruct (new_with (n p) kn _ rng) as [[a1' rng1]| |] eqn:E2; cbn [bind] in H;
    try discriminate H.
  destruct (extend_cols _ a1') as [ca1| |] eqn:E3; cbn [bind] in H; try discriminate H.
  destruct (usize_sub kn (l p)) as [knl| |] eqn:E4; cbn [bind] in H; try discriminate H.
  destruct (new_with (l p) knl _ rng1) as [[a2' rng2]| |] eqn:E5; cbn [bind] in H;
    try discriminate H.
  destruct (extend_cols _ (diag (l p) (l p) (pone L))) as [t3| |] eqn:E6; cbn [bind] in H;
    try discriminate H.
  destruct (extend_cols t3 a2') as [ca2| |] eqn:E7; cbn [bind] in H; try discriminate H.
  injection H as <- _. cbn [Commit.a1 Commit.a2].
  apply usize_sub_ok in E1 as [Hk ->]. apply usize_sub_ok in E4 as [Hl ->].
  apply new_with_shaped in E2, E5.
  pose proof (extend_cols_shaped _ _ _ _ _ _ (diag_shaped _ _ _) E2 E3) as Ha1.
  pose proof (extend_cols_shaped _ _ _ _ _ _
                (from_element_shaped _ _ _) (diag_shaped _ _ _) E6) as Ht3.
  pose proof (extend_cols_shaped _ _ _ _ _ _ Ht3 E5 E7) as Ha2.
  split; [lia|]. split.
  - replace (k p) with (n p + (k p - n p))%nat by lia. exact Ha1.
  - replace (k p) with (n p + l p + (k p - n p - l p))%nat by lia. exact Ha2.
Qed.

Lemma standard_deviation_nonneg (p : Params) (N : nat) (sigma : Z) :
  standard_deviation p N = Ok sigma -> (0 <= sigma)%Z.
Proof.
  unfold standard_deviation. intros H.
  apply bind_ok in H as [bu [Hbu H]]. apply to_usize_ok in Hbu as [Hb ->].
  apply bind_ok in H as [t1 [Ht1 H]]. apply usize_mul_ok in Ht1 as [_ ->].
  apply bind_ok in H as [t2 [Ht2 H]]. apply usize_mul_ok in Ht2 as [_ ->].
  apply bind_ok in H as [t3 [Ht3 H]]. apply usize_mul_ok in Ht3 as [_ ->].
  apply usize_mul_ok in H as [_ ->].
  pose proof (Z.sqrt_nonneg (Z.of_nat (k p) * Z.of_nat N)).
  repeat apply Z.mul_nonneg_nonneg; lia.
Qed.

(** the verifier's bound [2 sigma sqrt N] is computed without overflow
    whenever the committer's bound [4 sigma sqrt N] was *)
Lemma verify_bound_of_commit (p : Params) (a : @Mat L) :
  check_commit_constraint p a = Ok true -> exists bound, verify_bound p (degN L) = Ok bound.
Proof.
  unfold check_commit_constraint, commit_bound, verify_bound. intros H.
  apply bind_ok in H as [cb [H _]].
  apply bind_ok in H as [sigma [Hs H]]. rewrite Hs. cbn [bind].
  apply bind_ok in H as [t [Ht H]]. apply usize_mul_ok in Ht as [Ht ->].
  apply usize_mul_ok in H as [H _].
  pose proof (standard_deviation_nonneg _ _ _ Hs).
  pose proof (Z.sqrt_nonneg (Z.of_nat (degN L))).
  exists (2 * sigma * Z.sqrt (Z.of_nat (degN L)))%Z.
  assert (H2 : (2 * sigma <= usize_max)%Z) by lia.
  rewrite (proj2 (usize_mul_ok 2 sigma (2 * sigma)) (conj H2 eq_refl)). cbn [bind].
  apply usize_mul_ok. split; [nia|reflexivity].
Qed.

Lemma mat_eqb_mk (m n0 : nat) (F G : nat -> nat -> R) :
  (forall e, peqb L e e = true) ->
  (forall i j, (i < m)%nat -> (j < n0)%nat -> F i j = G i j) ->
  mat_eqb (mk m n0 F) (mk m n0 G) = true.
Proof. intros Hr HFG. rewrite (mk_ext m n0 F G HFG). apply CommitFacts.mat_eqb_refl, Hr. Qed.

Lemma nth_map_lt {A B : Type} (f0 : A -> B) (l0 : list A) (i : nat) (d : B) (d' : A) :
  (i < length l0)%nat -> nth i (map f0 l0) d = f0 (nth i l0 d').
Proof.
  intros Hi. rewrite (nth_indep _ d (f0 d')) by (rewrite length_map; exact Hi).
  apply map_nth.
Qed.

(** ** Lists in index form: [map V (seq 0 m)] *)

Lemma list_as_seq {A : Type} (l0 : list A) (m : nat) (d : A) :
  length l0 = m -> l0 = map (fun i => nth i l0 d) (seq 0 m).
Proof. intros <-. apply list_as_map. Qed.

Lemma combine_map_seq {A B : Type} (f0 : nat -> A) (g : nat -> B) (s m : nat) :
  combine (map f0 (seq s m)) (map g (seq s m)) = map (fun i => (f0 i, g i)) (seq s m).
Proof.
  revert s; induction m as [|m IH]; intros s; [reflexivity|].
  cbn [seq map combine]. rewrite IH. reflexivity.
Qed.

Lemma mapM_seq {A B : Type} (F : A -> res B) (f0 : nat -> A) (G : nat -> B) (m : nat) :
  (forall i, (i < m)%nat -> F (f0 i) = Ok (G i)) ->
  mapM F (map f0 (seq 0 m)) = Ok (map G (seq 0 m)).
Proof.
  intros HF. rewrite mapM_map. apply mapM_pure. intros i Hi. apply in_seq in Hi.
  apply HF. lia.
Qed.

Lemma list_eqb_map_seq {A : Type} (eqb : A -> A -> bool) (f0 g : nat -> A) (m : nat) :
  (forall i, (i < m)%nat -> eqb (f0 i) (g i) = true) ->
  list_eqb eqb (map f0 (seq 0 m)) (map g (seq 0 m)) = true.
Proof.
  intros H. assert (Hs : forall i, In i (seq 0 m) -> eqb (f0 i) (g i) = true).
  { intros i Hi. apply in_seq in Hi. apply H. lia. }
  clear H. induction (seq 0 m) as [|a t IH]; [reflexivity|].
  cbn [map list_eqb]. rewrite Hs by (left; reflexivity). apply IH.
  intros i Hi. apply Hs. right. exact Hi.
Qed.

Lemma allM_verify (p : Params) (zs : list (@Mat L)) (bound : Z) :
  verify_bound p (degN L) = Ok bound ->
  Sum.allM (check_verify_constraint p) zs = Ok (forallb (fun z => entries_within z bound) zs).
Proof.
  intros Hb. induction zs as [|z t IH]; [reflexivity|].
  cbn [Sum.allM forallb]. rewrite (CommitFacts.verify_constraint_ok p z bound Hb). cbn [bind].
  destruct (entries_within z bound); [exact IH|reflexivity].
Qed.

Lemma commit_all_nth (ck : @Commit.CommitmentKey L) (p : Params) (fuel : nat) (rng rng' : Rng)
  (xs : list (list R)) (os : list (@Commit.Opening L)) (cs : list (@Commit.Commitment L))
  (dO : @Commit.Opening L) (dC : @Commit.Commitment L) :
  Sum.commit_all ck p fuel rng xs = Ok (os, cs, rng') ->
  length os = length xs /\ length cs = length xs /\
  forall i, (i < length xs)%nat ->
    exists ra rb, Commit.commit ck fuel ra (nth i xs []) p = Ok (nth i os dO, nth i cs dC, rb).
Proof.
  revert rng os cs; induction xs as [|xv t IH]; intros rng os cs H; cbn [Sum.commit_all] in H.
  - injection H as <- <- _. split; [reflexivity|]. split; [reflexivity|]. intros i Hi.
    cbn in Hi. lia.
  - destruct (Commit.commit ck fuel rng xv p) as [[[o cm] rng1]| |] eqn:E; cbn [bind] in H;
      try discriminate H.
    destruct (Sum.commit_all ck p fuel rng1 t) as [[[os' cs'] rng2]| |] eqn:E2; cbn [bind] in H;
      try discriminate H.
    injection H as <- <- ->. destruct (IH _ _ _ E2) as (Ho & Hc & Hi).
    split; [cbn; f_equal; exact Ho|]. split; [cbn; f_equal; exact Hc|].
    intros [|i] Hlt.
    + exists rng, rng1. exact E.
    + apply Hi. cbn in Hlt. lia.
Qed.

End Pure.
Section Alg.
Context {L : RingLib}.
Local Abbreviation R := (poly L).
Variable RT : ring_theory (pzero L) (pone L) (padd L) (pmul L) (psub L) (pneg L) (@eq R).
Add Ring pring : RT.

Lemma isum_0 (h : nat -> R) : isum 0 h = pzero L.
Proof. reflexivity. Qed.

Lemma isum_S (m : nat) (h : nat -> R) : isum (S m) h = padd L (isum m h) (h m).
Proof.
  unfold isum, isum_from. rewrite seq_S, fold_right_app. cbn [fold_right Nat.add].
  induction (seq 0 m) as [|a t IH]; cbn [fold_right]; [ring|]. rewrite IH. ring.
Qed.

Lemma isum_from_cons (s m : nat) (h : nat -> R) :
  isum_from s (S m) h = padd L (h s) (isum_from (S s) m h).
Proof. reflexivity. Qed.

Lemma isum_from_shift (s m : nat) (h : nat -> R) :
  isum_from (S s) m h = isum_from s m (fun i => h (S i)).
Proof.
  revert s; induction m as [|m IH]; intros s; [reflexivity|].
  unfold isum_from in *. cbn [seq fold_right]. rewrite IH. reflexivity.
Qed.

Lemma isum_S_front (m : nat) (h : nat -> R) :
  isum (S m) h = padd L (h 0%nat) (isum m (fun i => h (S i))).
Proof. unfold isum. rewrite <- isum_from_shift. reflexivity. Qed.

Lemma isum_ext (m : nat) (h1 h2 : nat -> R) :
  (forall i, (i < m)%nat -> h1 i = h2 i) -> isum m h1 = isum m h2.
Proof.
  induction m as [|m IH]; intros Hh; [reflexivity|].
  rewrite !isum_S, IH by (intros; apply Hh; lia). rewrite Hh by lia. reflexivity.
Qed.

Lemma isum_add (m : nat) (h1 h2 : nat -> R) :
  isum m (fun i => padd L (h1 i) (h2 i)) = padd L (isum m h1) (isum m h2).
Proof. induction m as [|m IH]; [cbn; ring|]. rewrite !isum_S, IH. ring. Qed.

Lemma isum_sub (m : nat) (h1 h2 : nat -> R) :
  isum m (fun i => psub L (h1 i) (h2 i)) = psub L (isum m h1) (isum m h2).
Proof. induction m as [|m IH]; [cbn; ring|]. rewrite !isum_S, IH. ring. Qed.

Lemma isum_mulr (m : nat) (h : nat -> R) (s : R) :
  isum m (fun i => pmul L (h i) s) = pmul L (isum m h) s.
Proof. induction m as [|m IH]; [cbn; ring|]. rewrite !isum_S, IH. ring. Qed.

Lemma lsum_isum (m : nat) (h : nat -> R) : lsum m h = isum m h.
Proof.
  induction m as [|m IH]; [reflexivity|].
  unfold lsum in *. rewrite isum_S, <- IH, seq_S, fold_left_app. reflexivity.
Qed.

(** [A (y + r d) = A y + (A r) d], row by row *)
Lemma isum_response (m : nat) (a y r0 : nat -> R) (d : R) :
  isum m (fun kk => pmul L (a kk) (padd L (y kk) (pmul L (r0 kk) d)))
  = padd L (isum m (fun kk => pmul L (a kk) (y kk)))
      (pmul L (isum m (fun kk => pmul L (a kk) (r0 kk))) d).
Proof.
  rewrite <- isum_mulr, <- isum_add. apply isum_ext. intros i _. ring.
Qed.

Lemma foldM_add_mk {A : Type} (F : A -> nat -> nat -> R) (g : A -> res (@Mat L))
  (m n0 : nat) (d0 : A) (t : list A) (G : nat -> nat -> R) :
  (1 <= m)%nat ->
  (forall a, In a t -> g a = Ok (mk m n0 (F a))) ->
  foldM (fun acc a => m' <- g a ;; add acc m') t (mk m n0 G)
  = Ok (mk m n0 (fun i j => padd L (G i j) (isum (length t) (fun kk => F (nth kk t d0) i j)))).
Proof.
  intros Hm. revert G; induction t as [|a t IH]; intros G Hg; cbn [foldM].
  - f_equal. apply mk_ext. intros i j _ _. cbn. ring.
  - rewrite Hg by (left; reflexivity). cbn [bind]. rewrite add_mk by exact Hm. cbn [bind].
    rewrite IH by (intros; apply Hg; right; assumption). f_equal. apply mk_ext. intros i j _ _.
    cbn [length]. rewrite isum_S_front. cbn [nth]. ring.
Qed.

Lemma reduce_add_mk {A : Type} (F : A -> nat -> nat -> R) (g : A -> res (@Mat L))
  (m n0 : nat) (d0 : A) (items : list A) :
  (1 <= m)%nat -> items <> [] ->
  (forall a, In a items -> g a = Ok (mk m n0 (F a))) ->
  reduce_add g items
  = Ok (mk m n0 (fun i j => isum (length items) (fun kk => F (nth kk items d0) i j))).
Proof.
  intros Hm Hne Hg. destruct items as [|a t]; [congruence|]. unfold reduce_add.
  rewrite Hg by (left; reflexivity). cbn [bind].
  rewrite (foldM_add_mk F g m n0 d0) by (auto || (intros; apply Hg; right; assumption)).
  f_equal. apply mk_ext. intros i j _ _. cbn [length]. rewrite isum_S_front. reflexivity.
Qed.

(** an honest commitment: [c1 = A1 r] and [c2 = A2 r + x] *)
Lemma commit_mk (ck : @Commit.CommitmentKey L) (p : Params) (fuel : nat) (rng rng' : Rng)
  (xv : list R) (op : @Commit.Opening L) (com : @Commit.Commitment L) (A1 A2 : nat -> nat -> R) :
  (1 <= n p)%nat -> (1 <= l p)%nat -> (1 <= k p)%nat ->
  Commit.a1 ck = mk (n p) (k p) A1 -> Commit.a2 ck = mk (l p) (k p) A2 ->
  Commit.commit ck fuel rng xv p = Ok (op, com, rng') ->
  length xv = l p /\ Commit.x op = xv /\
  Commit.r op = mk (k p) 1 (entry (Commit.r op)) /\
  check_commit_constraint p (Commit.r op) = Ok true /\
  Commit.c1_c2 com p
  = Ok (mk (n p) 1 (fun i j => isum (k p) (fun kk => pmul L (A1 i kk) (entry (Commit.r op) kk j))),
        mk (l p) 1 (fun i j => padd L
                                 (isum (k p) (fun kk => pmul L (A2 i kk) (entry (Commit.r op) kk j)))
                                 (nth i xv (pzero L)))).
Proof.
  intros Hn Hl Hk Ha1 Ha2 H. unfold Commit.commit in H.
  destruct (assert _ _) as [[]| |] eqn:E0; cbn [bind] in H; try discriminate H.
  apply LengthFacts.assert_ok, Nat.eqb_eq in E0.
  destruct (Commit.sample_r fuel p rng) as [[rv rng1]| |] eqn:E1; cbn [bind] in H;
    try discriminate H.
  destruct (extend_rows (Commit.a1 ck) (Commit.a2 ck)) as [a| |] eqn:E2; cbn [bind] in H;
    try discriminate H.
  destruct (extend_rows _ (from_vec xv)) as [z| |] eqn:E3; cbn [bind] in H; try discriminate H.
  destruct (dot a rv) as [ar| |] eqn:E4; cbn [bind] in H; try discriminate H.
  destruct (add ar z) as [cv| |] eqn:E5; cbn [bind] in H; try discriminate H.
  injection H as <- <- _.
  pose proof (CommitFacts.sample_r_ok _ _ _ _ _ E1) as Hok.
  pose proof (sample_r_shaped _ _ _ _ _ E1) as Hrv. apply shaped_mk in Hrv.
  rewrite Ha1, Ha2, extend_rows_mk in E2 by assumption. injection E2 as <-.
  rewrite from_element_mk, from_vec_mk, <- E0, extend_rows_mk in E3 by assumption.
  injection E3 as <-.
  rewrite Hrv, dot_mk in E4 by lia. injection E4 as <-.
  rewrite add_mk in E5 by lia. injection E5 as <-.
  cbn [Commit.x Commit.r Commit.c Commit.c1_c2].
  split; [symmetry; exact E0|]. split; [reflexivity|]. split; [exact Hrv|]. split; [exact Hok|].
  unfold Commit.c1_c2. cbn [Commit.c]. rewrite split_rows_mk. f_equal. f_equal; apply mk_ext; intros i j Hi Hj.
  - destruct (Nat.ltb_spec i (n p)); [|lia]. rewrite lsum_isum. ring.
  - destruct (Nat.ltb_spec (n p + i) (n p)); [lia|].
    replace (n p + i - n p)%nat with i by lia. rewrite lsum_isum. reflexivity.
Qed.

Lemma open_run_ok (ck : @Commit.CommitmentKey L) (p : Params) (fuel : nat) (rng : Rng)
  (xv : list R) (A1 A2 : nat -> nat -> R) s1 :
  (forall e, peqb L e e = true) ->
  (1 <= n p)%nat -> (1 <= l p)%nat -> (1 <= k p)%nat ->
  Commit.a1 ck = mk (n p) (k p) A1 -> Commit.a2 ck = mk (l p) (k p) A2 ->
  Open.commit ck p fuel rng xv = Ok s1 ->
  exists resp bound, verify_bound p (degN L) = Ok bound /\
    Open.run ck p fuel rng xv = Ok (resp, entries_within (Open.resp_z resp) bound).
Proof.
  intros Hr Hn Hl Hk Ha1 Ha2 H.
  destruct s1 as [[rctx com] rng1].
  unfold Open.run. rewrite H. cbn [bind].
  unfold Open.commit in H.
  destruct (Commit.commit ck fuel rng xv p) as [[[op cm] rngc]| |] eqn:E1; cbn [bind] in H;
    try discriminate H.
  destruct (new_with (k p) 1 (normal_gen p) rngc) as [[yv rngy]| |] eqn:E2; cbn [bind] in H;
    try discriminate H.
  destruct (dot (Commit.a1 ck) yv) as [a1y| |] eqn:E3; cbn [bind] in H; try discriminate H.
  destruct (one_d_mat_to_vec a1y) as [tv| |] eqn:E4; cbn [bind] in H; try discriminate H.
  injection H as <- <- <-.
  destruct (commit_mk _ _ _ _ _ _ _ _ A1 A2 Hn Hl Hk Ha1 Ha2 E1) as (Hlen & Hx & Hrop & Hok & Hc).
  destruct (verify_bound_of_commit _ _ Hok) as [bound Hb].
  apply new_with_shaped, shaped_mk in E2.
  rewrite Ha1, E2, dot_mk in E3 by lia. injection E3 as <-.
  rewrite one_d_mk in E4. injection E4 as <-.
  set (Rf := entry (Commit.r op)) in *. set (Y := entry yv) in *.
  unfold Open.generate_challenge. destruct (Commit.challenge_poly _ p) as [dd rngd].
  cbn [Open.com_c]. rewrite Hc. cbn [bind].
  unfold Open.create_response. cbn [Open.rc_y Open.rc_opening Open.ch_d].
  rewrite E2, Hrop, cmul_mk, add_mk by lia. cbn [bind].
  unfold Open.verify. cbn [Open.resp_z Open.vc_t Open.vc_c1 Open.vc_d].
  rewrite (CommitFacts.verify_constraint_ok _ _ _ Hb). cbn [bind].
  match goal with |- context [entries_within ?z bound] =>
    exists {| Open.resp_z := z |}, bound end.
  split; [exact Hb|]. cbn [Open.resp_z].
  destruct (entries_within _ bound); cbn [negb bind]; [|reflexivity].
  rewrite ?Ha1, dot_mk by lia. cbn [bind].
  cbn [Open.com_t]. rewrite from_vec_map_seq, cmul_mk, add_mk by lia. cbn [bind].
  rewrite mat_eqb_mk; [reflexivity|exact Hr|].
  intros i j Hi Hj. assert (j = 0%nat) as -> by lia.
  rewrite !lsum_isum. apply isum_response.
Qed.

Lemma linear_run_ok (ck : @Commit.CommitmentKey L) (p : Params) (fuel : nat) (rng : Rng)
  (g : R) (xv : list R) (A1 A2 : nat -> nat -> R) s1 :
  (forall e, peqb L e e = true) ->
  (1 <= n p)%nat -> (1 <= l p)%nat -> (1 <= k p)%nat ->
  Commit.a1 ck = mk (n p) (k p) A1 -> Commit.a2 ck = mk (l p) (k p) A2 ->
  Linear.commit ck p fuel rng g xv = Ok s1 ->
  exists resp bound, verify_bound p (degN L) = Ok bound /\
    Linear.run ck p fuel rng g xv
    = Ok (resp, entries_within (Linear.resp_z resp) bound
                && entries_within (Linear.resp_zp resp) bound).
Proof.
  intros Hr Hn Hl Hk Ha1 Ha2 H.
  destruct s1 as [[rctx com] rng1].
  unfold Linear.run. rewrite H. cbn [bind].
  unfold Linear.commit in H.
  destruct (Commit.commit ck fuel rng _ p) as [[[opp cp] rngc]| |] eqn:E1; cbn [bind] in H;
    try discriminate H.
  destruct (Commit.commit ck fuel rngc xv p) as [[[op cm] rngc']| |] eqn:E1'; cbn [bind] in H;
    try discriminate H.
  destruct (new_with (k p) 1 (normal_gen p) rngc') as [[yv rngy]| |] eqn:E2; cbn [bind] in H;
    try discriminate H.
  destruct (new_with (k p) 1 (normal_gen p) rngy) as [[ypv rngy']| |] eqn:E2'; cbn [bind] in H;
    try discriminate H.
  destruct (dot (Commit.a1 ck) yv) as [a1y| |] eqn:E3; cbn [bind] in H; try discriminate H.
  destruct (one_d_mat_to_vec a1y) as [tv| |] eqn:E4; cbn [bind] in H; try discriminate H.
  destruct (dot (Commit.a1 ck) ypv) as [a1yp| |] eqn:E3'; cbn [bind] in H; try discriminate H.
  destruct (one_d_mat_to_vec a1yp) as [tpv| |] eqn:E4'; cbn [bind] in H; try discriminate H.
  destruct (dot (Commit.a2 ck) yv) as [a2y| |] eqn:E5; cbn [bind] in H; try discriminate H.
  destruct (dot (Commit.a2 ck) ypv) as [a2yp| |] eqn:E5'; cbn [bind] in H; try discriminate H.
  destruct (sub (componentwise_mul a2y g) a2yp) as [uv| |] eqn:E6; cbn [bind] in H;
    try discriminate H.
  injection H as <- <- <-.
  destruct (commit_mk _ _ _ _ _ _ _ _ A1 A2 Hn Hl Hk Ha1 Ha2 E1)
    as (Hlenp & Hxp & Hropp & Hokp & Hcp).
  destruct (commit_mk _ _ _ _ _ _ _ _ A1 A2 Hn Hl Hk Ha1 Ha2 E1')
    as (Hlen & Hx & Hrop & Hok & Hc).
  destruct (verify_bound_of_commit _ _ Hok) as [bound Hb].
  apply new_with_shaped, shaped_mk in E2, E2'.
  rewrite Ha1, E2, dot_mk in E3 by lia. injection E3 as <-.
  rewrite one_d_mk in E4. injection E4 as <-.
  rewrite Ha1, E2', dot_mk in E3' by lia. injection E3' as <-.
  rewrite one_d_mk in E4'. injection E4' as <-.
  rewrite Ha2, E2, dot_mk in E5 by lia. injection E5 as <-.
  rewrite Ha2, E2', dot_mk in E5' by lia. injection E5' as <-.
  rewrite cmul_mk, sub_mk in E6 by lia. injection E6 as <-.
  set (Rf := entry (Commit.r op)) in *. set (RPf := entry (Commit.r opp)) in *.
  set (Y := entry yv) in *. set (YP := entry ypv) in *.
  unfold Linear.generate_challenge. destruct (Commit.challenge_poly _ p) as [dd rngd].
  cbn [Linear.com_c Linear.com_cp]. rewrite Hc. cbn [bind]. rewrite Hcp. cbn [bind].
  unfold Linear.create_response.
  cbn [Linear.rc_y Linear.rc_yp Linear.rc_opening Linear.rc_opening_p Linear.ch_d].
  rewrite E2, Hrop, cmul_mk, add_mk by lia. cbn [bind].
  rewrite E2', Hropp, cmul_mk, add_mk by lia. cbn [bind].
  unfold Linear.verify.
  cbn [Linear.resp_z Linear.resp_zp Linear.vc_t Linear.vc_tp Linear.vc_c1 Linear.vc_c1p
       Linear.vc_c2 Linear.vc_c2p Linear.vc_g Linear.vc_u Linear.vc_d
       Linear.com_t Linear.com_tp Linear.com_g Linear.com_u].
  rewrite !(CommitFacts.verify_constraint_ok _ _ _ Hb). cbn [bind].
  match goal with |- context [entries_within ?z bound] =>
    match goal with |- context [entries_within ?zp bound] =>
      match zp with z => fail 1 | _ =>
        exists {| Linear.resp_z := z; Linear.resp_zp := zp |}, bound end end end.
  split; [exact Hb|]. cbn [Linear.resp_z Linear.resp_zp].
  destruct (entries_within _ bound); cbn [negb bind andb]; [|reflexivity].
  destruct (entries_within _ bound); cbn [negb bind]; [|reflexivity].
  rewrite ?Ha1, dot_mk by lia. cbn [bind].
  rewrite from_vec_map_seq, cmul_mk, add_mk by lia. cbn [bind].
  rewrite mat_eqb_mk; [cbn [negb]|exact Hr|].
  2:{ intros i j Hi Hj. assert (j = 0%nat) as -> by lia.
      rewrite !lsum_isum. apply isum_response. }
  rewrite ?Ha1, dot_mk by lia. cbn [bind].
  rewrite from_vec_map_seq, cmul_mk, add_mk by lia. cbn [bind].
  rewrite mat_eqb_mk; [cbn [negb]|exact Hr|].
  2:{ intros i j Hi Hj. assert (j = 0%nat) as -> by lia.
      rewrite !lsum_isum. apply isum_response. }
  rewrite ?Ha2, dot_mk by lia. cbn [bind].
  rewrite ?Ha2, dot_mk by lia. cbn [bind].
  rewrite cmul_mk, sub_mk by lia. cbn [bind].
  rewrite cmul_mk, sub_mk by lia. cbn [bind].
  rewrite cmul_mk, add_mk by lia. cbn [bind].
  rewrite mat_eqb_mk; [reflexivity|exact Hr|].
  intros i j Hi Hj. assert (j = 0%nat) as -> by lia.
  rewrite (nth_map_lt (fun xi => pmul L xi g) xv i (pzero L) (pzero L)) by lia.
  rewrite !lsum_isum, !isum_response. ring.
Qed.

Lemma foldM_add_seq {A : Type} (F : nat -> nat -> nat -> R) (g : A -> res (@Mat L))
  (it : nat -> A) (m n0 : nat) (c s : nat) (G : nat -> nat -> R) :
  (1 <= m)%nat ->
  (forall i, (s <= i < s + c)%nat -> g (it i) = Ok (mk m n0 (F i))) ->
  foldM (fun acc a => m' <- g a ;; add acc m') (map it (seq s c)) (mk m n0 G)
  = Ok (mk m n0 (fun r0 j => padd L (G r0 j) (isum_from s c (fun i => F i r0 j)))).
Proof.
  intros Hm. revert s G; induction c as [|c IH]; intros s G Hg; cbn [seq map foldM].
  - f_equal. apply mk_ext. intros i j _ _. cbn. ring.
  - rewrite Hg by lia. cbn [bind]. rewrite add_mk by exact Hm. cbn [bind].
    rewrite IH by (intros; apply Hg; lia). f_equal. apply mk_ext. intros i j _ _.
    rewrite isum_from_cons. ring.
Qed.

Lemma reduce_add_seq {A : Type} (F : nat -> nat -> nat -> R) (g : A -> res (@Mat L))
  (it : nat -> A) (m n0 cnt : nat) :
  (1 <= m)%nat -> (1 <= cnt)%nat ->
  (forall i, (i < cnt)%nat -> g (it i) = Ok (mk m n0 (F i))) ->
  reduce_add g (map it (seq 0 cnt)) = Ok (mk m n0 (fun r0 j => isum cnt (fun i => F i r0 j))).
Proof.
  intros Hm Hc Hg. destruct cnt as [|c]; [lia|]. cbn [seq map reduce_add].
  rewrite Hg by lia. cbn [bind]. rewrite (foldM_add_seq F) by (auto || (intros; apply Hg; lia)).
  f_equal.
Qed.

(** the third check of the Sum verifier, row by row: with [z_i = y_i + r_i d],
    [zp = yp + rp d], [c2_i = A2 r_i + x_i] and [c2p = A2 rp + sum_i x_i g_i] *)
Lemma sum_identity (m : nat) (Zi Ci Ti a b x G : nat -> R) (zp c2p yp rp d : R) :
  (forall i, (i < m)%nat -> Zi i = padd L (a i) (pmul L (b i) d)) ->
  (forall i, (i < m)%nat -> Ci i = padd L (b i) (x i)) ->
  (forall i, (i < m)%nat -> Ti i = a i) ->
  zp = padd L yp (pmul L rp d) ->
  c2p = padd L rp (isum m (fun i => pmul L (x i) (G i))) ->
  psub L (isum m (fun i => pmul L (Zi i) (G i))) zp
  = padd L (pmul L (psub L (isum m (fun i => pmul L (Ci i) (G i))) c2p) d)
      (psub L (isum m (fun i => pmul L (Ti i) (G i))) yp).
Proof.
  intros HZ HC HT -> ->.
  rewrite (isum_ext m _ (fun i => padd L (pmul L (a i) (G i)) (pmul L (pmul L (b i) (G i)) d)))
    by (intros i Hi; rewrite HZ by exact Hi; ring).
  rewrite (isum_ext m (fun i => pmul L (Ci i) (G i))
             (fun i => padd L (pmul L (b i) (G i)) (pmul L (x i) (G i))))
    by (intros i Hi; rewrite HC by exact Hi; ring).
  rewrite (isum_ext m (fun i => pmul L (Ti i) (G i)) (fun i => pmul L (a i) (G i)))
    by (intros i Hi; rewrite HT by exact Hi; reflexivity).
  rewrite !isum_add, isum_mulr. ring.
Qed.

Lemma sum_run_ok (ck : @Commit.CommitmentKey L) (p : Params) (fuel : nat) (rng : Rng)
  (gs : list R) (xs : list (list R)) (A1 A2 : nat -> nat -> R) s1 :
  (forall e, peqb L e e = true) ->
  (1 <= n p)%nat -> (1 <= l p)%nat -> (1 <= k p)%nat ->
  Commit.a1 ck = mk (n p) (k p) A1 -> Commit.a2 ck = mk (l p) (k p) A2 ->
  Sum.commit ck p fuel rng gs xs = Ok s1 ->
  exists resp bound, verify_bound p (degN L) = Ok bound /\
    Sum.run ck p fuel rng gs xs
    = Ok (resp, forallb (fun z => entries_within z bound) (Sum.resp_zs resp)
                && entries_within (Sum.resp_zp resp) bound).
Proof.
  intros Hr Hn Hl Hk Ha1 Ha2 H.
  destruct s1 as [[rctx com] rng1].
  unfold Sum.run. rewrite H. cbn [bind].
  unfold Sum.commit in H.
  destruct (assert _ _) as [[]| |] eqn:E0; cbn [bind] in H; try discriminate H.
  apply LengthFacts.assert_ok, andb_true_iff in E0 as [Hne Hlen].
  apply negb_true_iff, Nat.eqb_neq in Hne. apply Nat.eqb_eq in Hlen.
  set (m := length gs) in *.
  destruct (reduce_add _ (combine (map from_vec xs) gs)) as [xpm| |] eqn:E1; cbn [bind] in H;
    try discriminate H.
  destruct (one_d_mat_to_vec xpm) as [xp| |] eqn:E2; cbn [bind] in H; try discriminate H.
  destruct (Commit.commit ck fuel rng xp p) as [[[opp cp] rngc]| |] eqn:E3; cbn [bind] in H;
    try discriminate H.
  destruct (Sum.commit_all ck p fuel rngc xs) as [[[os cs] rnga]| |] eqn:E4; cbn [bind] in H;
    try discriminate H.
  destruct (repeat_draw m (new_with (k p) 1 (normal_gen p)) rnga) as [[ys rngy]| |] eqn:E5;
    cbn [bind] in H; try discriminate H.
  destruct (new_with (k p) 1 (normal_gen p) rngy) as [[ypv rngy']| |] eqn:E6; cbn [bind] in H;
    try discriminate H.
  destruct (mapM _ ys) as [ts| |] eqn:E7; cbn [bind] in H; try discriminate H.
  destruct (dot (Commit.a1 ck) ypv) as [a1yp| |] eqn:E8; cbn [bind] in H; try discriminate H.
  destruct (one_d_mat_to_vec a1yp) as [tpv| |] eqn:E9; cbn [bind] in H; try discriminate H.
  destruct (reduce_add _ (combine gs ys)) as [su| |] eqn:E10; cbn [bind] in H;
    try discriminate H.
  destruct (dot (Commit.a2 ck) ypv) as [a2yp| |] eqn:E11; cbn [bind] in H; try discriminate H.
  destruct (sub su a2yp) as [uv| |] eqn:E12; cbn [bind] in H; try discriminate H.
  injection H as <- <- <-.
  assert (Hm1 : (1 <= m)%nat) by lia.
  (* the commitments to the [x_i] *)
  set (dO := @Commit.Build_Opening L [] [] None). set (dC := @Commit.Build_Commitment L []).
  destruct (commit_all_nth _ _ _ _ _ _ _ _ dO dC E4) as (Hos & Hcs & Hcom).
  set (X := fun i => nth i xs []). set (G := fun i => nth i gs (pzero L)).
  set (Rs := fun i => entry (Commit.r (nth i os dO))).
  assert (HX : forall i, (i < m)%nat ->
    length (X i) = l p /\ Commit.r (nth i os dO) = mk (k p) 1 (Rs i) /\
    Commit.c1_c2 (nth i cs dC) p
    = Ok (mk (n p) 1 (fun r0 j => isum (k p) (fun kk => pmul L (A1 r0 kk) (Rs i kk j))),
          mk (l p) 1 (fun r0 j => padd L (isum (k p) (fun kk => pmul L (A2 r0 kk) (Rs i kk j)))
                                    (nth r0 (X i) (pzero L))))).
  { intros i Hi. destruct (Hcom i ltac:(lia)) as (ra & rb & Hc).
    destruct (commit_mk _ _ _ _ _ _ _ _ A1 A2 Hn Hl Hk Ha1 Ha2 Hc) as (H1 & _ & H3 & _ & H5).
    split; [exact H1|]. split; [exact H3|exact H5]. }
  assert (Hxs : xs = map X (seq 0 m)) by (apply list_as_seq; lia).
  assert (Hgs : gs = map G (seq 0 m)) by (apply list_as_seq; reflexivity).
  assert (Hoss : os = map (fun i => nth i os dO) (seq 0 m)) by (apply list_as_seq; lia).
  assert (Hcss : cs = map (fun i => nth i cs dC) (seq 0 m)) by (apply list_as_seq; lia).
  (* [xp = sum_i g_i x_i] *)
  assert (Hxpm : xpm = mk (l p) 1 (fun r0 _ => isum m (fun i => pmul L (nth r0 (X i) (pzero L)) (G i)))).
  { rewrite Hxs, Hgs, map_map, combine_map_seq in E1.
    rewrite (reduce_add_seq (fun i r0 _ => pmul L (nth r0 (X i) (pzero L)) (G i)) _ _ (l p) 1 m)
      in E1.
    - injection E1 as <-. reflexivity.
    - exact Hl.
    - exact Hm1.
    - intros i Hi. cbv beta iota. rewrite from_vec_mk, (proj1 (HX i Hi)), cmul_mk. reflexivity. }
  subst xpm. rewrite one_d_mk in E2. injection E2 as <-.
  destruct (commit_mk _ _ _ _ _ _ _ _ A1 A2 Hn Hl Hk Ha1 Ha2 E3) as (Hlxp & _ & Hropp & Hokp & Hcp).
  destruct (verify_bound_of_commit _ _ Hokp) as [bound Hb].
  set (RP := entry (Commit.r opp)) in *.
  (* the masks [y_i] and [yp] *)
  apply (repeat_draw_spec (shaped (k p) 1)) in E5 as [Hlys Hys];
    [|intros r0 a r1 Ha; exact (new_with_shaped _ _ _ _ _ _ Ha)].
  set (Yf := fun i => entry (nth i ys [])).
  assert (Hyss : ys = map (fun i => mk (k p) 1 (Yf i)) (seq 0 m)).
  { rewrite (list_as_seq ys m [] Hlys) at 1. apply map_ext_in. intros i Hi. apply in_seq in Hi.
    apply shaped_mk. rewrite Forall_forall in Hys. apply Hys, nth_In. lia. }
  apply new_with_shaped, shaped_mk in E6. set (YP := entry ypv) in *.
  assert (Hts : ts = map (fun i => map (fun r0 => lsum (k p) (fun kk => pmul L (A1 r0 kk) (Yf i kk 0%nat)))
                                       (seq 0 (n p))) (seq 0 m)).
  { rewrite Hyss in E7.
    rewrite (mapM_seq _ _ (fun i => map (fun r0 => lsum (k p) (fun kk => pmul L (A1 r0 kk) (Yf i kk 0%nat)))
                                       (seq 0 (n p)))) in E7.
    - injection E7 as <-. reflexivity.
    - intros i Hi. cbv beta. rewrite Ha1, dot_mk by lia. cbn [bind]. rewrite one_d_mk. reflexivity. }
  rewrite Ha1, E6, dot_mk in E8 by lia. injection E8 as <-.
  rewrite one_d_mk in E9. injection E9 as <-.
  assert (Hsu : su = mk (l p) 1 (fun r0 j => isum m (fun i =>
                        pmul L (lsum (k p) (fun kk => pmul L (A2 r0 kk) (Yf i kk j))) (G i)))).
  { rewrite Hgs, Hyss, combine_map_seq in E10.
    rewrite (reduce_add_seq (fun i r0 j =>
               pmul L (lsum (k p) (fun kk => pmul L (A2 r0 kk) (Yf i kk j))) (G i)) _ _ (l p) 1 m)
      in E10.
    - injection E10 as <-. reflexivity.
    - exact Hl.
    - exact Hm1.
    - intros i Hi. cbv beta iota. rewrite Ha2, dot_mk by lia. cbn [bind]. rewrite cmul_mk.
      reflexivity. }
  subst su.
  rewrite Ha2, E6, dot_mk in E11 by lia. injection E11 as <-.
  rewrite sub_mk in E12 by lia. injection E12 as <-.
  (* the challenge *)
  unfold Sum.generate_challenge. destruct (Commit.challenge_poly _ p) as [dd rngd].
  cbn [Sum.com_cs Sum.com_cp Sum.com_gs Sum.com_tp Sum.com_ts Sum.com_u].
  rewrite Hcss, (mapM_seq _ _ (fun i =>
    (mk (n p) 1 (fun r0 j => isum (k p) (fun kk => pmul L (A1 r0 kk) (Rs i kk j))),
     mk (l p) 1 (fun r0 j => padd L (isum (k p) (fun kk => pmul L (A2 r0 kk) (Rs i kk j)))
                               (nth r0 (X i) (pzero L)))))) by (intros i Hi; apply (HX i Hi)).
  cbn [bind]. rewrite Hcp. cbn [bind].
  (* the response *)
  unfold Sum.create_response.
  cbn [Sum.rc_ys Sum.rc_openings Sum.rc_yp Sum.rc_opening_p Sum.ch_d].
  rewrite Hyss, Hoss, combine_map_seq.
  rewrite (mapM_seq _ _ (fun i => mk (k p) 1 (fun kk j => padd L (Yf i kk j) (pmul L (Rs i kk j) dd)))).
  2:{ intros i Hi. cbv beta iota. rewrite (proj1 (proj2 (HX i Hi))), cmul_mk, add_mk by lia.
      reflexivity. }
  cbn [bind]. rewrite E6, Hropp, cmul_mk, add_mk by lia. cbn [bind].
  (* the verifier *)
  unfold Sum.verify.
  cbn [Sum.resp_zs Sum.resp_zp Sum.vc_ts Sum.vc_cs Sum.vc_gs Sum.vc_tp Sum.vc_c1p Sum.vc_c2p
       Sum.vc_u Sum.vc_d].
  rewrite (allM_verify _ _ _ Hb). cbn [bind].
  rewrite (CommitFacts.verify_constraint_ok _ _ _ Hb). cbn [bind].
  match goal with |- context [forallb _ ?zs] => set (zsL := zs) end.
  match goal with |- context [entries_within ?zp bound] => set (zpL := zp) end.
  exists {| Sum.resp_zp := zpL; Sum.resp_zs := zsL |}, bound. split; [exact Hb|].
  cbn [Sum.resp_zs Sum.resp_zp].
  destruct (forallb _ zsL); cbn [negb bind andb]; [|reflexivity].
  destruct (entries_within zpL bound); cbn [negb bind]; [|reflexivity].
  subst zsL zpL. rewrite Ha1, Ha2.
  rewrite !length_map, !length_seq, Hts, length_map, length_seq, Nat.eqb_refl. cbn [negb andb].
  (* A1 z_i = t_i + c1_i d *)
  rewrite (mapM_seq _ _ (fun i => mk (n p) 1 (fun r0 j => lsum (k p) (fun kk =>
             pmul L (A1 r0 kk) (padd L (Yf i kk j) (pmul L (Rs i kk j) dd))))))
    by (intros i Hi; apply dot_mk; lia).
  cbn [bind]. rewrite combine_map_seq.
  rewrite (mapM_seq _ _ (fun i => mk (n p) 1 (fun r0 j =>
             padd L (lsum (k p) (fun kk => pmul L (A1 r0 kk) (Yf i kk 0%nat)))
                    (pmul L (isum (k p) (fun kk => pmul L (A1 r0 kk) (Rs i kk j))) dd)))).
  2:{ intros i Hi. cbv beta iota. rewrite from_vec_map_seq, cmul_mk, add_mk by lia. reflexivity. }
  cbn [bind]. rewrite list_eqb_map_seq.
  2:{ intros i Hi. apply mat_eqb_mk; [exact Hr|]. intros r0 j Hr0 Hj. assert (j = 0%nat) as -> by lia.
      rewrite !lsum_isum. apply isum_response. }
  cbn [negb].
  (* A1 zp = tp + c1p d *)
  rewrite dot_mk by lia. cbn [bind].
  rewrite from_vec_map_seq, cmul_mk, add_mk by lia. cbn [bind].
  rewrite mat_eqb_mk; [cbn [negb]|exact Hr|].
  2:{ intros i j Hi Hj. assert (j = 0%nat) as -> by lia. rewrite !lsum_isum. apply isum_response. }
  (* sum_i g_i A2 z_i - A2 zp = (sum_i g_i c2_i - c2p) d + u *)
  rewrite Hgs, combine_map_seq.
  rewrite (reduce_add_seq (fun i r0 j => pmul L (lsum (k p) (fun kk =>
             pmul L (A2 r0 kk) (padd L (Yf i kk j) (pmul L (Rs i kk j) dd)))) (G i)) _ _ (l p) 1 m)
    by (exact Hl || exact Hm1 ||
        (intros i Hi; cbv beta iota; rewrite dot_mk by lia; cbn [bind]; rewrite cmul_mk;
         reflexivity)).
  cbn [bind]. rewrite dot_mk by lia. cbn [bind]. rewrite sub_mk by lia. cbn [bind].
  rewrite combine_map_seq.
  rewrite (reduce_add_seq (fun i r0 j => pmul L (padd L
             (isum (k p) (fun kk => pmul L (A2 r0 kk) (Rs i kk j))) (nth r0 (X i) (pzero L))) (G i))
             _ _ (l p) 1 m)
    by (exact Hl || exact Hm1 || (intros i Hi; cbv beta iota; rewrite cmul_mk; reflexivity)).
  cbn [bind]. rewrite sub_mk by lia. cbn [bind]. rewrite cmul_mk, add_mk by lia. cbn [bind].
  rewrite mat_eqb_mk; [reflexivity|exact Hr|].
  intros r0 j Hr0 Hj. assert (j = 0%nat) as -> by lia.
  eapply sum_identity.
  - intros i Hi. rewrite lsum_isum. apply isum_response.
  - intros i Hi. reflexivity.
  - intros i Hi. apply lsum_isum.
  - rewrite !lsum_isum. apply isum_response.
  - rewrite (nth_map_seq _ (l p) r0 (pzero L) Hr0). reflexivity.
Qed.

End Alg.

End MatForm.

(** [Z1] is a commutative ring whose equality test decides [=] *)
Lemma Z1_laws : RingLaws Concrete.Z1.
Proof. split; [exact Zth|]. intros a c. apply Z.eqb_eq. Qed.

(** * The claims *)

Import ChallengeFacts ChallengeCounts DifferenceFacts.

(** ** C5: the shape of a challenge *)

(** C5 (counterexample): with [kappa = 0 <= N = 4] the challenge is the zero
    polynomial, whose [norm_infinity] is [0], not [1]. *)
Lemma C5_kappa_zero_counterexample :
  let cs := fst (Challenge.random_polynomial_from_challenge_set 4 [] 0) in
  (0 <= 4)%nat /\ cs = [0; 0; 0; 0]%Z /\ Norms.norm_1 cs = 0%Z
  /\ Norms.norm_infinity cs = Ok 0%Z /\ Norms.norm_infinity cs <> Ok 1%Z.
Proof. vm_compute. repeat split; try reflexivity; try discriminate; lia. Qed.

(** C5 (amended): for every RNG state and every [kappa <= N] the challenge
    has length [N], exactly [kappa] coefficients equal to [1] or [-1] and
    [N - kappa] equal to [0]; so [norm_1 = kappa], and [norm_infinity = 1]
    provided [kappa >= 1]. *)
Theorem challenge_set_shape (N kappa0 : nat) (rng : Rng) :
  (kappa0 <= N)%nat ->
  let cs := fst (Challenge.random_polynomial_from_challenge_set N rng kappa0) in
  length cs = N
  /\ length (filter (fun c => Z.abs c =? 1)%Z cs) = kappa0
  /\ length (filter (fun c => c =? 0)%Z cs) = (N - kappa0)%nat
  /\ Norms.norm_1 cs = Z.of_nat kappa0
  /\ ((1 <= kappa0)%nat -> Norms.norm_infinity cs = Ok 1%Z).
Proof.
  intros Hk cs.
  destruct (challenge_perm N kappa0 rng) as [signs [HP [Hl Hf]]].
  destruct (challenge_entries N kappa0 rng) as [Hr Hlen].
  fold cs in HP, Hr, Hlen.
  destruct (filter_signs signs Hf) as [Hs1 Hs2].
  destruct (filter_zeros (N - kappa0)) as [Hz1 Hz2].
  repeat split.
  - exact Hlen.
  - rewrite <- (perm_filter_length _ _ _ HP), filter_app, length_app, Hs1, Hz1.
    simpl. lia.
  - rewrite <- (perm_filter_length _ _ _ HP), filter_app, length_app, Hs2, Hz2.
    reflexivity.
  - rewrite <- (norm_1_perm _ _ HP), norm_1_app, norm_1_signs, norm_1_repeat0 by exact Hf.
    lia.
  - intros H1. apply norm_infinity_one; [exact Hr|].
    destruct signs as [|s0 signs']; [simpl in Hl; lia|].
    exists s0. split.
    + apply (Permutation_in _ HP). left. reflexivity.
    + inversion Hf; assumption.
Qed.

Lemma challenge_set_shape_witness :
  (2 <= 4)%nat /\
  (let cs := fst (Challenge.random_polynomial_from_challenge_set 4 [3; 8; 1; 2; 5]%Z 2) in
   length cs = 4%nat
   /\ length (filter (fun c => Z.abs c =? 1)%Z cs) = 2%nat
   /\ length (filter (fun c => c =? 0)%Z cs) = (4 - 2)%nat
   /\ Norms.norm_1 cs = Z.of_nat 2
   /\ ((1 <= 2)%nat -> Norms.norm_infinity cs = Ok 1%Z)).
Proof. split; [lia | apply (challenge_set_shape 4 2 [3; 8; 1; 2; 5]%Z); lia]. Defined.

(** ** C6: the standard deviation *)

(** C6: [standard_deviation] returns [b * (11 kappa) * isqrt(k N)] (integer
    square root [Z.sqrt]) whenever no [usize] step overflows and [b] fits a
    [usize], and panics otherwise; with [b = 1], [kappa = 36], [k = 3] and
    [N = 1024] it is [21780]. *)
Theorem standard_deviation_formula :
  (forall (p : Params) (deg_n : nat) (s : Z),
     standard_deviation p deg_n = Ok s <->
     (0 <= b p <= usize_max
      /\ 11 * Z.of_nat (kappa p) <= usize_max
      /\ b p * (11 * Z.of_nat (kappa p)) <= usize_max
      /\ Z.of_nat (k p) * Z.of_nat deg_n <= usize_max
      /\ b p * (11 * Z.of_nat (kappa p)) * Z.sqrt (Z.of_nat (k p) * Z.of_nat deg_n)
           <= usize_max
      /\ s = b p * (11 * Z.of_nat (kappa p)) * Z.sqrt (Z.of_nat (k p) * Z.of_nat deg_n))%Z)
  /\ (forall (q0 : Z) (n0 l0 : nat),
        standard_deviation (mkParams q0 1 n0 3 l0 36) 1024 = Ok 21780%Z).
Proof.
  split.
  - intros p deg_n s. unfold standard_deviation.
    split.
    + intros E.
      apply bind_ok in E as [bu [Hb E]]. apply to_usize_ok in Hb as [Hb ->].
      apply bind_ok in E as [t1 [H1 E]]. apply usize_mul_ok in H1 as [H1 ->].
      apply bind_ok in E as [t2 [H2 E]]. apply usize_mul_ok in H2 as [H2 ->].
      apply bind_ok in E as [t3 [H3 E]]. apply usize_mul_ok in H3 as [H3 ->].
      apply usize_mul_ok in E as [H4 ->].
      repeat split; lia.
    + intros (Hb & H1 & H2 & H3 & H4 & ->).
      rewrite (proj2 (to_usize_ok (b p) (b p)) (conj Hb eq_refl)). cbn [bind].
      rewrite (proj2 (usize_mul_ok _ _ _) (conj H1 eq_refl)). cbn [bind].
      rewrite (proj2 (usize_mul_ok _ _ _) (conj H2 eq_refl)). cbn [bind].
      rewrite (proj2 (usize_mul_ok _ _ _) (conj H3 eq_refl)). cbn [bind].
      rewrite (proj2 (usize_mul_ok _ _ _) (conj H4 eq_refl)). reflexivity.
  - intros q0 n0 l0. vm_compute. reflexivity.
Qed.

(** ** C7: the shape of a challenge difference *)

(** C7: whenever the difference sampler returns (its loop has exited), every
    coefficient of [c1 - c2] lies in [[-2, 2]] and some coefficient is
    non-zero. *)
Theorem challenge_difference_shape (fuel N kappa0 : nat) (rng rng' : Rng) (d : list Z) :
  Challenge.random_polynomial_from_challenge_set_difference fuel N rng kappa0 = Ok (d, rng') ->
  Forall (fun c => -2 <= c <= 2)%Z d /\ existsb (fun c => negb (c =? 0)%Z) d = true.
Proof.
  unfold Challenge.random_polynomial_from_challenge_set_difference.
  pose proof (challenge_entries N kappa0 rng) as [Hr1 Hl1].
  destruct (Challenge.random_polynomial_from_challenge_set N rng kappa0) as [c1 rng1].
  simpl in Hr1, Hl1. intros E.
  destruct (difference_loop_ok _ _ _ _ _ _ _ E) as [rng0 [Hne ->]].
  pose proof (challenge_entries N kappa0 rng0) as [Hr2 Hl2].
  split.
  - apply poly_sub_range; assumption.
  - apply poly_sub_nonzero; [congruence | exact Hne].
Qed.

Lemma challenge_difference_shape_witness :
  Challenge.random_polynomial_from_challenge_set_difference 5 4
    [3; 8; 1; 2; 5; 6; 7; 9; 4; 11; 13]%Z 2 = Ok ([1; -1; 1; 1]%Z, [])
  /\ Forall (fun c => -2 <= c <= 2)%Z [1; -1; 1; 1]%Z
  /\ existsb (fun c => negb (c =? 0)%Z) [1; -1; 1; 1]%Z = true.
Proof.
  assert (E : Challenge.random_polynomial_from_challenge_set_difference 5 4
    [3; 8; 1; 2; 5; 6; 7; 9; 4; 11; 13]%Z 2 = Ok ([1; -1; 1; 1]%Z, [])) by (vm_compute; reflexivity).
  split; [exact E | exact (challenge_difference_shape 5 4 2 _ [] _ E)].
Defined.

(** ** C10: [kappa > N] *)

(** C10: for [kappa > N] the sampler still returns, and its result has all
    [N] coefficients in [{1, -1}], so [norm_1 = N < kappa]; and
    [OpenProofVerifier::generate_challenge] hands this polynomial out as the
    challenge without any check of [kappa] (for every ring with [N]
    coefficients and every commitment with at least [n] rows). *)
Theorem challenge_set_kappa_above_N (N kappa0 : nat) (rng : Rng) :
  (N < kappa0)%nat ->
  let cs := fst (Challenge.random_polynomial_from_challenge_set N rng kappa0) in
  length cs = N
  /\ Forall (fun c => c = 1%Z \/ c = (-1)%Z) cs
  /\ Norms.norm_1 cs = Z.of_nat N
  /\ Norms.norm_1 cs <> Z.of_nat kappa0
  /\ (forall (L : RingLib) (p : Params) (com : @Open.OpenProofCommitment L),
        degN L = N -> kappa p = kappa0 ->
        (n p <= length (Commit.c (Open.com_c com)))%nat ->
        exists vctx ch rng',
          Open.generate_challenge p rng com = Ok (vctx, ch, rng')
          /\ Open.vc_d vctx = from_coeffs L cs /\ Open.ch_d ch = from_coeffs L cs).
Proof.
  intros Hk cs.
  destruct (challenge_perm N kappa0 rng) as [signs [HP [Hl Hf]]].
  fold cs in HP.
  replace (N - kappa0)%nat with O in HP by lia. rewrite app_nil_r in HP.
  assert (Hn1 : Norms.norm_1 cs = Z.of_nat N).
  { rewrite <- (norm_1_perm _ _ HP), norm_1_signs by exact Hf. f_equal. lia. }
  repeat split.
  - rewrite <- (Permutation_length HP). lia.
  - exact (Permutation_Forall HP Hf).
  - exact Hn1.
  - rewrite Hn1. lia.
  - intros L p com HN Hkp Hrows.
    unfold Open.generate_challenge, Commit.challenge_poly, Commit.c1_c2, split_rows.
    rewrite HN, Hkp. unfold cs.
    destruct (Challenge.random_polynomial_from_challenge_set N rng kappa0) as [cs0 rng1].
    simpl.
    apply Nat.leb_le in Hrows. rewrite Hrows. simpl.
    do 3 eexists. split; [reflexivity|]. split; reflexivity.
Qed.

Lemma challenge_set_kappa_above_N_witness :
  (2 < 5)%nat /\
  (let cs := fst (Challenge.random_polynomial_from_challenge_set 2 [4; 9; 2]%Z 5) in
   length cs = 2%nat
   /\ Forall (fun c => c = 1%Z \/ c = (-1)%Z) cs
   /\ Norms.norm_1 cs = Z.of_nat 2
   /\ Norms.norm_1 cs <> Z.of_nat 5
   /\ (forall (L : RingLib) (p : Params) (com : @Open.OpenProofCommitment L),
        degN L = 2%nat -> kappa p = 5%nat ->
        (n p <= length (Commit.c (Open.com_c com)))%nat ->
        exists vctx ch rng',
          Open.generate_challenge p [4; 9; 2]%Z com = Ok (vctx, ch, rng')
          /\ Open.vc_d vctx = from_coeffs L cs /\ Open.ch_d ch = from_coeffs L cs)).
Proof. split; [lia | apply (challenge_set_kappa_above_N 2 5 [4; 9; 2]%Z); lia]. Defined.

(** ** C1 and C9: the length checks of [SumProofVerifier::verify] *)

Import Inputs.

(** the key used by the concrete runs is a fresh [CommitmentKey::new] key *)
Lemma ck4_fresh : Commit.new ck_tape default_params = Ok (ck4, []).
Proof. vm_compute (Commit.new ck_tape default_params). vm_compute ck4. reflexivity. Qed.

(** C1: after an honest Sum run with a fresh key and two messages,
    appending a third [t] to the verification context gives
    [|zs| = 2 <> 3 = |ts|] while [|zs| = |cs| = 2]; the check
    [|zs| <> |ts| && |zs| <> |cs|] lets it through and [verify] still
    returns [true] rather than [false]. *)
Lemma C1_sum_verify_accepts_extra_t :
  Commit.new ck_tape default_params = Ok (ck4, [])
  /\ sum_extra_t_outcome = Some (2%nat, 2%nat, 3%nat, Ok true).
Proof. split; [exact ck4_fresh | vm_compute; reflexivity]. Qed.

(** C9: [SumProofVerifier::verify] on a response with no [z_i] and a context
    with no [c_i], [t_i] and [g_i] (and [zp], [tp], [c1p] that pass the
    earlier checks) panics in [reduce(..).unwrap()] instead of returning. *)
Lemma C9_sum_verify_panics_on_empty :
  Sum.resp_zs empty_sum_resp = [] /\ Sum.vc_cs empty_sum_ctx = []
  /\ Sum.vc_ts empty_sum_ctx = [] /\ Sum.vc_gs empty_sum_ctx = []
  /\ Sum.verify ck4 default_params empty_sum_resp empty_sum_ctx
     = Panic "called `Option::unwrap()` on a `None` value".
Proof. repeat split; vm_compute; reflexivity. Qed.

(** ** C2: completeness *)

(** C2 (counterexample): an honest Open run with a fresh key, a message of
    length [l] and a tape whose first Gaussian word for [y] is [5000]:
    [z] exceeds the verify bound and [verify] returns [false]. *)
Lemma C2_open_run_rejects_large_y :
  Commit.new ck_tape default_params = Ok (ck4, [])
  /\ length x4 = l default_params
  /\ exists resp, Open.run ck4 default_params 3 big_y_tape x4 = Ok (resp, false).
Proof.
  split; [exact ck4_fresh|]. split; [reflexivity|].
  destruct (Open.run ck4 default_params 3 big_y_tape x4) as [[resp ok]| |] eqn:E;
    vm_compute (Open.run ck4 default_params 3 big_y_tape x4) in E; try discriminate.
  injection E as _ <-. exists resp. reflexivity.
Qed.

(** C2 (amended): over any ring satisfying the ring laws, for a key returned by
    [CommitmentKey::new] with [n, l >= 1], whenever the prover's first move
    ([commit]) returns normally, the honest run of each protocol completes
    and every algebraic equation [verify] checks holds, so [verify] returns
    exactly the norm check: [z] within [2 sigma isqrt(N)] (Open), [z] and
    [z'] (Linear), every [z_i] and [z'] (Sum). It need not return [true]. *)
Theorem sigma_completeness {L : RingLib} (HL : RingLaws L) (p : Params) (rng0 rng0' : Rng)
  (ck : @Commit.CommitmentKey L) :
  Commit.new rng0 p = Ok (ck, rng0') -> (1 <= n p)%nat -> (1 <= l p)%nat ->
  (forall fuel rng xv s1, Open.commit ck p fuel rng xv = Ok s1 ->
     exists resp bound, verify_bound p (degN L) = Ok bound /\
       Open.run ck p fuel rng xv = Ok (resp, entries_within (Open.resp_z resp) bound)) /\
  (forall fuel rng g xv s1, Linear.commit ck p fuel rng g xv = Ok s1 ->
     exists resp bound, verify_bound p (degN L) = Ok bound /\
       Linear.run ck p fuel rng g xv
       = Ok (resp, entries_within (Linear.resp_z resp) bound
                   && entries_within (Linear.resp_zp resp) bound)) /\
  (forall fuel rng gs xs s1, Sum.commit ck p fuel rng gs xs = Ok s1 ->
     exists resp bound, verify_bound p (degN L) = Ok bound /\
       Sum.run ck p fuel rng gs xs
       = Ok (resp, forallb (fun z => entries_within z bound) (Sum.resp_zs resp)
                   && entries_within (Sum.resp_zp resp) bound)).
Proof.
  intros Hnew Hn Hl. destruct HL as [RT Heqb].
  assert (Hr : forall e, peqb L e e = true) by (intros e; apply Heqb; reflexivity).
  destruct (MatForm.new_shaped _ _ _ _ Hnew) as (Hk & Ha1 & Ha2).
  apply MatForm.shaped_mk in Ha1, Ha2.
  assert (Hk1 : (1 <= k p)%nat) by lia.
  split; [|split].
  - intros fuel rng xv s1 H. exact (MatForm.open_run_ok RT _ _ _ _ _ _ _ _ Hr Hn Hl Hk1 Ha1 Ha2 H).
  - intros fuel rng g xv s1 H.
    exact (MatForm.linear_run_ok RT _ _ _ _ _ _ _ _ _ Hr Hn Hl Hk1 Ha1 Ha2 H).
  - intros fuel rng gs xs s1 H.
    exact (MatForm.sum_run_ok RT _ _ _ _ _ _ _ _ _ Hr Hn Hl Hk1 Ha1 Ha2 H).
Qed.

Lemma sigma_completeness_witness :
  exists resp bound, verify_bound default_params (degN Concrete.Z1) = Ok bound /\
    @Open.run Concrete.Z1 ck1 default_params 3 run_tape [5%Z]
    = Ok (resp, entries_within (Open.resp_z resp) bound).
Proof.
  refine (proj1 (sigma_completeness Z1_laws default_params ck_tape (skipn 3 ck_tape) ck1
                   _ _ _) 3%nat run_tape [5%Z] _ _).
  - vm_compute. reflexivity.
  - vm_compute. lia.
  - vm_compute. lia.
  - reflexivity.
Defined.

(** ** C3: commit then verify *)

Lemma Zx_peqb_refl (N : nat) (e : poly (Concrete.Zx N)) : peqb (Concrete.Zx N) e e = true.
Proof. apply list_eqb_refl. intros a. apply Z.eqb_refl. Qed.

(** C3: whatever the key, the message and the RNG tape, the opening and the
    commitment returned by [CommitmentKey::commit] pass [Commitment::verify]
    (given only that the ring's [PartialEq] is reflexive): the sampled [r]
    meets [CommitConstraint] and [c = A r + [0_n; x]] is recomputed
    identically. *)
Theorem commit_verify_roundtrip {L : RingLib} (ck : @Commit.CommitmentKey L) (p : Params)
  (fuel : nat) (rng rng' : Rng) (xv : list (poly L))
  (op : @Commit.Opening L) (com : @Commit.Commitment L) :
  (forall e, peqb L e e = true) ->
  Commit.commit ck fuel rng xv p = Ok (op, com, rng') ->
  Commit.verify com op ck p = Ok true.
Proof.
  intros Hr H. unfold Commit.commit in H.
  inv_bind H. inv_bind H. destruct p0 as [rv rng1].
  inv_bind H. inv_bind H. inv_bind H. inv_bind H.
  inversion H; subst; clear H.
  unfold Commit.verify; cbn [Commit.r Commit.x Commit.f Commit.c].
  rewrite (CommitFacts.sample_r_ok _ _ _ _ _ E0). cbn [bind negb].
  rewrite E1. cbn [bind]. rewrite E2. cbn [bind]. rewrite E3. cbn [bind]. rewrite E4. cbn [bind].
  f_equal. apply CommitFacts.mat_eqb_refl. exact Hr.
Qed.

Lemma commit_verify_roundtrip_witness :
  exists op com rng',
    Commit.commit ck4 3 run_tape x4 default_params = Ok (op, com, rng')
    /\ Commit.verify com op ck4 default_params = Ok true.
Proof.
  destruct (Commit.commit ck4 3 run_tape x4 default_params) as [[[op com] rng']| |] eqn:E;
    [| vm_compute (Commit.commit ck4 3 run_tape x4 default_params) in E; discriminate
     | vm_compute (Commit.commit ck4 3 run_tape x4 default_params) in E; discriminate].
  exists op, com, rng'. split; [reflexivity|].
  apply (commit_verify_roundtrip ck4 default_params 3 run_tape rng' x4 op com).
  - apply Zx_peqb_refl.
  - exact E.
Defined.

(** ** C4: the norm bound of the verifiers *)

(** C4: if the verify bound [2 sigma isqrt(N)] evaluates to [bound], then a
    response with an entry of [norm_2 > bound] in [z] (Open), in [z] or
    [z'] (Linear), or in some [z_i] or in [z'] (Sum) is rejected: [verify]
    returns [false] whatever the key and the verification context. *)
Theorem verifiers_reject_large_z {L : RingLib} (p : Params) (bound : Z)
  (ck : @Commit.CommitmentKey L) :
  verify_bound p (degN L) = Ok bound ->
  let big := fun (a : @Mat L) =>
    exists row, In row a /\ exists e, In e row /\ (bound < Norms.norm_2 (coeffs L e))%Z in
  (forall resp ctx, big (Open.resp_z resp) -> Open.verify ck p resp ctx = Ok false)
  /\ (forall resp ctx, big (Linear.resp_z resp) \/ big (Linear.resp_zp resp) ->
        Linear.verify ck p resp ctx = Ok false)
  /\ (forall resp ctx, (exists z, In z (Sum.resp_zs resp) /\ big z) \/ big (Sum.resp_zp resp) ->
        Sum.verify ck p resp ctx = Ok false).
Proof.
  intros Hb big. repeat split.
  - intros resp ctx Hz. unfold Open.verify.
    rewrite (CommitFacts.verify_constraint_false p _ bound Hb Hz). reflexivity.
  - intros resp ctx [Hz|Hz]; unfold Linear.verify.
    + rewrite (CommitFacts.verify_constraint_false p _ bound Hb Hz). reflexivity.
    + rewrite (CommitFacts.verify_constraint_ok p (Linear.resp_z resp) bound Hb). cbn [bind].
      destruct (entries_within (Linear.resp_z resp) bound); [|reflexivity]. cbn [negb].
      rewrite (CommitFacts.verify_constraint_false p _ bound Hb Hz). reflexivity.
  - intros resp ctx [[z [Hin Hz]]|Hz]; unfold Sum.verify.
    + rewrite (CommitFacts.allM_false p _ z bound Hb Hin
                 (CommitFacts.verify_constraint_false p _ bound Hb Hz)).
      reflexivity.
    + destruct (Sum.allM (check_verify_constraint p) (Sum.resp_zs resp)) as [ok| |] eqn:E.
      * cbn [bind]. destruct ok; [|reflexivity]. cbn [negb].
        rewrite (CommitFacts.verify_constraint_false p _ bound Hb Hz). reflexivity.
      * exfalso. clear -Hb E. revert E. induction (Sum.resp_zs resp) as [|z t IH]; simpl.
        { discriminate. }
        rewrite (CommitFacts.verify_constraint_ok p z bound Hb). cbn [bind].
        destruct (entries_within z bound); [exact IH|discriminate].
      * exfalso. clear -Hb E. revert E. induction (Sum.resp_zs resp) as [|z t IH]; simpl.
        { discriminate. }
        rewrite (CommitFacts.verify_constraint_ok p z bound Hb). cbn [bind].
        destruct (entries_within z bound); [exact IH|discriminate].
Qed.

Lemma verifiers_reject_large_z_witness :
  verify_bound default_params (degN L4) = Ok 4752%Z
  /\ (let big := fun (a : @Mat L4) =>
        exists row, In row a /\ exists e, In e row /\ (4752 < Norms.norm_2 (coeffs L4 e))%Z in
      (forall resp ctx, big (Open.resp_z resp) -> Open.verify ck4 default_params resp ctx = Ok false)
      /\ (forall resp ctx, big (Linear.resp_z resp) \/ big (Linear.resp_zp resp) ->
            Linear.verify ck4 default_params resp ctx = Ok false)
      /\ (forall resp ctx, (exists z, In z (Sum.resp_zs resp) /\ big z) \/ big (Sum.resp_zp resp) ->
            Sum.verify ck4 default_params resp ctx = Ok false)).
Proof.
  assert (Hb : verify_bound default_params (degN L4) = Ok 4752%Z) by (vm_compute; reflexivity).
  split; [exact Hb | exact (verifiers_reject_large_z default_params 4752 ck4 Hb)].
Defined.

(** ** C8: the length of the message *)

(** C8: for every key, parameters, fuel and RNG tape: a message whose length
    is not [l] makes [CommitmentKey::commit], [OpenProofProver::commit] and
    [LinearProofProver::commit] panic with the assertion [l == x.len()], and
    [SumProofProver::commit] panic when one of its messages has the wrong
    length; a message of length [l] (every message, for Sum) never makes
    any of them panic with that assertion. *)
Theorem commit_length_precondition {L : RingLib} (ck : @Commit.CommitmentKey L) (p : Params)
  (fuel : nat) (rng : Rng) :
  (forall xv : list (poly L), length xv <> l p ->
     Commit.commit ck fuel rng xv p = Panic Commit.commit_len_msg
     /\ Open.commit ck p fuel rng xv = Panic Commit.commit_len_msg
     /\ (forall g, Linear.commit ck p fuel rng g xv = Panic Commit.commit_len_msg))
  /\ (forall gs xs, (exists x, In x xs /\ length x <> l p) ->
        exists msg, Sum.commit ck p fuel rng gs xs = Panic msg)
  /\ (forall xv : list (poly L), length xv = l p ->
        Commit.commit ck fuel rng xv p <> Panic Commit.commit_len_msg
        /\ Open.commit ck p fuel rng xv <> Panic Commit.commit_len_msg
        /\ (forall g, Linear.commit ck p fuel rng g xv <> Panic Commit.commit_len_msg))
  /\ (forall gs xs, Forall (fun x => length x = l p) xs ->
        Sum.commit ck p fuel rng gs xs <> Panic Commit.commit_len_msg).
Proof.
  split; [|split; [|split]].
  - intros xv H. split; [|split].
    + apply LengthFacts.commit_bad_length, H.
    + unfold Open.commit. rewrite LengthFacts.commit_bad_length by exact H. reflexivity.
    + intros g. unfold Linear.commit.
      rewrite LengthFacts.commit_bad_length by (rewrite length_map; exact H). reflexivity.
  - intros gs xs [x [Hin Hx]]. exact (ProverLengths.sum_commit_bad ck p fuel rng gs xs x Hin Hx).
  - intros xv H. split; [|split].
    + apply LengthFacts.res_ok_not_len.
      apply (Outcomes.res_ok_commit _ _ Outcomes.lib_msgs_not_len); [exact I|exact H].
    + apply LengthFacts.res_ok_not_len, ProverLengths.open_commit_ok, H.
    + intros g. apply LengthFacts.res_ok_not_len, ProverLengths.linear_commit_ok, H.
  - intros gs xs H. apply LengthFacts.res_ok_not_len, ProverLengths.sum_commit_ok, H.
Qed.

(** * Further properties of the code *)

(** ** Matrix algebra of src/mat.rs *)

Module MatAlg.
Import MatForm.

Section Alg.
Context {L : RingLib}.
Local Abbreviation R := (poly L).
Variable RT : ring_theory (pzero L) (pone L) (padd L) (pmul L) (psub L) (pneg L) (@eq R).
Add Ring pring2 : RT.

Lemma isum_zero (m : nat) : isum m (fun _ => pzero L) = pzero L.
Proof. induction m as [|m IH]; [reflexivity|]. rewrite (isum_S RT), IH. ring. Qed.

Lemma isum_swap (n0 p0 : nat) (h : nat -> nat -> R) :
  isum n0 (fun kk => isum p0 (fun ll => h kk ll))
  = isum p0 (fun ll => isum n0 (fun kk => h kk ll)).
Proof.
  induction n0 as [|n0 IH].
  - rewrite isum_0. symmetry. rewrite (isum_ext RT p0 _ (fun _ => pzero L)) by reflexivity.
    apply isum_zero.
  - rewrite (isum_S RT), IH, <- (isum_add RT). apply (isum_ext RT). intros ll _.
    rewrite (isum_S RT). reflexivity.
Qed.

Lemma isum_mull (m : nat) (h : nat -> R) (s : R) :
  isum m (fun i => pmul L s (h i)) = pmul L s (isum m h).
Proof.
  rewrite (isum_ext RT m _ (fun i => pmul L (h i) s)) by (intros; ring).
  rewrite (isum_mulr RT). ring.
Qed.

Lemma dot_mk_i (m n0 q0 : nat) (f g : nat -> nat -> R) :
  (1 <= m)%nat -> (1 <= n0)%nat ->
  dot (mk m n0 f) (mk n0 q0 g)
  = Ok (mk m q0 (fun i j => isum n0 (fun kk => pmul L (f i kk) (g kk j)))).
Proof.
  intros Hm Hn. rewrite dot_mk by assumption. f_equal. apply mk_ext. intros i j _ _.
  apply (lsum_isum RT).
Qed.

Lemma isum_distr_l (n0 : nat) (f g h : nat -> R) :
  isum n0 (fun kk => pmul L (f kk) (padd L (g kk) (h kk)))
  = padd L (isum n0 (fun kk => pmul L (f kk) (g kk))) (isum n0 (fun kk => pmul L (f kk) (h kk))).
Proof. rewrite <- (isum_add RT). apply (isum_ext RT). intros; ring. Qed.

Lemma isum_distr_r (n0 : nat) (f g h : nat -> R) :
  isum n0 (fun kk => pmul L (padd L (f kk) (g kk)) (h kk))
  = padd L (isum n0 (fun kk => pmul L (f kk) (h kk))) (isum n0 (fun kk => pmul L (g kk) (h kk))).
Proof. rewrite <- (isum_add RT). apply (isum_ext RT). intros; ring. Qed.

End Alg.

Section Shapes.
Context {L : RingLib}.

Lemma combine_nth_lt {A B : Type} (l1 : list A) (l2 : list B) (i : nat) (d1 : A) (d2 : B) :
  length l1 = length l2 -> nth i (combine l1 l2) (d1, d2) = (nth i l1 d1, nth i l2 d2).
Proof. intros H. apply combine_nth, H. Qed.

Lemma extend_cols_entries (m n1 n2 : nat) (a o : @Mat L) :
  shaped m n1 a -> shaped m n2 o ->
  exists c, extend_cols a o = Ok c /\ shaped m (n1 + n2) c /\
    forall i j, (i < m)%nat -> (j < n1 + n2)%nat ->
      entry c i j = if (j <? n1)%nat then entry a i j else entry o i (j - n1).
Proof.
  intros Hsa Hso. pose proof Hsa as [Ha Fa]. pose proof Hso as [Ho Fo].
  unfold extend_cols, dim. rewrite Ha, Ho, Nat.eqb_refl. cbn [assert bind].
  eexists. split; [reflexivity|]. split.
  - eapply extend_cols_shaped; [exact Hsa|exact Hso|].
    unfold extend_cols, dim. rewrite Ha, Ho, Nat.eqb_refl. reflexivity.
  - intros i j Hi Hj. unfold entry.
    rewrite (nth_map_lt _ _ _ [] ([], [])) by (rewrite length_combine; lia).
    rewrite combine_nth by lia.
    rewrite Forall_forall in Fa, Fo.
    assert (Hra : length (nth i a []) = n1) by (apply Fa, nth_In; lia).
    assert (Hro : length (nth i o []) = n2) by (apply Fo, nth_In; lia).
    destruct (Nat.ltb_spec j n1).
    + apply app_nth1. lia.
    + rewrite app_nth2 by lia. rewrite Hra. reflexivity.
Qed.

End Shapes.
End MatAlg.


(** ** The norms of src/polynomial.rs *)

Module NormFacts.
Import Norms ChallengeFacts.

Definition sumsq (cs : list Z) : Z := fold_left (fun a c => (a + c * c)%Z) cs 0%Z.

Lemma sumsq_cons (h : Z) (t : list Z) : sumsq (h :: t) = (h * h + sumsq t)%Z.
Proof.
  unfold sumsq at 1. cbn [fold_left].
  rewrite (fold_add_acc (fun c => c * c)%Z t (0 + h * h)%Z). unfold sumsq. lia.
Qed.

Lemma sumsq_nonneg (cs : list Z) : (0 <= sumsq cs)%Z.
Proof. induction cs as [|h t IH]; [reflexivity|]. rewrite sumsq_cons. nia. Qed.

Lemma sumsq_in (cs : list Z) (c : Z) : In c cs -> (c * c <= sumsq cs)%Z.
Proof.
  induction cs as [|h t IH]; intros Hin; [contradiction|]. rewrite sumsq_cons.
  pose proof (sumsq_nonneg t). destruct Hin as [->|Hin]; [nia|]. specialize (IH Hin). nia.
Qed.

Lemma norm_1_nonneg (cs : list Z) : (0 <= norm_1 cs)%Z.
Proof. induction cs as [|h t IH]; [reflexivity|]. rewrite norm_1_cons. lia. Qed.

Lemma sumsq_le_norm_1 (cs : list Z) : (sumsq cs <= norm_1 cs * norm_1 cs)%Z.
Proof.
  induction cs as [|h t IH]; [reflexivity|]. rewrite sumsq_cons, norm_1_cons.
  pose proof (norm_1_nonneg t). pose proof (Z.abs_nonneg h).
  assert (Hh : (h * h = Z.abs h * Z.abs h)%Z) by (destruct (Z.abs_spec h) as [[_ ->]|[_ ->]]; ring).
  nia.
Qed.

Lemma fold_max_attained (t : list Z) (h : Z) :
  fold_left Z.max t h = h \/ In (fold_left Z.max t h) t.
Proof.
  revert h; induction t as [|a t IH]; intros h; [left; reflexivity|]. cbn [fold_left].
  destruct (IH (Z.max h a)) as [E|E]; [|right; right; exact E].
  rewrite E. destruct (Z.max_spec h a) as [[_ ->]|[_ ->]]; [right; left; reflexivity|left; reflexivity].
Qed.

Lemma norm_infinity_max (cs : list Z) (v : Z) :
  norm_infinity cs = Ok v ->
  (forall c, In c cs -> (Z.abs c <= v)%Z) /\ exists c, In c cs /\ Z.abs c = v.
Proof.
  unfold norm_infinity. destruct cs as [|h t]; cbn [map]; intros H; [discriminate|].
  injection H as <-. split.
  - intros c [->|Hin]; [apply fold_max_ge|]. apply fold_max_in, in_map, Hin.
  - destruct (fold_max_attained (map Z.abs t) (Z.abs h)) as [E|E].
    + exists h. split; [left; reflexivity|]. symmetry. exact E.
    + apply in_map_iff in E as [c [Ec Hc]]. exists c. split; [right; exact Hc|exact Ec].
Qed.

End NormFacts.

Import MatForm MatAlg.

(** X1: [Mat::dot] panics on its [assert_eq!(n, n2)] when the number of
    columns of [self] (the length of its first row) differs from the number
    of rows of [other]; for an [m x n] and an [n x p] matrix ([m, n >= 1])
    it returns the [m x p] matrix whose entry [(i, j)] is
    [0 + a_i0 b_0j + ... + a_i(n-1) b_(n-1)j], accumulated from the left. *)
Theorem mat_dot_spec {L : RingLib} (a o : @Mat L) :
  (snd (dim a) <> fst (dim o) -> dot a o = Panic "assertion `left == right` failed")
  /\ (forall m n0 p0, (1 <= m)%nat -> (1 <= n0)%nat -> shaped m n0 a -> shaped n0 p0 o ->
        dot a o
        = Ok (mk m p0 (fun i j => lsum n0 (fun kk => pmul L (entry a i kk) (entry o kk j))))).
Proof.
  split.
  - intros H. unfold dot. destruct (dim a) as [m1 n1], (dim o) as [n2 p2]. cbn in H.
    destruct (Nat.eqb_spec n1 n2); [contradiction|]. reflexivity.
  - intros m n0 p0 Hm Hn Ha Ho. apply shaped_mk in Ha, Ho.
    rewrite Ha at 1. rewrite Ho at 1. apply dot_mk; assumption.
Qed.

(** X2: over a ring, [Mat::dot] is associative on compatible shapes:
    [(a b) c = a (b c)] for [a : m x n], [b : n x p], [c : p x q] with
    [m, n, p >= 1]; both sides return normally. *)
Theorem mat_dot_assoc {L : RingLib} (HL : RingLaws L) (m n0 p0 q0 : nat) (a b0 c : @Mat L) :
  (1 <= m)%nat -> (1 <= n0)%nat -> (1 <= p0)%nat ->
  shaped m n0 a -> shaped n0 p0 b0 -> shaped p0 q0 c ->
  exists r0, (ab <- dot a b0 ;; dot ab c) = Ok r0 /\ (bc <- dot b0 c ;; dot a bc) = Ok r0.
Proof.
  intros Hm Hn Hp Ha Hb Hc. destruct HL as [RT _].
  apply shaped_mk in Ha, Hb, Hc. rewrite Ha, Hb, Hc.
  rewrite (dot_mk_i RT m n0 p0) by assumption. cbn [bind].
  rewrite (dot_mk_i RT m p0 q0) by assumption.
  rewrite (dot_mk_i RT n0 p0 q0) by assumption. cbn [bind].
  rewrite (dot_mk_i RT m n0 q0) by assumption.
  eexists. split; [reflexivity|]. f_equal. apply mk_ext. intros i j Hi Hj.
  set (A := entry a). set (B := entry b0). set (C := entry c).
  rewrite (isum_ext RT p0 _ (fun ll => isum n0 (fun kk => pmul L (pmul L (A i kk) (B kk ll)) (C ll j))))
    by (intros ll _; symmetry; apply (isum_mulr RT)).
  rewrite (isum_ext RT n0 _ (fun kk => isum p0 (fun ll => pmul L (A i kk) (pmul L (B kk ll) (C ll j)))))
    by (intros kk _; symmetry; apply (isum_mull RT)).
  rewrite (isum_swap RT). apply (isum_ext RT). intros ll _. apply (isum_ext RT). intros kk _.
  apply (Rmul_assoc RT).
Qed.

(** X3: over a ring, [Mat::dot] distributes over [Mat::add] on both sides:
    [a (b + b') = a b + a b'] and [(a + a') b = a b + a' b] for
    [a, a' : m x n] and [b, b' : n x p] with [m, n >= 1]. *)
Theorem mat_dot_add_distr {L : RingLib} (HL : RingLaws L) (m n0 p0 : nat)
  (a a' b0 b0' : @Mat L) :
  (1 <= m)%nat -> (1 <= n0)%nat ->
  shaped m n0 a -> shaped m n0 a' -> shaped n0 p0 b0 -> shaped n0 p0 b0' ->
  (exists r0, (bb <- add b0 b0' ;; dot a bb) = Ok r0
              /\ (ab <- dot a b0 ;; ab' <- dot a b0' ;; add ab ab') = Ok r0)
  /\ (exists r0, (aa <- add a a' ;; dot aa b0) = Ok r0
              /\ (ab <- dot a b0 ;; a'b <- dot a' b0 ;; add ab a'b) = Ok r0).
Proof.
  intros Hm Hn Ha Ha' Hb Hb'. destruct HL as [RT _].
  apply shaped_mk in Ha, Ha', Hb, Hb'. rewrite Ha, Ha', Hb, Hb'.
  split.
  - rewrite (add_mk n0 p0) by assumption. cbn [bind].
    rewrite !(dot_mk_i RT m n0 p0) by assumption. cbn [bind].
    rewrite (add_mk m p0) by assumption.
    eexists. split; [reflexivity|]. f_equal. apply mk_ext. intros i j _ _.
    symmetry. apply (isum_distr_l RT).
  - rewrite (add_mk m n0) by assumption. cbn [bind].
    rewrite !(dot_mk_i RT m n0 p0) by assumption. cbn [bind].
    rewrite (add_mk m p0) by assumption.
    eexists. split; [reflexivity|]. f_equal. apply mk_ext. intros i j _ _.
    symmetry. apply (isum_distr_r RT).
Qed.

(** X4: [Mat::add] of two [m x n] matrices ([m >= 1]) is their entrywise
    sum; when the dimensions differ it panics on one of its [assert_eq!]. *)
Theorem mat_add_spec {L : RingLib} (a o : @Mat L) :
  (dim a <> dim o -> add a o = Panic "assertion `left == right` failed")
  /\ (forall m n0, (1 <= m)%nat -> shaped m n0 a -> shaped m n0 o ->
        add a o = Ok (mk m n0 (fun i j => padd L (entry a i j) (entry o i j)))).
Proof.
  split.
  - intros H. unfold add. destruct (dim a) as [m1 n1], (dim o) as [m2 n2].
    destruct (Nat.eqb_spec m1 m2) as [->|]; [|reflexivity]. cbn [assert bind].
    destruct (Nat.eqb_spec n1 n2) as [->|]; [contradiction|reflexivity].
  - intros m n0 Hm Ha Ho. apply shaped_mk in Ha, Ho.
    rewrite Ha at 1. rewrite Ho at 1. apply add_mk, Hm.
Qed.

(** X5: over a ring, [Mat::add] on [m x n] matrices ([m >= 1]) is
    commutative and associative, and the zero matrix
    [Mat::from_element(m, n, 0)] is neutral. *)
Theorem mat_add_laws {L : RingLib} (HL : RingLaws L) (m n0 : nat) (a b0 c : @Mat L) :
  (1 <= m)%nat -> shaped m n0 a -> shaped m n0 b0 -> shaped m n0 c ->
  add a b0 = add b0 a
  /\ (exists r0, (ab <- add a b0 ;; add ab c) = Ok r0 /\ (bc <- add b0 c ;; add a bc) = Ok r0)
  /\ add a (from_element m n0 (pzero L)) = Ok a.
Proof.
  intros Hm Ha Hb Hc. destruct HL as [RT _].
  apply shaped_mk in Ha, Hb, Hc. rewrite Ha, Hb, Hc. split; [|split].
  - rewrite !(add_mk m n0) by assumption. f_equal. apply mk_ext. intros i j _ _.
    apply (Radd_comm RT).
  - rewrite !(add_mk m n0) by assumption. cbn [bind]. rewrite !(add_mk m n0) by assumption.
    eexists. split; [reflexivity|]. f_equal. apply mk_ext. intros i j _ _.
    apply (Radd_assoc RT).
  - rewrite from_element_mk, (add_mk m n0) by assumption. f_equal. apply mk_ext.
    intros i j _ _. rewrite (Radd_comm RT). apply (Radd_0_l RT).
Qed.

(** X6: [Mat::extend_rows] of an [m1 x n] and an [m2 x n] matrix
    ([m1, m2 >= 1]) appends the rows, giving an [(m1 + m2) x n] matrix; an
    empty matrix counts as having 0 columns, so extending a matrix with at
    least one column by an empty one, or an empty one by it, panics. *)
Theorem mat_extend_rows_spec {L : RingLib} (a o : @Mat L) :
  (forall m1 m2 n0, (1 <= m1)%nat -> (1 <= m2)%nat -> shaped m1 n0 a -> shaped m2 n0 o ->
     extend_rows a o = Ok (a ++ o) /\ shaped (m1 + m2) n0 (a ++ o))
  /\ ((1 <= snd (dim a))%nat ->
      extend_rows a [] = Panic "assertion `left == right` failed"
      /\ extend_rows [] a = Panic "assertion `left == right` failed").
Proof.
  split.
  - intros m1 m2 n0 Hm1 Hm2 [Ha Fa] [Ho Fo]. split.
    + unfold extend_rows, dim.
      destruct a as [|ra a']; [cbn in Ha; lia|]. destruct o as [|ro o']; [cbn in Ho; lia|].
      apply Forall_cons_iff in Fa as [-> _]. apply Forall_cons_iff in Fo as [-> _].
      rewrite Nat.eqb_refl. reflexivity.
    + split; [rewrite length_app; lia|]. apply Forall_app; split; assumption.
  - intros H. unfold extend_rows. destruct (dim a) as [m1 n1]. cbn in H |- *.
    destruct n1 as [|n1]; [lia|]. split; reflexivity.
Qed.

(** X7: [Mat::extend_cols] of an [m x n1] and an [m x n2] matrix returns
    the [m x (n1 + n2)] matrix whose row [i] is row [i] of [self] followed
    by row [i] of [other]. *)
Theorem mat_extend_cols_spec {L : RingLib} (m n1 n2 : nat) (a o : @Mat L) :
  shaped m n1 a -> shaped m n2 o ->
  exists c, extend_cols a o = Ok c /\ shaped m (n1 + n2) c /\
    forall i j, (i < m)%nat -> (j < n1 + n2)%nat ->
      entry c i j = if (j <? n1)%nat then entry a i j else entry o i (j - n1).
Proof. apply MatAlg.extend_cols_entries. Qed.

(** X8: [norm_infinity] panics on the [unwrap] of [max()] exactly when the
    polynomial has no coefficients; otherwise it returns the largest
    absolute value of a coefficient. *)
Theorem norm_infinity_spec (cs : list Z) :
  (Norms.norm_infinity cs = Panic "called `Option::unwrap()` on a `None` value" <-> cs = [])
  /\ (forall v, Norms.norm_infinity cs = Ok v ->
        (forall c, In c cs -> (Z.abs c <= v)%Z) /\ exists c, In c cs /\ Z.abs c = v).
Proof.
  split.
  - split; [|intros ->; reflexivity].
    unfold Norms.norm_infinity. destruct cs; cbn [map]; [reflexivity|discriminate].
  - apply NormFacts.norm_infinity_max.
Qed.

(** X9: the three norms are ordered: [norm_2 <= norm_1] for every
    polynomial, and [0 <= norm_infinity <= norm_2] whenever
    [norm_infinity] returns. *)
Theorem norms_ordered (cs : list Z) :
  (Norms.norm_2 cs <= Norms.norm_1 cs)%Z
  /\ (forall v, Norms.norm_infinity cs = Ok v -> (0 <= v <= Norms.norm_2 cs)%Z).
Proof.
  split.
  - unfold Norms.norm_2. fold (NormFacts.sumsq cs).
    pose proof (NormFacts.norm_1_nonneg cs).
    rewrite <- (Z.sqrt_square (Norms.norm_1 cs)) by assumption.
    apply Z.sqrt_le_mono. apply NormFacts.sumsq_le_norm_1.
  - intros v Hv. destruct (NormFacts.norm_infinity_max cs v Hv) as [_ [c [Hin <-]]].
    split; [apply Z.abs_nonneg|].
    unfold Norms.norm_2. fold (NormFacts.sumsq cs).
    rewrite <- (Z.sqrt_square (Z.abs c)) by apply Z.abs_nonneg.
    apply Z.sqrt_le_mono. pose proof (NormFacts.sumsq_in cs c Hin).
    destruct (Z.abs_spec c) as [[_ ->]|[_ ->]]; lia.
Qed.

Module SampleFacts.

Lemma repeat_draw_total {A : Type} (cnt : nat) (gen : Rng -> res (A * Rng)) (rng : Rng) :
  (forall r0, exists a r1, gen r0 = Ok (a, r1)) ->
  exists xs rng', repeat_draw cnt gen rng = Ok (xs, rng').
Proof.
  intros Hg. revert rng; induction cnt as [|cnt IH]; intros rng; [eexists _, _; reflexivity|].
  cbn [repeat_draw]. destruct (Hg rng) as [a [r1 ->]]. cbn [bind].
  destruct (IH r1) as [xs [r2 ->]]. cbn [bind]. eexists _, _. reflexivity.
Qed.

Lemma range_incl_ok (rng : Rng) (lo hi : Z) :
  (lo <= hi)%Z -> exists a r1, random_range_incl rng lo hi = Ok (a, r1) /\ (lo <= a <= hi)%Z.
Proof.
  intros H. unfold random_range_incl. destruct (Z.ltb_spec hi lo); [lia|].
  destruct (next_word rng) as [w r1]. eexists _, _. split; [reflexivity|].
  assert (Hm : (0 < hi - lo + 1)%Z) by lia.
  pose proof (Z.mod_pos_bound w _ Hm). lia.
Qed.

Lemma range_incl_in (rng r1 : Rng) (lo hi a : Z) :
  random_range_incl rng lo hi = Ok (a, r1) -> (lo <= a <= hi)%Z.
Proof.
  unfold random_range_incl. destruct (Z.ltb_spec hi lo); [discriminate|].
  destruct (next_word rng) as [w r2]. intros E. injection E as <- _.
  assert (Hm : (0 < hi - lo + 1)%Z) by lia.
  pose proof (Z.mod_pos_bound w _ Hm). lia.
Qed.

Lemma within_output {L : RingLib} (rng rng' : Rng) (bound : Z) (e : poly L) :
  random_polynomial_within rng bound = Ok (e, rng') -> within_poly bound e.
Proof.
  unfold random_polynomial_within. intros H. apply bind_ok in H as [[cs r1] [E H]].
  injection H as <- _. exists cs. split; [reflexivity|].
  apply (repeat_draw_spec (fun c => - bound <= c <= bound)%Z) in E; [exact E|].
  intros r0 a r2 Hr. apply range_incl_in in Hr. lia.
Qed.

Lemma within_total {L : RingLib} (rng : Rng) (bound : Z) :
  (0 <= bound)%Z -> exists e rng', @random_polynomial_within L rng bound = Ok (e, rng').
Proof.
  intros Hb. unfold random_polynomial_within.
  destruct (repeat_draw_total (degN L) (fun r => random_range_incl r (0 - bound) bound) rng)
    as [cs [rng' ->]].
  - intros r0. destruct (range_incl_ok r0 (0 - bound) bound) as [a [r1 [-> _]]]; [lia|].
    eexists _, _. reflexivity.
  - eexists _, _. reflexivity.
Qed.

Lemma new_with_total {L : RingLib} (m1 n1 : nat) (gen : Rng -> res (poly L * Rng)) (rng : Rng) :
  (forall r0, exists a r1, gen r0 = Ok (a, r1)) ->
  exists a rng', new_with m1 n1 gen rng = Ok (a, rng').
Proof.
  intros Hg. unfold new_with. apply repeat_draw_total. intros r0.
  apply repeat_draw_total, Hg.
Qed.

End SampleFacts.

(** X10: [random_polynomial_within] with [bound >= 0] returns
    [Polynomial::new] of [N] coefficients, each in [[-bound, bound]]; with
    [bound < 0] (and [N >= 1]) the range [0 - bound ..= bound] is empty and
    it panics. *)
Theorem random_polynomial_within_spec {L : RingLib} (rng : Rng) (bound : Z) :
  ((0 <= bound)%Z -> exists cs rng',
      random_polynomial_within rng bound = Ok (from_coeffs L cs, rng')
      /\ length cs = degN L /\ Forall (fun c => - bound <= c <= bound)%Z cs)
  /\ ((bound < 0)%Z -> (1 <= degN L)%nat ->
      @random_polynomial_within L rng bound = Panic "cannot sample empty range").
Proof.
  split.
  - intros Hb. destruct (@SampleFacts.within_total L rng bound Hb) as [e [rng' E]].
    destruct (SampleFacts.within_output _ _ _ _ E) as [cs [-> H]]. exists cs, rng'. split; assumption.
  - intros Hb HN. unfold random_polynomial_within.
    destruct (degN L) as [|N]; [lia|]. cbn [repeat_draw].
    unfold random_range_incl. destruct (Z.ltb_spec bound (0 - bound)); [reflexivity|lia].
Qed.

Module BoundFacts.

Lemma entries_within_mono {L : RingLib} (a : @Mat L) (b1 b2 : Z) :
  (b1 <= b2)%Z -> entries_within a b1 = true -> entries_within a b2 = true.
Proof.
  unfold entries_within. intros Hle H. rewrite forallb_forall in H |- *.
  intros row Hrow. specialize (H row Hrow). rewrite forallb_forall in H |- *.
  intros e He. specialize (H e He). apply Z.leb_le in H. apply Z.leb_le. lia.
Qed.

End BoundFacts.

(** X11: a matrix that passes [check_verify_constraint] ([norm_2 <= 2 sigma
    isqrt(N)] for every entry) also passes [check_commit_constraint]
    ([<= 4 sigma isqrt(N)]), unless computing the larger bound overflows
    [usize] and panics. *)
Theorem verify_constraint_implies_commit {L : RingLib} (p : Params) (a : @Mat L) :
  check_verify_constraint p a = Ok true ->
  check_commit_constraint p a = Ok true
  \/ check_commit_constraint p a = Panic "attempt to multiply with overflow".
Proof.
  unfold check_verify_constraint, check_commit_constraint, verify_bound, commit_bound.
  intros H. apply bind_ok in H as [vb [Hvb H]]. injection H as H.
  apply bind_ok in Hvb as [sigma [Hs Hvb]]. apply bind_ok in Hvb as [t [Ht Hvb]].
  pose proof (standard_deviation_nonneg _ _ _ Hs) as Hs0.
  apply usize_mul_ok in Ht as [_ ->]. apply usize_mul_ok in Hvb as [_ ->].
  rewrite Hs. cbn [bind].
  destruct (usize_mul 4 sigma) as [t4| |] eqn:E4; cbn [bind].
  2: { unfold usize_mul in E4. destruct (_ <=? _)%Z; [discriminate|]. injection E4 as <-.
       right; reflexivity. }
  2: { unfold usize_mul in E4. destruct (_ <=? _)%Z; discriminate. }
  apply usize_mul_ok in E4 as [_ ->].
  destruct (usize_mul (4 * sigma) (Z.sqrt (Z.of_nat (degN L)))) as [cb| |] eqn:E5; cbn [bind].
  2: { unfold usize_mul in E5. destruct (_ <=? _)%Z; [discriminate|]. injection E5 as <-.
       right; reflexivity. }
  2: { unfold usize_mul in E5. destruct (_ <=? _)%Z; discriminate. }
  apply usize_mul_ok in E5 as [_ ->].
  left. f_equal. eapply BoundFacts.entries_within_mono; [|exact H].
  pose proof (Z.sqrt_nonneg (Z.of_nat (degN L))). nia.
Qed.

(** ** The commitment key *)

Module KeyFacts.
Import SampleFacts.

Lemma usize_sub_le (x y : nat) : (y <= x)%nat -> usize_sub x y = Ok (x - y)%nat.
Proof. intros H. unfold usize_sub. destruct (Nat.leb_spec y x); [reflexivity|lia]. Qed.

Lemma usize_sub_lt (x y : nat) : (x < y)%nat -> usize_sub x y = Panic "attempt to subtract with overflow".
Proof. intros H. unfold usize_sub. destruct (Nat.leb_spec y x); [lia|reflexivity]. Qed.

Section Key.
Context {L : RingLib}.

Lemma entry_in (Q : poly L -> Prop) (m n0 : nat) (a : @Mat L) (i j : nat) :
  shaped m n0 a -> Forall (Forall Q) a -> (i < m)%nat -> (j < n0)%nat -> Q (entry a i j).
Proof.
  intros [Hl Hf] HQ Hi Hj. unfold entry. rewrite Forall_forall in Hf, HQ.
  assert (Hrow : In (nth i a []) a) by (apply nth_In; lia).
  specialize (Hf _ Hrow). specialize (HQ _ Hrow). rewrite Forall_forall in HQ.
  apply HQ, nth_In. lia.
Qed.

Lemma new_with_entries (Q : poly L -> Prop) (m n0 : nat) (gen : Rng -> res (poly L * Rng))
  (rng rng' : Rng) (a : @Mat L) :
  (forall r0 e r1, gen r0 = Ok (e, r1) -> Q e) ->
  new_with m n0 gen rng = Ok (a, rng') ->
  shaped m n0 a /\ forall i j, (i < m)%nat -> (j < n0)%nat -> Q (entry a i j).
Proof.
  intros Hg H. pose proof (new_with_shaped _ _ _ _ _ _ H) as Hs. split; [exact Hs|].
  intros i j Hi Hj. apply (entry_in Q m n0); [exact Hs| |exact Hi|exact Hj].
  unfold new_with in H. apply (repeat_draw_spec (Forall Q)) in H; [apply H|].
  intros r0 row r1 Hr. apply (repeat_draw_spec Q) in Hr; [apply Hr|exact Hg].
Qed.

Lemma entry_diag (m n0 : nat) (e : poly L) (i j : nat) :
  (i < m)%nat -> (j < n0)%nat -> entry (diag m n0 e) i j = if Nat.eqb i j then e else pzero L.
Proof.
  intros Hi Hj. change (diag m n0 e) with (mk m n0 (fun i j => if Nat.eqb i j then e else pzero L)).
  apply entry_mk; assumption.
Qed.

Lemma entry_from_element (m n0 : nat) (e : poly L) (i j : nat) :
  (i < m)%nat -> (j < n0)%nat -> entry (from_element m n0 e) i j = e.
Proof. intros Hi Hj. rewrite from_element_mk. apply entry_mk; assumption. Qed.

Lemma extend_cols_eq (m n1 n2 : nat) (a o c : @Mat L) :
  shaped m n1 a -> shaped m n2 o -> extend_cols a o = Ok c ->
  shaped m (n1 + n2) c /\ forall i j, (i < m)%nat -> (j < n1 + n2)%nat ->
      entry c i j = if (j <? n1)%nat then entry a i j else entry o i (j - n1).
Proof.
  intros Ha Ho H. destruct (MatAlg.extend_cols_entries m n1 n2 a o Ha Ho) as [c' [E [Hs He]]].
  rewrite H in E. injection E as <-. split; assumption.
Qed.

End Key.
End KeyFacts.

(** X12: with [q >= 0], [Params::generate_commitment_key]
    ([CommitmentKey::new]) returns a key exactly when [k >= n + l]; for
    [k < n + l] one of its [usize] subtractions [k - n], [k - n - l]
    overflows and it panics. *)
Theorem new_key_dims {L : RingLib} (rng : Rng) (p : Params) :
  (0 <= q p)%Z ->
  ((k p < n p + l p)%nat ->
     @ParamsApi.generate_commitment_key L p rng = Panic "attempt to subtract with overflow")
  /\ ((n p + l p <= k p)%nat ->
      exists ck rng', @ParamsApi.generate_commitment_key L p rng = Ok (ck, rng')).
Proof.
  intros Hq. unfold ParamsApi.generate_commitment_key.
  assert (Hgen : forall r0, exists a r1, @random_polynomial_within L r0 (q p) = Ok (a, r1))
    by (intros r0; apply SampleFacts.within_total, Hq).
  unfold Commit.new.
  destruct (Nat.leb_spec (n p) (k p)) as [Hnk|Hnk].
  2: { split; [|lia]. intros _. rewrite KeyFacts.usize_sub_lt by exact Hnk. reflexivity. }
  rewrite KeyFacts.usize_sub_le by exact Hnk. cbn [bind].
  destruct (SampleFacts.new_with_total (n p) (k p - n p) _ rng Hgen) as [a1' [rng1 E1]].
  rewrite E1. cbn [bind].
  destruct (MatAlg.extend_cols_entries (n p) (n p) (k p - n p) (diag (n p) (n p) (pone L)) a1'
              (diag_shaped _ _ _) (new_with_shaped _ _ _ _ _ _ E1)) as [ca1 [E2 _]].
  rewrite E2. cbn [bind].
  destruct (Nat.leb_spec (l p) (k p - n p)) as [Hl|Hl].
  2: { split; [|lia]. intros _. rewrite (KeyFacts.usize_sub_lt (k p - n p) (l p)) by exact Hl. reflexivity. }
  split; [lia|]. intros _.
  rewrite (KeyFacts.usize_sub_le (k p - n p) (l p)) by exact Hl. cbn [bind].
  destruct (SampleFacts.new_with_total (l p) (k p - n p - l p) _ rng1 Hgen) as [a2' [rng2 E5]].
  rewrite E5. cbn [bind].
  destruct (MatAlg.extend_cols_entries (l p) (n p) (l p) (from_element (l p) (n p) (pzero L))
              (diag (l p) (l p) (pone L)) (from_element_shaped _ _ _) (diag_shaped _ _ _))
    as [t3 [E6 [Ht3 _]]].
  rewrite E6. cbn [bind].
  destruct (MatAlg.extend_cols_entries (l p) (n p + l p) (k p - n p - l p) t3 a2'
              Ht3 (new_with_shaped _ _ _ _ _ _ E5)) as [ca2 [E7 _]].
  rewrite E7. cbn [bind]. eexists _, _. reflexivity.
Qed.

(** X13: a key returned by [CommitmentKey::new] has [a1 = [I_n a1']] of shape
    n x k and [a2 = [0 I_l a2']] of shape l x k: identity and zero blocks
    where the code puts them, and in the random blocks [a1'], [a2'] only
    [Polynomial::new] of [N] coefficients in [[-q, q]]. *)
Theorem new_key_structure {L : RingLib} (rng rng' : Rng) (p : Params) (ck : @Commit.CommitmentKey L) :
  Commit.new rng p = Ok (ck, rng') ->
  shaped (n p) (k p) (Commit.a1 ck) /\ shaped (l p) (k p) (Commit.a2 ck)
  /\ (forall i j, (i < n p)%nat -> (j < n p)%nat ->
        entry (Commit.a1 ck) i j = if Nat.eqb i j then pone L else pzero L)
  /\ (forall i j, (i < n p)%nat -> (n p <= j < k p)%nat ->
        within_poly (q p) (entry (Commit.a1 ck) i j))
  /\ (forall i j, (i < l p)%nat -> (j < n p + l p)%nat ->
        entry (Commit.a2 ck) i j = if Nat.eqb j (n p + i) then pone L else pzero L)
  /\ (forall i j, (i < l p)%nat -> (n p + l p <= j < k p)%nat ->
        within_poly (q p) (entry (Commit.a2 ck) i j)).
Proof.
  intros H. unfold Commit.new in H.
  apply bind_ok in H as [kn [E0 H]].
  unfold usize_sub in E0. destruct (Nat.leb_spec (n p) (k p)) as [Hnk|]; [|discriminate].
  injection E0 as <-.
  apply bind_ok in H as [[a1' rng1] [E1 H]].
  apply bind_ok in H as [ca1 [E2 H]].
  apply bind_ok in H as [kn' [E3 H]].
  unfold usize_sub in E3. destruct (Nat.leb_spec (n p) (k p)); [|lia]. injection E3 as <-.
  apply bind_ok in H as [knl [E4 H]].
  unfold usize_sub in E4. destruct (Nat.leb_spec (l p) (k p - n p)) as [Hl|]; [|discriminate].
  injection E4 as <-.
  apply bind_ok in H as [[a2' rng2] [E5 H]].
  apply bind_ok in H as [t3 [E6 H]].
  apply bind_ok in H as [ca2 [E7 H]].
  injection H as <- _. cbn [Commit.a1 Commit.a2].
  destruct (KeyFacts.new_with_entries (within_poly (q p)) _ _ _ _ _ _
              (fun r0 e r1 He => SampleFacts.within_output r0 r1 (q p) e He) E1) as [Hs1 Hw1].
  destruct (KeyFacts.new_with_entries (within_poly (q p)) _ _ _ _ _ _
              (fun r0 e r1 He => SampleFacts.within_output r0 r1 (q p) e He) E5) as [Hs2 Hw2].
  destruct (KeyFacts.extend_cols_eq _ _ _ _ _ _ (diag_shaped _ _ _) Hs1 E2) as [Hc1 He1].
  destruct (KeyFacts.extend_cols_eq _ _ _ _ _ _ (from_element_shaped _ _ _) (diag_shaped _ _ _) E6)
    as [Ht3 He3].
  destruct (KeyFacts.extend_cols_eq _ _ _ _ _ _ Ht3 Hs2 E7) as [Hc2 He2].
  replace (n p + (k p - n p))%nat with (k p) in Hc1 by lia.
  replace (n p + l p + (k p - n p - l p))%nat with (k p) in Hc2 by lia.
  split; [exact Hc1|]. split; [exact Hc2|].
  split.
  { intros i j Hi Hj. rewrite He1 by lia. destruct (Nat.ltb_spec j (n p)); [|lia].
    apply KeyFacts.entry_diag; assumption. }
  split.
  { intros i j Hi Hj. rewrite He1 by lia. destruct (Nat.ltb_spec j (n p)); [lia|].
    apply Hw1; lia. }
  split.
  { intros i j Hi Hj. rewrite He2 by lia. destruct (Nat.ltb_spec j (n p + l p)); [|lia].
    rewrite He3 by lia. destruct (Nat.ltb_spec j (n p)).
    - rewrite KeyFacts.entry_from_element by lia.
      destruct (Nat.eqb_spec j (n p + i)); [lia|reflexivity].
    - rewrite KeyFacts.entry_diag by lia.
      destruct (Nat.eqb_spec i (j - n p)) as [Ea|Ea], (Nat.eqb_spec j (n p + i)) as [Eb|Eb]; try reflexivity; lia. }
  { intros i j Hi Hj. rewrite He2 by lia. destruct (Nat.ltb_spec j (n p + l p)); [lia|].
    apply Hw2; lia. }
Qed.

Module KeyShapes.
Lemma new_shapes {L : RingLib} (rng rng' : Rng) (p : Params) (ck : @Commit.CommitmentKey L) :
  Commit.new rng p = Ok (ck, rng') ->
  shaped (n p) (k p) (Commit.a1 ck) /\ shaped (l p) (k p) (Commit.a2 ck) /\ (n p + l p <= k p)%nat.
Proof.
  intros H. unfold Commit.new in H.
  apply bind_ok in H as [kn [E0 H]].
  unfold usize_sub in E0. destruct (Nat.leb_spec (n p) (k p)) as [Hnk|]; [|discriminate].
  injection E0 as <-.
  apply bind_ok in H as [[a1' rng1] [E1 H]].
  apply bind_ok in H as [ca1 [E2 H]].
  apply bind_ok in H as [kn' [E3 H]].
  unfold usize_sub in E3. destruct (Nat.leb_spec (n p) (k p)); [|lia]. injection E3 as <-.
  apply bind_ok in H as [knl [E4 H]].
  unfold usize_sub in E4. destruct (Nat.leb_spec (l p) (k p - n p)) as [Hl|]; [|discriminate].
  injection E4 as <-.
  apply bind_ok in H as [[a2' rng2] [E5 H]].
  apply bind_ok in H as [t3 [E6 H]].
  apply bind_ok in H as [ca2 [E7 H]].
  injection H as <- _. cbn [Commit.a1 Commit.a2].
  destruct (KeyFacts.extend_cols_eq _ _ _ _ _ _ (diag_shaped _ _ _) (new_with_shaped _ _ _ _ _ _ E1) E2)
    as [Hc1 _].
  destruct (KeyFacts.extend_cols_eq _ _ _ _ _ _ (from_element_shaped _ _ _) (diag_shaped _ _ _) E6)
    as [Ht3 _].
  destruct (KeyFacts.extend_cols_eq _ _ _ _ _ _ Ht3 (new_with_shaped _ _ _ _ _ _ E5) E7) as [Hc2 _].
  replace (n p + (k p - n p))%nat with (k p) in Hc1 by lia.
  replace (n p + l p + (k p - n p - l p))%nat with (k p) in Hc2 by lia.
  split; [exact Hc1|]. split; [exact Hc2|lia].
Qed.
End KeyShapes.

(** X14: a key from [CommitmentKey::new] with [k >= 1] can commit only when
    [n >= 1] and [l >= 1]: with [n = 0] or [l = 0], [commit] never returns a
    commitment, because stacking [a1] over [a2] (or, when both are empty,
    the product [a r]) fails its dimension assertion. *)
Theorem commit_needs_n_and_l {L : RingLib} (rng0 rng0' : Rng) (p : Params)
  (ck : @Commit.CommitmentKey L) :
  Commit.new rng0 p = Ok (ck, rng0') -> (1 <= k p)%nat -> (n p = 0 \/ l p = 0)%nat ->
  forall fuel rng xv out, Commit.commit ck fuel rng xv p <> Ok out.
Proof.
  intros Hnew Hk Hnl fuel rng xv out H.
  destruct (KeyShapes.new_shapes _ _ _ _ Hnew) as [[Hl1 Hf1] [[Hl2 Hf2] _]].
  unfold Commit.commit in H.
  inv_bind H. apply LengthFacts.assert_ok, Nat.eqb_eq in E.
  inv_bind H. destruct p0 as [rv rng1].
  apply sample_r_shaped in E0 as [Hrv _].
  inv_bind H.
  destruct (Commit.a1 ck) as [|row1 t1] eqn:Ea1, (Commit.a2 ck) as [|row2 t2] eqn:Ea2.
  - cbn in E0. injection E0 as <-. cbn in Hl1, Hl2.
    rewrite <- Hl1 in H. rewrite <- Hl2 in E. destruct xv; [|discriminate E].
    cbn in H. destruct rv as [|rrow rt]; [cbn in Hrv; lia|].
    cbn in H. discriminate H.
  - apply Forall_inv in Hf2. unfold extend_rows in E0. cbn [dim] in E0. rewrite Hf2 in E0.
    destruct (k p); [lia|discriminate E0].
  - apply Forall_inv in Hf1. unfold extend_rows in E0. cbn [dim] in E0. rewrite Hf1 in E0.
    destruct (k p); [lia|discriminate E0].
  - cbn in Hl1, Hl2. lia.
Qed.

Module EqFacts.
Lemma list_eqb_iff {A : Type} (eqb : A -> A -> bool) (l1 l2 : list A) :
  (forall a c, eqb a c = true <-> a = c) -> list_eqb eqb l1 l2 = true <-> l1 = l2.
Proof.
  intros He. revert l2. induction l1 as [|a t IH]; intros [|c t2]; cbn; try (split; congruence).
  rewrite Bool.andb_true_iff, He, IH. split; [intros [-> ->]; reflexivity|].
  intros E. injection E as -> ->. split; reflexivity.
Qed.

Lemma list_eqb_sym {A : Type} (eqb : A -> A -> bool) (l1 l2 : list A) :
  (forall a c, eqb a c = eqb c a) -> list_eqb eqb l1 l2 = list_eqb eqb l2 l1.
Proof.
  intros Hs. revert l2. induction l1 as [|a t IH]; intros [|c t2]; cbn; try reflexivity.
  rewrite Hs, IH. reflexivity.
Qed.

Section Eq.
Context {L : RingLib}.

Lemma mat_eqb_iff (a o : @Mat L) :
  (forall e1 e2, peqb L e1 e2 = true <-> e1 = e2) -> mat_eqb a o = true <-> a = o.
Proof. intros He. apply list_eqb_iff. intros r1 r2. apply list_eqb_iff, He. Qed.

Lemma mat_eqb_sym (a o : @Mat L) :
  (forall e1 e2, peqb L e1 e2 = true <-> e1 = e2) -> mat_eqb a o = mat_eqb o a.
Proof.
  intros He. apply list_eqb_sym. intros r1 r2. apply list_eqb_sym. intros e1 e2.
  apply Bool.eq_iff_eq_true. rewrite !He. split; intros; congruence.
Qed.

Lemma mk_eq_iff (m n0 : nat) (F G : nat -> nat -> poly L) :
  mk m n0 F = mk m n0 G <-> forall i j, (i < m)%nat -> (j < n0)%nat -> F i j = G i j.
Proof.
  split; [|apply mk_ext]. intros E i j Hi Hj.
  rewrite <- (entry_mk m n0 F i j Hi Hj), <- (entry_mk m n0 G i j Hi Hj), E. reflexivity.
Qed.

Lemma cmul_one (RT : ring_theory (pzero L) (pone L) (padd L) (pmul L) (psub L) (pneg L) (@eq (poly L)))
  (a : @Mat L) : componentwise_mul a (pone L) = a.
Proof.
  unfold componentwise_mul. rewrite <- (map_id a) at 2. apply map_ext. intros row.
  rewrite <- (map_id row) at 2. apply map_ext. intros e.
  rewrite (Rmul_comm RT). apply (Rmul_1_l RT).
Qed.

Lemma add_cancel_l (RT : ring_theory (pzero L) (pone L) (padd L) (pmul L) (psub L) (pneg L) (@eq (poly L)))
  (a b0 c0 : poly L) : padd L a b0 = padd L a c0 -> b0 = c0.
Proof.
  intros E.
  rewrite <- (Radd_0_l RT b0), <- (Radd_0_l RT c0), <- (Ropp_def RT a), (Radd_comm RT a (pneg L a)),
    <- !(Radd_assoc RT), E. reflexivity.
Qed.
End Eq.
End EqFacts.

(** X15: with [f = Some 1], [Commitment::verify] decides exactly what it
    decides with [f = None]: scaling both sides of [c = A r + [0; x]] by the
    unit of the ring changes neither the errors nor the verdict. *)
Theorem verify_unit_f {L : RingLib} (HL : RingLaws L) (com : @Commit.Commitment L)
  (xv : list (poly L)) (rv : @Mat L) (ck : @Commit.CommitmentKey L) (p : Params) :
  Commit.verify com {| Commit.x := xv; Commit.r := rv; Commit.f := Some (pone L) |} ck p
  = Commit.verify com {| Commit.x := xv; Commit.r := rv; Commit.f := None |} ck p.
Proof.
  destruct HL as [RT He]. unfold Commit.verify. cbn [Commit.x Commit.r Commit.f].
  destruct (check_commit_constraint p rv) as [[|]| |]; cbn [bind negb]; try reflexivity.
  destruct (extend_rows _ _) as [a| |]; cbn [bind]; try reflexivity.
  destruct (extend_rows _ _) as [z| |]; cbn [bind]; try reflexivity.
  destruct (dot a rv) as [ar| |]; cbn [bind]; try reflexivity.
  rewrite !(EqFacts.cmul_one RT).
  destruct (add ar z) as [s| |]; cbn [bind]; try reflexivity.
  f_equal. apply EqFacts.mat_eqb_sym, He.
Qed.

(** X16: a commitment binds its message: if [commit] returned [(opening, c)]
    for the message [x] (with [a1] n x k, [a2] l x k and [n, l, k >= 1]), then
    [verify] accepts [c] with the same [r] and another message [x'] of length
    [l] exactly when [x' = x]. *)
Theorem commit_binds_message {L : RingLib} (HL : RingLaws L) (ck : @Commit.CommitmentKey L)
  (p : Params) (fuel : nat) (rng rng' : Rng) (xv xv' : list (poly L))
  (op : @Commit.Opening L) (com : @Commit.Commitment L) :
  (1 <= n p)%nat -> (1 <= l p)%nat -> (1 <= k p)%nat ->
  shaped (n p) (k p) (Commit.a1 ck) -> shaped (l p) (k p) (Commit.a2 ck) ->
  Commit.commit ck fuel rng xv p = Ok (op, com, rng') ->
  length xv' = l p ->
  Commit.verify com {| Commit.x := xv'; Commit.r := Commit.r op; Commit.f := None |} ck p
  = Ok (list_eqb (peqb L) xv' xv).
Proof.
  destruct HL as [RT He].
  intros Hn Hl Hk Hs1 Hs2 H Hlen'. unfold Commit.commit in H.
  destruct (assert _ _) as [[]| |] eqn:E0; cbn [bind] in H; try discriminate H.
  apply LengthFacts.assert_ok, Nat.eqb_eq in E0.
  destruct (Commit.sample_r fuel p rng) as [[rv rng1]| |] eqn:E1; cbn [bind] in H;
    try discriminate H.
  pose proof (CommitFacts.sample_r_ok _ _ _ _ _ E1) as Hok.
  pose proof (sample_r_shaped _ _ _ _ _ E1) as Hrv. apply shaped_mk in Hrv.
  apply shaped_mk in Hs1, Hs2.
  set (A1 := entry (Commit.a1 ck)) in Hs1. set (A2 := entry (Commit.a2 ck)) in Hs2.
  set (Rf := entry rv) in Hrv.
  rewrite Hs1, Hs2, extend_rows_mk in H by assumption. cbn [bind] in H.
  rewrite from_element_mk, from_vec_mk, <- E0, extend_rows_mk in H by assumption. cbn [bind] in H.
  rewrite Hrv, dot_mk in H by lia. cbn [bind] in H.
  rewrite add_mk in H by lia. cbn [bind] in H.
  injection H as <- <- _.
  unfold Commit.verify. cbn [Commit.x Commit.r Commit.f Commit.c].
  rewrite <- Hrv, Hok. cbn [bind negb].
  rewrite Hs1, Hs2, extend_rows_mk by assumption. cbn [bind].
  rewrite from_element_mk, from_vec_mk, Hlen', extend_rows_mk by assumption. cbn [bind].
  rewrite Hrv, dot_mk by lia. cbn [bind].
  rewrite add_mk by lia. cbn [bind]. f_equal.
  apply Bool.eq_iff_eq_true.
  rewrite EqFacts.mat_eqb_iff, EqFacts.mk_eq_iff, EqFacts.list_eqb_iff by exact He.
  split.
  - intros Hpt. apply nth_ext with (d := pzero L) (d' := pzero L); [congruence|].
    intros i Hi. specialize (Hpt (n p + i)%nat 0%nat ltac:(lia) ltac:(lia)).
    destruct (Nat.ltb_spec (n p + i) (n p)); [lia|].
    replace (n p + i - n p)%nat with i in Hpt by lia.
    eapply EqFacts.add_cancel_l; [exact RT|exact Hpt].
  - intros <-. reflexivity.
Qed.

Module SumAssert.
Import Outcomes.
Section SA.
Context {L : RingLib}.

Definition not_sum_msg (s : string) : Prop := s <> Sum.sum_assert_msg.

Lemma lib_msgs_not_sum : lib_msgs not_sum_msg.
Proof. unfold lib_msgs, not_sum_msg, Sum.sum_assert_msg. repeat split; discriminate. Qed.

Lemma res_ok_commit_any (ck : @Commit.CommitmentKey L) (fuel : nat) (rng : Rng)
  (xv : list (poly L)) (p : Params) :
  res_ok not_sum_msg True (Commit.commit ck fuel rng xv p).
Proof.
  destruct (Nat.eqb_spec (length xv) (l p)) as [E|E].
  - apply (res_ok_commit _ _ lib_msgs_not_sum); [exact I|exact E].
  - rewrite LengthFacts.commit_bad_length by exact E. cbn.
    unfold not_sum_msg, Sum.sum_assert_msg, Commit.commit_len_msg. discriminate.
Qed.

Lemma commit_all_any (ck : @Commit.CommitmentKey L) (p : Params) (fuel : nat) (rng : Rng)
  (xs : list (list (poly L))) : res_ok not_sum_msg True (Sum.commit_all ck p fuel rng xs).
Proof.
  revert rng; induction xs as [|x xs IH]; intros rng; simpl; [exact I|].
  apply res_ok_bind; [apply res_ok_commit_any|]. intros [[o cm] rng1] _.
  apply res_ok_bind; [apply IH|]. intros [[os cms] rng2] _. exact I.
Qed.

Lemma sampled_y_any (p : Params) (rng : Rng) :
  res_ok not_sum_msg True (@new_with L (k p) 1 (normal_gen p) rng).
Proof.
  apply (res_ok_new_with not_sum_msg True). intros r.
  apply (res_ok_normal_gen _ _ lib_msgs_not_sum).
Qed.

Lemma sum_commit_after_assert (ck : @Commit.CommitmentKey L) (p : Params) (fuel : nat) (rng : Rng)
  (gs : list (poly L)) (xs : list (list (poly L))) :
  negb (Nat.eqb (length gs) 0) && Nat.eqb (length gs) (length xs) = true ->
  res_ok not_sum_msg True (Sum.commit ck p fuel rng gs xs).
Proof.
  intros Ha. unfold Sum.commit. rewrite Ha. cbn [assert bind].
  pose proof lib_msgs_not_sum as HP.
  assert (Hu : not_sum_msg "called `Option::unwrap()` on a `None` value"%string) by apply HP.
  apply res_ok_bind.
  { apply (res_ok_reduce_add _ _ HP); [exact Hu|]. intros [xm g]. exact I. }
  intros xpm _.
  apply res_ok_bind; [apply (res_ok_one_d _ _ HP)|]. intros xp _.
  apply res_ok_bind; [apply res_ok_commit_any|]. intros [[opp cp] rng1] _.
  apply res_ok_bind; [apply commit_all_any|]. intros [[os cs] rng2] _.
  apply res_ok_bind.
  { apply (res_ok_repeat_draw _ _). intros r. apply sampled_y_any. }
  intros [ys rng3] _.
  apply res_ok_bind; [apply sampled_y_any|]. intros [ypv rng4] _.
  apply res_ok_bind.
  { apply res_ok_mapM. intros yv _.
    apply res_ok_bind; [apply (res_ok_dot _ _ HP)|]. intros ? _. apply (res_ok_one_d _ _ HP). }
  intros ? _.
  apply res_ok_bind; [apply (res_ok_dot _ _ HP)|]. intros ? _.
  apply res_ok_bind; [apply (res_ok_one_d _ _ HP)|]. intros ? _.
  apply res_ok_bind.
  { apply (res_ok_reduce_add _ _ HP); [exact Hu|]. intros [g yv].
    apply res_ok_bind; [apply (res_ok_dot _ _ HP)|]. intros ? _. exact I. }
  intros ? _.
  apply res_ok_bind; [apply (res_ok_dot _ _ HP)|]. intros ? _.
  apply res_ok_bind; [apply (res_ok_sub _ _ HP)|]. intros ? _. exact I.
Qed.
End SA.
End SumAssert.

(** X17: [SumProofProver::commit] fails its entry assertion
    [!gs.is_empty() && gs.len() == xs.len()] exactly when [gs] is empty or
    its length differs from the number of messages; no later step panics
    with that message. *)
Theorem sum_commit_assertion {L : RingLib} (ck : @Commit.CommitmentKey L) (p : Params)
  (fuel : nat) (rng : Rng) (gs : list (poly L)) (xs : list (list (poly L))) :
  Sum.commit ck p fuel rng gs xs = Panic Sum.sum_assert_msg
  <-> (gs = [] \/ length gs <> length xs).
Proof.
  destruct (negb (Nat.eqb (length gs) 0) && Nat.eqb (length gs) (length xs)) eqn:Ha.
  - pose proof (SumAssert.sum_commit_after_assert ck p fuel rng gs xs Ha) as Hok.
    apply andb_true_iff in Ha as [Hne Heq].
    apply negb_true_iff, Nat.eqb_neq in Hne. apply Nat.eqb_eq in Heq.
    split.
    + intros E. rewrite E in Hok. exfalso. apply Hok. reflexivity.
    + intros [->|H]; [cbn in Hne; lia|contradiction].
  - split; [intros _|intros _; unfold Sum.commit; rewrite Ha; reflexivity].
    apply andb_false_iff in Ha as [Ha|Ha].
    + apply negb_false_iff, Nat.eqb_eq, length_zero_iff_nil in Ha. left; exact Ha.
    + apply Nat.eqb_neq in Ha. right; exact Ha.
Qed.

(** X18: [Params::prepare_value] panics when the number of integer vectors
    differs from [l]; otherwise it returns [l] ring elements, one
    [from_coeffs] per vector, and [CommitmentKey::commit] and the Open and
    Linear provers' [commit] never fail their length assertion on them. *)
Theorem prepare_value_spec {L : RingLib} (p : Params) (value : list (list Z)) :
  (length value <> l p -> @ParamsApi.prepare_value L p value = Panic ParamsApi.prepare_value_msg)
  /\ (length value = l p ->
      exists xv, ParamsApi.prepare_value p value = Ok xv
        /\ xv = map (from_coeffs L) value /\ length xv = l p
        /\ forall ck fuel rng g,
             Commit.commit ck fuel rng xv p <> Panic Commit.commit_len_msg
             /\ Open.commit ck p fuel rng xv <> Panic Commit.commit_len_msg
             /\ Linear.commit ck p fuel rng g xv <> Panic Commit.commit_len_msg).
Proof.
  unfold ParamsApi.prepare_value. split.
  - intros H. destruct (Nat.eqb_spec (length value) (l p)); [contradiction|reflexivity].
  - intros H. rewrite H, Nat.eqb_refl. cbn [assert bind].
    exists (map (from_coeffs L) value).
    assert (Hl : length (map (from_coeffs L) value) = l p) by (rewrite length_map; exact H).
    split; [reflexivity|]. split; [reflexivity|]. split; [exact Hl|].
    intros ck fuel rng g. split; [|split].
    + apply LengthFacts.res_ok_not_len.
      apply (Outcomes.res_ok_commit _ _ Outcomes.lib_msgs_not_len); [exact I|exact Hl].
    + apply LengthFacts.res_ok_not_len, ProverLengths.open_commit_ok, Hl.
    + apply LengthFacts.res_ok_not_len, ProverLengths.linear_commit_ok, Hl.
Qed.

(** X19: with a negative [b], [CommitmentKey::commit] panics at the first
    iteration of its sampling loop (or at its length assertion): either
    [random_polynomial_within] samples from the empty range [[-b, b]], or
    [check_commit_constraint] unwraps [b.to_usize()] of a negative [b]. *)
Theorem commit_negative_b_panics {L : RingLib} (ck : @Commit.CommitmentKey L) (p : Params)
  (fuel : nat) (rng : Rng) (xv : list (poly L)) :
  (b p < 0)%Z -> (1 <= fuel)%nat -> exists msg, Commit.commit ck fuel rng xv p = Panic msg.
Proof.
  intros Hb Hf. unfold Commit.commit.
  destruct (Nat.eqb (l p) (length xv)); cbn [assert bind]; [|eexists; reflexivity].
  destruct fuel as [|f]; [lia|]. cbn [Commit.sample_r].
  destruct (new_with (k p) 1 (fun r0 => random_polynomial_within r0 (b p)) rng)
    as [[tmp rng1]|s|] eqn:E; cbn [bind].
  - unfold check_commit_constraint, commit_bound, standard_deviation, to_usize.
    destruct (Z.leb_spec 0 (b p)); [lia|]. cbn. eexists; reflexivity.
  - eexists; reflexivity.
  - exfalso. revert E. apply LengthFacts.res_ok_no_diverge.
    apply Outcomes.res_ok_new_with. intros r.
    apply (Outcomes.res_ok_within _ _ Outcomes.lib_msgs_any).
Qed.

Module RandFacts.
Import SampleFacts.
Lemma sample_r_within {L : RingLib} (fuel : nat) (p : Params) (rng rng1 : Rng) (rv : @Mat L) :
  Commit.sample_r fuel p rng = Ok (rv, rng1) ->
  forall i j, (i < k p)%nat -> (j < 1)%nat -> within_poly (b p) (entry rv i j).
Proof.
  revert rng; induction fuel as [|fuel IH]; intros rng H; cbn [Commit.sample_r] in H;
    [discriminate H|].
  apply bind_ok in H as [[tmp r1] [E H]].
  apply bind_ok in H as [ok [_ H]].
  destruct ok.
  - injection H as <- _.
    apply (KeyFacts.new_with_entries (within_poly (b p))) in E; [apply E|].
    intros r0 e r2 He. exact (within_output r0 r2 (b p) e He).
  - exact (IH r1 H).
Qed.
End RandFacts.

(** X20: the randomness [r] of an opening returned by [CommitmentKey::commit]
    is a k x 1 matrix that passes [check_commit_constraint], and each entry
    is [Polynomial::new] of [N] coefficients in [[-b, b]], as drawn by
    [random_polynomial_within]. *)
Theorem commit_randomness {L : RingLib} (ck : @Commit.CommitmentKey L) (p : Params)
  (fuel : nat) (rng rng' : Rng) (xv : list (poly L))
  (op : @Commit.Opening L) (com : @Commit.Commitment L) :
  Commit.commit ck fuel rng xv p = Ok (op, com, rng') ->
  shaped (k p) 1 (Commit.r op) /\ check_commit_constraint p (Commit.r op) = Ok true
  /\ Commit.x op = xv /\ Commit.f op = None
  /\ forall i, (i < k p)%nat -> within_poly (b p) (entry (Commit.r op) i 0).
Proof.
  intros H. unfold Commit.commit in H.
  inv_bind H. inv_bind H. destruct p0 as [rv rng1].
  inv_bind H. inv_bind H. inv_bind H. inv_bind H.
  injection H as <- _ _. cbn [Commit.r Commit.x Commit.f].
  split; [exact (sample_r_shaped _ _ _ _ _ E0)|].
  split; [exact (CommitFacts.sample_r_ok _ _ _ _ _ E0)|].
  split; [reflexivity|]. split; [reflexivity|].
  intros i Hi. apply (RandFacts.sample_r_within _ _ _ _ _ E0); lia.
Qed.

(** X21: an honest commitment splits as [Commitment::c1_c2] into
    [c1 = A1 r] (n x 1) and [c2 = A2 r + x] (l x 1), where [r] is the
    opening's randomness. *)
Theorem commit_c1_c2 {L : RingLib} (HL : RingLaws L) (ck : @Commit.CommitmentKey L)
  (p : Params) (fuel : nat) (rng rng' : Rng) (xv : list (poly L))
  (op : @Commit.Opening L) (com : @Commit.Commitment L) :
  (1 <= n p)%nat -> (1 <= l p)%nat -> (1 <= k p)%nat ->
  shaped (n p) (k p) (Commit.a1 ck) -> shaped (l p) (k p) (Commit.a2 ck) ->
  Commit.commit ck fuel rng xv p = Ok (op, com, rng') ->
  Commit.c1_c2 com p
  = Ok (mk (n p) 1 (fun i j => isum (k p)
                       (fun kk => pmul L (entry (Commit.a1 ck) i kk) (entry (Commit.r op) kk j))),
        mk (l p) 1 (fun i j => padd L
                       (isum (k p) (fun kk => pmul L (entry (Commit.a2 ck) i kk) (entry (Commit.r op) kk j)))
                       (nth i xv (pzero L)))).
Proof.
  intros Hn Hl Hk Hs1 Hs2 H.
  apply shaped_mk in Hs1, Hs2.
  destruct (MatForm.commit_mk (proj1 HL) ck p fuel rng rng' xv op com _ _ Hn Hl Hk Hs1 Hs2 H)
    as (_ & _ & _ & _ & Hc).
  exact Hc.
Qed.

(** X22: [Mat::from_vec] and the flattening [one_d_mat_to_vec] are inverse:
    flattening [from_vec v] gives back [v], and an m x 1 matrix that
    flattens to [v] is [from_vec v]. *)
Theorem from_vec_roundtrip {L : RingLib} (v : list (poly L)) (a : @Mat L) :
  one_d_mat_to_vec (from_vec v) = Ok v
  /\ (shaped (length a) 1 a -> one_d_mat_to_vec a = Ok v -> from_vec v = a).
Proof.
  split.
  - unfold one_d_mat_to_vec, from_vec.
    induction v as [|e t IH]; [reflexivity|]. cbn [map mapM bind]. rewrite IH. reflexivity.
  - intros [_ Hf]. revert v. induction Hf as [|row a Hrow Ha IH]; intros v H.
    + cbn in H. injection H as <-. reflexivity.
    + destruct row as [|e [|e' rest]]; cbn in Hrow; try discriminate Hrow.
      change (one_d_mat_to_vec ([e] :: a))
        with (y <- Ok e ;; ys <- one_d_mat_to_vec a ;; Ok (y :: ys)) in H.
      cbn [bind] in H.
      destruct (one_d_mat_to_vec a) as [v'| |] eqn:E; cbn [bind] in H; try discriminate H.
      injection H as <-. cbn. f_equal. apply IH. reflexivity.
Qed.

(** ** Witnesses of the further properties *)

Ltac shaped_conc := vm_compute; split; [reflexivity|repeat constructor].

Lemma mat_dot_spec_witness :
  dot m12 m7 = Panic "assertion `left == right` failed"
  /\ dot m12 c34
     = Ok (mk 1 1 (fun i j => lsum 2 (fun kk => pmul Concrete.Z1 (entry m12 i kk) (entry c34 kk j)))).
Proof.
  split.
  - apply (proj1 (mat_dot_spec _ _)). vm_compute. discriminate.
  - apply (proj2 (mat_dot_spec _ _) 1 2 1); [lia|lia|shaped_conc|shaped_conc].
Defined.

Lemma mat_dot_assoc_witness :
  exists r0, (ab <- dot m12 c34 ;; dot ab m7) = Ok r0 /\ (bc <- dot c34 m7 ;; dot m12 bc) = Ok r0.
Proof.
  apply (mat_dot_assoc Z1_laws 1 2 1 1); [lia|lia|lia|shaped_conc|shaped_conc|shaped_conc].
Defined.

Lemma mat_dot_add_distr_witness :
  (exists r0, (bb <- add c34 c56 ;; dot m12 bb) = Ok r0
              /\ (ab <- dot m12 c34 ;; ab' <- dot m12 c56 ;; add ab ab') = Ok r0)
  /\ (exists r0, (aa <- add m12 m34 ;; dot aa c34) = Ok r0
              /\ (ab <- dot m12 c34 ;; a'b <- dot m34 c34 ;; add ab a'b) = Ok r0).
Proof.
  apply (mat_dot_add_distr Z1_laws 1 2 1); [lia|lia|shaped_conc..].
Defined.

Lemma mat_add_spec_witness :
  add m12 c34 = Panic "assertion `left == right` failed"
  /\ add m12 m34 = Ok (mk 1 2 (fun i j => padd Concrete.Z1 (entry m12 i j) (entry m34 i j))).
Proof.
  split.
  - apply (proj1 (mat_add_spec _ _)). vm_compute. discriminate.
  - apply (proj2 (mat_add_spec _ _) 1 2); [lia|shaped_conc|shaped_conc].
Defined.

Lemma mat_add_laws_witness :
  add m12 m34 = add m34 m12
  /\ (exists r0, (ab <- add m12 m34 ;; add ab m12) = Ok r0 /\ (bc <- add m34 m12 ;; add m12 bc) = Ok r0)
  /\ add m12 (from_element 1 2 (pzero Concrete.Z1)) = Ok m12.
Proof.
  apply (mat_add_laws Z1_laws 1 2); [lia|shaped_conc..].
Defined.

Lemma mat_extend_rows_spec_witness :
  (extend_rows m12 m34 = Ok (m12 ++ m34) /\ shaped 2 2 (m12 ++ m34))
  /\ (extend_rows m12 [] = Panic "assertion `left == right` failed"
      /\ extend_rows [] m12 = Panic "assertion `left == right` failed").
Proof.
  split.
  - apply (proj1 (mat_extend_rows_spec m12 m34) 1 1 2); [lia|lia|shaped_conc|shaped_conc].
  - apply (proj2 (mat_extend_rows_spec m12 m34)). vm_compute. lia.
Defined.

Lemma mat_extend_cols_spec_witness :
  exists c, extend_cols c34 c56 = Ok c /\ shaped 2 (1 + 1) c /\
    forall i j, (i < 2)%nat -> (j < 1 + 1)%nat ->
      entry c i j = if (j <? 1)%nat then entry c34 i j else entry c56 i (j - 1).
Proof.
  apply (mat_extend_cols_spec 2 1 1); shaped_conc.
Defined.

Lemma norm_infinity_spec_witness :
  Norms.norm_infinity [] = Panic "called `Option::unwrap()` on a `None` value"
  /\ ((forall c, In c [3; -5]%Z -> (Z.abs c <= 5)%Z) /\ exists c, In c [3; -5]%Z /\ Z.abs c = 5%Z).
Proof.
  split.
  - apply (proj1 (norm_infinity_spec [])). reflexivity.
  - apply (proj2 (norm_infinity_spec [3; -5]%Z)). vm_compute. reflexivity.
Defined.

Lemma norms_ordered_witness : (0 <= 5 <= Norms.norm_2 [3; -5]%Z)%Z.
Proof. apply (proj2 (norms_ordered [3; -5]%Z)). vm_compute. reflexivity. Defined.

Lemma random_polynomial_within_spec_witness :
  (exists cs rng',
      random_polynomial_within ck_tape 2 = Ok (from_coeffs Concrete.Z1 cs, rng')
      /\ length cs = degN Concrete.Z1 /\ Forall (fun c => - 2 <= c <= 2)%Z cs)
  /\ @random_polynomial_within Concrete.Z1 ck_tape (-1) = Panic "cannot sample empty range".
Proof.
  split.
  - apply (proj1 (random_polynomial_within_spec ck_tape 2)). lia.
  - apply (proj2 (random_polynomial_within_spec ck_tape (-1))); [lia|vm_compute; lia].
Defined.

Lemma verify_constraint_implies_commit_witness :
  check_commit_constraint default_params c34 = Ok true
  \/ check_commit_constraint default_params c34 = Panic "attempt to multiply with overflow".
Proof. apply verify_constraint_implies_commit. vm_compute. reflexivity. Defined.

Lemma new_key_dims_witness :
  @ParamsApi.generate_commitment_key Concrete.Z1 p_short_k ck_tape
    = Panic "attempt to subtract with overflow"
  /\ exists ck rng', @ParamsApi.generate_commitment_key Concrete.Z1 default_params ck_tape = Ok (ck, rng').
Proof.
  split.
  - apply (proj1 (new_key_dims ck_tape p_short_k ltac:(vm_compute; discriminate))). vm_compute. lia.
  - apply (proj2 (new_key_dims ck_tape default_params ltac:(vm_compute; discriminate))). vm_compute. lia.
Defined.

Lemma new_key_structure_witness :
  shaped 1 3 (Commit.a1 ck1) /\ shaped 1 3 (Commit.a2 ck1)
  /\ (forall i j, (i < 1)%nat -> (j < 1)%nat ->
        entry (Commit.a1 ck1) i j = if Nat.eqb i j then pone Concrete.Z1 else pzero Concrete.Z1)
  /\ (forall i j, (i < 1)%nat -> (1 <= j < 3)%nat ->
        within_poly (q default_params) (entry (Commit.a1 ck1) i j))
  /\ (forall i j, (i < 1)%nat -> (j < 1 + 1)%nat ->
        entry (Commit.a2 ck1) i j = if Nat.eqb j (1 + i) then pone Concrete.Z1 else pzero Concrete.Z1)
  /\ (forall i j, (i < 1)%nat -> (1 + 1 <= j < 3)%nat ->
        within_poly (q default_params) (entry (Commit.a2 ck1) i j)).
Proof.
  apply (new_key_structure ck_tape (skipn 3 ck_tape) default_params ck1).
  vm_compute. reflexivity.
Defined.

Lemma commit_needs_n_and_l_witness :
  exists ck rng', @Commit.new Concrete.Z1 ck_tape p_no_n = Ok (ck, rng')
  /\ forall fuel rng xv out, Commit.commit ck fuel rng xv p_no_n <> Ok out.
Proof.
  destruct (@Commit.new Concrete.Z1 ck_tape p_no_n) as [[ck rng']| |] eqn:E;
    [| vm_compute in E; discriminate E | vm_compute in E; discriminate E].
  exists ck, rng'. split; [reflexivity|].
  apply (commit_needs_n_and_l ck_tape rng' p_no_n ck E); [vm_compute; lia|left; reflexivity].
Defined.

Lemma verify_unit_f_witness :
  Commit.verify {| Commit.c := c12 |}
    {| Commit.x := [pone Concrete.Z1]; Commit.r := r010; Commit.f := Some (pone Concrete.Z1) |}
    ck1 default_params
  = Commit.verify {| Commit.c := c12 |}
      {| Commit.x := [pone Concrete.Z1]; Commit.r := r010; Commit.f := None |} ck1 default_params.
Proof. apply (verify_unit_f Z1_laws). Defined.

Lemma commit_binds_message_witness :
  exists op com rng',
    @Commit.commit Concrete.Z1 ck1 3 run_tape [5%Z] default_params = Ok (op, com, rng')
    /\ Commit.verify com {| Commit.x := ([6%Z] : list (poly Concrete.Z1)); Commit.r := Commit.r op; Commit.f := None |}
         ck1 default_params
       = Ok (list_eqb (peqb Concrete.Z1) [6%Z] [5%Z]).
Proof.
  destruct (@Commit.commit Concrete.Z1 ck1 3 run_tape [5%Z] default_params)
    as [[[op com] rng']| |] eqn:E;
    [| vm_compute in E; discriminate E | vm_compute in E; discriminate E].
  exists op, com, rng'. split; [reflexivity|].
  apply (commit_binds_message Z1_laws ck1 default_params 3 run_tape rng' [5%Z] [6%Z] op com);
    [vm_compute; lia|vm_compute; lia|vm_compute; lia|shaped_conc|shaped_conc|exact E|reflexivity].
Defined.

Lemma sum_commit_assertion_witness :
  @Sum.commit Concrete.Z1 ck1 default_params 3 run_tape [] [[5%Z]] = Panic Sum.sum_assert_msg.
Proof.
  apply (proj2 (sum_commit_assertion ck1 default_params 3 run_tape [] [[5%Z]])).
  left; reflexivity.
Defined.

Lemma prepare_value_spec_witness :
  @ParamsApi.prepare_value Concrete.Z1 default_params [[1; 2]; [3]]%Z = Panic ParamsApi.prepare_value_msg
  /\ exists xv, @ParamsApi.prepare_value Concrete.Z1 default_params [[1; 2]]%Z = Ok xv
       /\ length xv = 1%nat
       /\ Commit.commit ck1 3 run_tape xv default_params <> Panic Commit.commit_len_msg.
Proof.
  split.
  - apply (proj1 (prepare_value_spec default_params _)). vm_compute. discriminate.
  - destruct (proj2 (@prepare_value_spec Concrete.Z1 default_params [[1; 2]]%Z) eq_refl)
      as (xv & E & _ & Hl & Hc).
    exists xv. split; [exact E|]. split; [exact Hl|].
    exact (proj1 (Hc ck1 3%nat run_tape 0%Z)).
Defined.

Lemma commit_negative_b_panics_witness :
  exists msg, @Commit.commit Concrete.Z1 ck1 1 run_tape [5%Z] p_neg_b = Panic msg.
Proof. apply commit_negative_b_panics; [vm_compute; reflexivity|lia]. Defined.

Lemma commit_randomness_witness :
  exists op com rng',
    @Commit.commit Concrete.Z1 ck1 3 run_tape [5%Z] default_params = Ok (op, com, rng')
    /\ shaped 3 1 (Commit.r op) /\ check_commit_constraint default_params (Commit.r op) = Ok true
    /\ Commit.x op = [5%Z] /\ Commit.f op = None
    /\ forall i, (i < 3)%nat -> within_poly (b default_params) (entry (Commit.r op) i 0).
Proof.
  destruct (@Commit.commit Concrete.Z1 ck1 3 run_tape [5%Z] default_params)
    as [[[op com] rng']| |] eqn:E;
    [| vm_compute in E; discriminate E | vm_compute in E; discriminate E].
  exists op, com, rng'. split; [reflexivity|].
  exact (commit_randomness ck1 default_params 3 run_tape rng' [5%Z] op com E).
Defined.

Lemma commit_c1_c2_witness :
  exists op com rng',
    @Commit.commit Concrete.Z1 ck1 3 run_tape [5%Z] default_params = Ok (op, com, rng')
    /\ Commit.c1_c2 com default_params
       = Ok (mk 1 1 (fun i j => isum 3
                  (fun kk => pmul Concrete.Z1 (entry (Commit.a1 ck1) i kk) (entry (Commit.r op) kk j))),
             mk 1 1 (fun i j => padd Concrete.Z1
                  (isum 3 (fun kk => pmul Concrete.Z1 (entry (Commit.a2 ck1) i kk) (entry (Commit.r op) kk j)))
                  (nth i [5%Z] (pzero Concrete.Z1)))).
Proof.
  destruct (@Commit.commit Concrete.Z1 ck1 3 run_tape [5%Z] default_params)
    as [[[op com] rng']| |] eqn:E;
    [| vm_compute in E; discriminate E | vm_compute in E; discriminate E].
  exists op, com, rng'. split; [reflexivity|].
  apply (commit_c1_c2 Z1_laws ck1 default_params 3 run_tape rng' [5%Z] op com);
    [vm_compute; lia|vm_compute; lia|vm_compute; lia|shaped_conc|shaped_conc|exact E].
Defined.

Lemma from_vec_roundtrip_witness :
  one_d_mat_to_vec (from_vec v34) = Ok v34 /\ from_vec v34 = c34.
Proof.
  split.
  - exact (proj1 (from_vec_roundtrip v34 c34)).
  - apply (proj2 (from_vec_roundtrip v34 c34)); [shaped_conc|reflexivity].
Defined.
